(** * scripts/batch.py: the two-process supervisor (BotManager)

    A shallow embedding of [scripts/batch.py].  Python strings are Rocq
    strings (code points below 256), the process registry [self.processes]
    is an insertion-ordered association list, and the effectful methods of
    [BotManager] are functions of an explicit state in a state-and-exception
    monad.  Everything the script reaches outside of itself (subprocess,
    asyncio, input, the persona collaborator, random, [int] and the parser
    of the command line) is an operation of the [Platform] interface, so
    the theorems hold for every behaviour of those.  A run starts from the
    command line and the environment it is given. *)

From Stdlib Require Import String Ascii List ZArith NArith Lia Bool DecimalString.
Import ListNotations.
Open Scope string_scope.

Set Implicit Arguments.

(** ** Python strings *)

Module PyStr.

(** [str.isspace] on one character, for code points below 256. *)
Definition isspace (c : ascii) : bool :=
  let n := N_of_ascii c in
  ((9 <=? n) && (n <=? 13) || (28 <=? n) && (n <=? 32) || (n =? 133) || (n =? 160))%N.

Definition is_empty (s : string) : bool :=
  match s with EmptyString => true | String _ _ => false end.

Fixpoint lstrip (s : string) : string :=
  match s with
  | EmptyString => EmptyString
  | String c r => if isspace c then lstrip r else s
  end.

Fixpoint rstrip (s : string) : string :=
  match s with
  | EmptyString => EmptyString
  | String c r =>
      let r' := rstrip r in
      if is_empty r' && isspace c then EmptyString else String c r'
  end.

(** [s.strip()]: whitespace is removed at both ends. *)
Definition strip (s : string) : string := rstrip (lstrip s).

(** [s.startswith(p)]. *)
Fixpoint startswith (s p : string) {struct p} : bool :=
  match p with
  | EmptyString => true
  | String a p' =>
      match s with
      | EmptyString => false
      | String b s' => Ascii.eqb a b && startswith s' p'
      end
  end.

(** [needle in hay]. *)
Fixpoint contains (needle hay : string) : bool :=
  startswith hay needle
  || match hay with
     | EmptyString => false
     | String _ r => contains needle r
     end.

(** [str(n)] for an int. *)
Definition str_int (n : Z) : string := NilZero.string_of_int (Z.to_int n).

(** Every character of [s] is whitespace (the empty string included). *)
Fixpoint all_space (s : string) : bool :=
  match s with
  | EmptyString => true
  | String c r => isspace c && all_space r
  end.

(** No character of [s] is whitespace. *)
Fixpoint no_space (s : string) : bool :=
  match s with
  | EmptyString => true
  | String c r => negb (isspace c) && no_space r
  end.

(** [needle] occurs in [hay], said without the search function. *)
Definition occurs (needle hay : string) : Prop :=
  exists pre post, hay = pre ++ needle ++ post.

End PyStr.

(** ** Exceptions, answers of the platform, results of the model *)

(** The classes below [Exception] that the script or its platform raise. *)
Inductive error_class : Type :=
| ValueError | IndexError | KeyError | OSError | EOFError | RuntimeError.

(** A raised exception.  [CancelledError], [KeyboardInterrupt] and
    [SystemExit] derive from [BaseException] only (the script's [list[str]]
    annotation needs Python 3.9, where this holds for [CancelledError] too),
    so [except Exception] lets them through. *)
Inductive exn : Type :=
| Exception_ (cls : error_class) (msg : string)
| CancelledError
| KeyboardInterrupt
| SystemExit (code : Z).

Definition is_Exception (e : exn) : bool :=
  match e with Exception_ _ _ => true | _ => false end.

Definition is_ValueError (e : exn) : bool :=
  match e with Exception_ ValueError _ => true | _ => false end.

Definition is_CancelledError (e : exn) : bool :=
  match e with CancelledError => true | _ => false end.

Definition is_KeyboardInterrupt (e : exn) : bool :=
  match e with KeyboardInterrupt => true | _ => false end.

(** [str(e)], as the f-strings of the log messages format it. *)
Definition str (e : exn) : string :=
  match e with
  | Exception_ _ msg => msg
  | CancelledError | KeyboardInterrupt => ""
  | SystemExit code => PyStr.str_int code
  end.

(** What a call into the platform gives back. *)
Inductive answer (A : Type) : Type :=
| Returned (a : A)
| Raised (e : exn).
Arguments Returned {A} a.
Arguments Raised {A} e.

(** What a function of the model gives back; [OutOfFuel] is the model's
    bound on the script's two unbounded loops, never a behaviour of the
    script. *)
Inductive result (A : Type) : Type :=
| Ok (a : A)
| Raise (e : exn)
| OutOfFuel.
Arguments Ok {A} a.
Arguments Raise {A} e.
Arguments OutOfFuel {A}.

Definition lift {A} (a : answer A) : result A :=
  match a with Returned x => Ok x | Raised e => Raise e end.

(** ** The logger *)

Inductive severity : Type := INFO | SUCCESS | WARNING | ERROR.

Definition log_entry : Type := (severity * string)%type.

(** ** Processes and the registry *)

(** The identity of a [subprocess.Popen] object. *)
Definition handle : Type := nat.

Inductive stream : Type := stdout | stderr.

Record process_info : Type := { process : handle; command : list string }.

(** The dict [self.processes]: insertion-ordered, one entry per key. *)
Definition registry : Type := list (string * process_info).

(** [d[k] = v]: an existing key keeps its place and takes the new value, a
    new key goes last. *)
Fixpoint dict_set (d : registry) (k : string) (v : process_info) : registry :=
  match d with
  | [] => [(k, v)]
  | (k', v') :: r =>
      if String.eqb k' k then (k', v) :: r else (k', v') :: dict_set r k v
  end.

Fixpoint dict_get (d : registry) (k : string) : option process_info :=
  match d with
  | [] => None
  | (k', v') :: r => if String.eqb k' k then Some v' else dict_get r k
  end.

Definition handles (d : registry) : list handle := map (fun kv => process (snd kv)) d.

(** ** The platform *)

(** A call the script makes into the platform, with the answer it got. *)
Inductive event : Type :=
| Spawn (command : list string) (a : answer handle)
| StartThread (h : handle) (fd : stream) (a : answer unit)
| Terminate (h : handle) (a : answer unit)
| Sleep (a : answer unit)
| Poll (h : handle) (a : answer (option Z))
| Kill (h : handle) (a : answer unit)
| Wait (a : answer unit)
| Input (prompt : string) (a : answer string).

Record persona : Type := { prompt : string }.

(** The namespace [parser.parse_args()] returns (lines 130-143). *)
Record Args : Type := {
  arg_persona : option string;
  arg_port : Z;
  arg_meeting_url : option string
}.

(** What the script is started with: the arguments of the command line
    ([sys.argv[1:]]) and the environment ([os.environ]). *)
Record Invocation : Type := {
  sys_argv : list string;
  os_environ : list (string * string)
}.

(** [os.getenv(key)]: [None] when the variable is not set. *)
Definition os_getenv (inv : Invocation) (key : string) : option string :=
  option_map snd (find (fun kv => String.eqb (fst kv) key) (os_environ inv)).

(** Everything outside the script, over a state [W] of the outside world.
    Each operation may raise; [py_int] and [parse_args] depend on their
    arguments only.  [asyncio_sleep] and [Event_wait] suspend the
    running coroutine; the boolean of [asyncio_sleep] says that the event
    loop ran a signal handler during the suspension. *)
Class Platform (W : Type) : Type := {
  (* subprocess.Popen(command, stdout=PIPE, stderr=PIPE, text=True, ...) *)
  Popen : list string -> W -> answer handle * W;
  (* threading.Thread(target=log_output, args=(stream, name), daemon=True).start() *)
  Thread_start : handle -> stream -> W -> answer unit * W;
  (* process.terminate(), process.poll(), process.kill() *)
  terminate : handle -> W -> answer unit * W;
  poll : handle -> W -> answer (option Z) * W;
  kill : handle -> W -> answer unit * W;
  (* await asyncio.sleep(1) *)
  asyncio_sleep : W -> (bool * answer unit) * W;
  (* await self.shutdown_event.wait(), on an event that is not set: it
     returns once a signal handler has set the event *)
  Event_wait : W -> answer unit * W;
  (* input(prompt) *)
  input : string -> W -> answer string * W;
  (* int(s), for a string s *)
  py_int : string -> answer Z;
  (* parser.parse_args(), for the parser of lines 127-142 whose --port
     defaults to the given number, on the arguments of the command line *)
  parse_args : Z -> list string -> answer Args;
  (* PersonaManager().list_personas(), PersonaManager().get_persona(name) *)
  list_personas : W -> answer (list string) * W;
  get_persona : string -> W -> answer persona * W;
  (* the draw behind random.choice(seq): an index for a sequence of length n *)
  randbelow : nat -> W -> nat * W;
  (* "".join(traceback.format_exception(type(e), e, e.__traceback__)) *)
  format_exception : exn -> string;
  (* sys.platform == "win32" *)
  win32 : bool
}.

(** ** The state of a run *)

(** The fields of [BotManager] ([start_time] is written once and never read),
    the logger's output, the calls made so far, whether [main] installed the
    signal handlers, and the outside world.  [event_writes] is the history
    of the shutdown event: the value of every write to it so far, [true]
    for a [set()], in order. *)
Record state (W : Type) : Type := mk_state {
  processes : registry;
  shutdown_event : bool;
  selected_persona_name : option string;
  signal_handlers : bool;
  log : list log_entry;
  calls : list event;
  event_writes : list bool;
  world : W
}.
Arguments mk_state {W}.

(** [BotManager()] *)
Definition BotManager {W} (w : W) : state W :=
  mk_state [] false None false [] [] [] w.

(** Truth value of an optional string: [None] and [""] are false. *)
Definition truthy (o : option string) : bool :=
  match o with
  | Some s => negb (PyStr.is_empty s)
  | None => false
  end.

(** The string of an optional argument that is present. *)
Definition value (o : option string) : string :=
  match o with Some s => s | None => EmptyString end.

(** [x in seq] for a list of strings. *)
Definition py_in (x : string) (l : list string) : bool :=
  existsb (String.eqb x) l.

(** ** The monad *)

Definition M (W A : Type) : Type := state W -> result A * state W.

Definition ret {W A} (a : A) : M W A := fun s => (Ok a, s).

Definition bind {W A B} (m : M W A) (k : A -> M W B) : M W B :=
  fun s =>
    match m s with
    | (Ok a, s') => k a s'
    | (Raise e, s') => (Raise e, s')
    | (OutOfFuel, s') => (OutOfFuel, s')
    end.

Definition raise {W A} (e : exn) : M W A := fun s => (Raise e, s).

Definition out_of_fuel {W A} : M W A := fun s => (OutOfFuel, s).

Declare Scope py_scope.
Delimit Scope py_scope with py.
Notation "x <- m ;; k" := (bind m (fun x => k))
  (at level 61, m at next level, right associativity) : py_scope.
Notation "m ;; k" := (bind m (fun _ => k))
  (at level 61, right associativity) : py_scope.
Open Scope py_scope.

(** [try: body except C1 as e: h1 e except C2 as e: h2 e ...]: the first
    clause whose class matches handles the exception. *)
Fixpoint dispatch {W A} (clauses : list ((exn -> bool) * (exn -> M W A))) (e : exn)
  : M W A :=
  match clauses with
  | [] => raise e
  | (matches, handler) :: rest =>
      if matches e then handler e else dispatch rest e
  end.

Definition try_except {W A} (body : M W A)
    (clauses : list ((exn -> bool) * (exn -> M W A))) : M W A :=
  fun s =>
    match body s with
    | (Raise e, s') => dispatch clauses e s'
    | r => r
    end.

(** [try: body finally: fin]. *)
Definition try_finally {W A} (body : M W A) (fin : M W unit) : M W A :=
  fun s =>
    match body s with
    | (OutOfFuel, s') => (OutOfFuel, s')
    | (r, s') =>
        match fin s' with
        | (Ok _, s'') => (r, s'')
        | (Raise e, s'') => (Raise e, s'')
        | (OutOfFuel, s'') => (OutOfFuel, s'')
        end
    end.

(** [for x in l: body x] *)
Fixpoint for_each {W A} (l : list A) (body : A -> M W unit) : M W unit :=
  match l with
  | [] => ret tt
  | x :: r => body x ;; for_each r body
  end.

(** *** State access *)

Definition set_processes {W} (d : registry) (s : state W) : state W :=
  mk_state d (shutdown_event s) (selected_persona_name s) (signal_handlers s)
    (log s) (calls s) (event_writes s) (world s).

(** A write to the shutdown event ([set()] for [true]): the event takes the
    value, and the write goes into the history. *)
Definition set_shutdown_event {W} (b : bool) (s : state W) : state W :=
  mk_state (processes s) b (selected_persona_name s) (signal_handlers s)
    (log s) (calls s) (event_writes s ++ [b]) (world s).

Definition set_selected_persona_name {W} (n : option string) (s : state W) : state W :=
  mk_state (processes s) (shutdown_event s) n (signal_handlers s)
    (log s) (calls s) (event_writes s) (world s).

Definition set_signal_handlers {W} (b : bool) (s : state W) : state W :=
  mk_state (processes s) (shutdown_event s) (selected_persona_name s) b
    (log s) (calls s) (event_writes s) (world s).

Definition add_log {W} (l : log_entry) (s : state W) : state W :=
  mk_state (processes s) (shutdown_event s) (selected_persona_name s)
    (signal_handlers s) (log s ++ [l]) (calls s) (event_writes s) (world s).

(** The platform answered a call: the call is recorded, the world moves on. *)
Definition answered {W} (ev : event) (w : W) (s : state W) : state W :=
  mk_state (processes s) (shutdown_event s) (selected_persona_name s)
    (signal_handlers s) (log s) (calls s ++ [ev]) (event_writes s) w.

(** [logger.info], [logger.success], [logger.warning], [logger.error]. *)
Definition logger {W} (sev : severity) (msg : string) : M W unit :=
  fun s => (Ok tt, add_log (sev, msg) s).

(** [signal_handler] of [main] (lines 247-248): it sets the event and does
    nothing else. *)
Definition signal_handler {W} (s : state W) : state W :=
  set_shutdown_event true s.

(** A call into the platform. *)
Definition perform {W A} (op : W -> answer A * W) (ev : answer A -> event) : M W A :=
  fun s => let (a, w) := op (world s) in (lift a, answered (ev a) w s).

(** ** The script *)

(** [validate_url] (lines 23-27). *)
Definition validate_url {W} (url : string) : M W string :=
  if negb (PyStr.startswith url "https://")
  then raise (Exception_ ValueError "URL must start with https://")
  else ret url.

(** One line of [log_output] (lines 63-72). *)
Definition log_line (prefix line : string) : list log_entry :=
  let line := PyStr.strip line in
  if negb (PyStr.is_empty line) then
    if PyStr.contains "ERROR" line then [(ERROR, prefix ++ ": " ++ line)]
    else if PyStr.contains "WARNING" line then [(WARNING, prefix ++ ": " ++ line)]
    else if PyStr.contains "SUCCESS" line then [(SUCCESS, prefix ++ ": " ++ line)]
    else [(INFO, prefix ++ ": " ++ line)]
  else [].

(** [log_output] (lines 61-72), the body of the two relay threads of a
    process: the entries it sends to the logger for the lines of its stream.
    The threads run beside the supervisor, so their entries are kept apart
    from the supervisor's own [log]. *)
Fixpoint log_output (stream : list string) (prefix : string) : list log_entry :=
  match stream with
  | [] => []
  | line :: rest => log_line prefix line ++ log_output rest prefix
  end.

Section Script.

Context {W : Type} {platform : Platform W}.

(** *** Calls into the platform *)

Definition subprocess_Popen (command : list string) : M W handle :=
  perform (Popen command) (Spawn command).

Definition start_relay (h : handle) (fd : stream) : M W unit :=
  perform (Thread_start h fd) (StartThread h fd).

Definition process_terminate (h : handle) : M W unit :=
  perform (terminate h) (Terminate h).

Definition process_poll (h : handle) : M W (option Z) :=
  perform (poll h) (Poll h).

Definition process_kill (h : handle) : M W unit :=
  perform (kill h) (Kill h).

Definition py_input (prompt : string) : M W string :=
  perform (input prompt) (Input prompt).

(** [await asyncio.sleep(1)]: while the coroutine is suspended the event loop
    may run [signal_handler], when [main] installed it. *)
Definition sleep_1 : M W unit :=
  fun s =>
    let '(signalled, a, w) := asyncio_sleep (world s) in
    let s' := answered (Sleep a) w s in
    (lift a, if signalled && signal_handlers s' then signal_handler s' else s').

(** [await self.shutdown_event.wait()]: at once when the event is set; else
    the coroutine is suspended until a signal handler sets it, or the wait
    raises. *)
Definition shutdown_event_wait : M W unit :=
  fun s =>
    if shutdown_event s then (Ok tt, s)
    else
      let (a, w) := Event_wait (world s) in
      let s' := answered (Wait a) w s in
      (lift a, match a with Returned _ => signal_handler s' | Raised _ => s' end).

(** [random.choice(seq)] *)
Definition random_choice (seq : list string) : M W string :=
  fun s =>
    match seq with
    | [] => (Raise (Exception_ IndexError "Cannot choose from an empty sequence"), s)
    | _ :: _ =>
        let (i, w) := randbelow (length seq) (world s) in
        (Ok (nth (i mod length seq) seq ""),
         mk_state (processes s) (shutdown_event s) (selected_persona_name s)
           (signal_handlers s) (log s) (calls s) (event_writes s) w)
    end.

Definition call_list_personas : M W (list string) :=
  fun s =>
    let (a, w) := list_personas (world s) in
    (lift a, mk_state (processes s) (shutdown_event s) (selected_persona_name s)
               (signal_handlers s) (log s) (calls s) (event_writes s) w).

Definition call_get_persona (name : string) : M W persona :=
  fun s =>
    let (a, w) := get_persona name (world s) in
    (lift a, mk_state (processes s) (shutdown_event s) (selected_persona_name s)
               (signal_handlers s) (log s) (calls s) (event_writes s) w).

(** [self.processes.items()], as the loops read it when they start. *)
Definition self_processes : M W registry :=
  fun s => (Ok (processes s), s).

(** *** get_user_input (lines 30-39) *)

Fixpoint get_user_input (fuel : nat) (prompt : string)
    (validator : option (string -> M W string)) : M W string :=
  match fuel with
  | O => out_of_fuel
  | S fuel' =>
      raw <- py_input prompt ;;
      let user_input := PyStr.strip raw in
      match validator with
      | Some validate =>
          r <- try_except
                 (v <- validate user_input ;; ret (Some v))
                 [(is_ValueError,
                   fun e =>
                     logger WARNING ("Invalid input received: " ++ str e) ;;
                     ret None)] ;;
          match r with
          | Some v => ret v
          | None => get_user_input fuel' prompt validator
          end
      | None => ret user_input
      end
  end.

(** *** BotManager.run_command (lines 49-88) *)

Definition register (name : string) (info : process_info) : M W unit :=
  fun s => (Ok tt, set_processes (dict_set (processes s) name info) s).

Definition run_command (command : list string) (name : string) : M W (option handle) :=
  try_except
    (process <- subprocess_Popen command ;;
     start_relay process stdout ;;
     start_relay process stderr ;;
     register name {| process := process; command := command |} ;;
     ret (Some process))
    [(is_Exception,
      fun e =>
        logger ERROR ("Failed to start " ++ name ++ ": " ++ str e) ;;
        logger ERROR (format_exception e) ;;
        ret None)].

(** *** BotManager.cleanup (lines 90-107) *)

(** The body of the loop (lines 94-103). *)
Definition cleanup_one (entry : string * process_info) : M W unit :=
  let (name, process_info) := entry in
  logger INFO ("Terminating process: " ++ name) ;;
  let process := process process_info in
  try_except
    (process_terminate process ;;
     sleep_1 ;;
     returncode <- process_poll process ;;
     match returncode with
     | None => process_kill process
     | Some _ => ret tt
     end ;;
     logger SUCCESS ("Process " ++ name ++ " terminated successfully"))
    [(is_Exception,
      fun e => logger ERROR ("Error terminating process " ++ name ++ ": " ++ str e))].

Definition cleanup : M W unit :=
  try_except
    (items <- self_processes ;;
     for_each items cleanup_one ;;
     logger SUCCESS "Cleanup completed successfully")
    [(is_Exception,
      fun e => logger ERROR ("Error during cleanup: " ++ str e))].

(** *** BotManager.monitor_processes (lines 109-124) *)

(** One entry of the sweep (lines 114-118); [process.returncode] is what
    [poll()] has just returned. *)
Definition sweep_one (entry : string * process_info) : M W unit :=
  let (name, process_info) := entry in
  returncode <- process_poll (process process_info) ;;
  match returncode with
  | Some code =>
      logger WARNING ("Process " ++ name ++ " exited with code: " ++ PyStr.str_int code)
  | None => ret tt
  end.

(** The [try] body of one iteration (lines 113-119). *)
Definition sweep : M W unit :=
  items <- self_processes ;;
  for_each items sweep_one ;;
  sleep_1.

(** What an iteration of the loop decides. *)
Inductive flow : Type := Continue | Break.

(** One iteration with its [except] clauses (lines 112-124). *)
Definition monitor_iteration : M W flow :=
  try_except
    (sweep ;; ret Continue)
    [(is_CancelledError, fun _ => ret Break);
     (is_Exception,
      fun e =>
        logger ERROR ("Error monitoring processes: " ++ str e) ;;
        sleep_1 ;;
        ret Continue)].

Fixpoint monitor_processes (fuel : nat) : M W unit :=
  fun s =>
    if shutdown_event s then (Ok tt, s)
    else
      match fuel with
      | O => (OutOfFuel, s)
      | S fuel' =>
          (f <- monitor_iteration ;;
           match f with
           | Continue => monitor_processes fuel'
           | Break => ret tt
           end) s
      end.

(** *** BotManager.async_main (lines 126-235) *)

(** Lines 145-149: [if not meeting_url] holds for [None] and for [""]. *)
Definition resolve_meeting_url (fuel : nat) (args : Args) : M W string :=
  let meeting_url := arg_meeting_url args in
  if negb (truthy meeting_url) then
    get_user_input fuel "Enter the meeting URL (must start with https://): "
      (Some validate_url)
  else ret (value meeting_url).

(** Lines 155-162: [if args.persona] fails for [None] and for [""].  The
    name is stored in [self.selected_persona_name] and read back from there. *)
Definition select_persona (args : Args) : M W string :=
  available_personas <- call_list_personas ;;
  name <- (if truthy (arg_persona args) then
             if negb (py_in (value (arg_persona args)) available_personas) then
               raise (Exception_ ValueError
                        ("Persona '" ++ value (arg_persona args)
                         ++ "' not found in available personas"))
             else ret (value (arg_persona args))
           else random_choice available_personas) ;;
  fun s => (Ok name, set_selected_persona_name (Some name) s).

Definition bot_command (bot_port : Z) (bot_prompt name : string) : list string :=
  ["poetry"; "run"; "bot"; "-p"; PyStr.str_int bot_port;
   "--system-prompt"; bot_prompt;
   "--persona-name"; name;
   "--voice-id"; "40104aff-a015-4da1-9912-af950fbec99e"].

Definition meeting_command (meeting_url name : string) : list string :=
  ["poetry"; "run"; "meetingbaas";
   "--meeting-url"; meeting_url;
   "--persona-name"; name].

Definition newline : string := String (ascii_of_nat 10) "".

(** Lines 218-227, with [self.shutdown_event.set(); await monitor_task] in
    the [finally].  asyncio runs one task at a time and the main flow is
    suspended in [shutdown_event.wait()] for as long as the monitor task
    runs, so the task's steps come first; its outcome is delivered at
    [await monitor_task]. *)
Definition run_until_shutdown (fuel : nat) : M W unit :=
  fun s =>
    match monitor_processes fuel s with
    | (OutOfFuel, s1) => (OutOfFuel, s1)
    | (monitor_task, s1) =>
        try_finally
          (try_except shutdown_event_wait
             [(is_CancelledError,
               fun _ => logger INFO (newline ++ "Received shutdown signal"))])
          (fun s2 => (monitor_task, set_shutdown_event true s2))
          s1
    end.

(** The [try] body (lines 152-227). *)
Definition session (fuel : nat) (args : Args) (meeting_url : string) : M W unit :=
  logger INFO "Starting bot with random persona selection..." ;;
  name <- select_persona args ;;
  persona <- call_get_persona name ;;
  let bot_prompt := prompt persona in
  logger WARNING ("Selected persona: " ++ name) ;;
  logger WARNING ("System prompt: " ++ bot_prompt) ;;
  bot_process <- run_command (bot_command (arg_port args) bot_prompt name) "bot" ;;
  match bot_process with
  | None => logger ERROR "Failed to start bot"
  | Some _ =>
      sleep_1 ;;
      meeting_process <- run_command (meeting_command meeting_url name) "meeting" ;;
      match meeting_process with
      | None => logger ERROR "Failed to start meeting"
      | Some _ =>
          logger SUCCESS "Successfully started bot and meeting processes" ;;
          logger INFO "Press Ctrl+C to stop all processes" ;;
          run_until_shutdown fuel
      end
  end.

(** The [try] statement (lines 151-235): the session, its two [except]
    clauses, and cleanup in the [finally]. *)
Definition try_session (fuel : nat) (args : Args) (meeting_url : string) : M W unit :=
  try_finally
    (try_except (session fuel args meeting_url)
       [(is_KeyboardInterrupt,
         fun _ => logger INFO (newline ++ "Received shutdown signal (Ctrl+C)"));
        (is_Exception,
         fun e => logger ERROR ("Unexpected error: " ++ str e))])
    (cleanup ;;
     logger SUCCESS "Cleanup completed successfully").

(** Lines 127-143: the parser is built and applied to the command line.
    The default of [--port] is computed first, while the parser is built:
    [os.getenv("PORT", 8765)] is the number 8765 when the variable is not
    set, which [int] returns as it is, and the string of the variable
    otherwise.  Nothing of the run's state is touched. *)
Definition command_line (inv : Invocation) : answer Args :=
  match (match os_getenv inv "PORT" with
         | None => Returned 8765%Z
         | Some v => py_int v
         end) with
  | Returned default_port => parse_args default_port (sys_argv inv)
  | Raised e => Raised e
  end.

Definition parser_parse_args (inv : Invocation) : M W Args :=
  fun s => (lift (command_line inv), s).

(** Lines 145-235: [async_main] from the parsed arguments on. *)
Definition async_main_with (fuel : nat) (args : Args) : M W unit :=
  meeting_url <- resolve_meeting_url fuel args ;;
  try_session fuel args meeting_url.

Definition async_main (fuel : nat) (inv : Invocation) : M W unit :=
  args <- parser_parse_args inv ;;
  async_main_with fuel args.

(** *** BotManager.main (lines 237-262) *)

Definition install_signal_handlers : M W unit :=
  fun s => (Ok tt, set_signal_handlers true s).

(** [sys.exit(1)] *)
Definition sys_exit (code : Z) : M W unit := raise (SystemExit code).

Definition main (fuel : nat) (inv : Invocation) : M W unit :=
  try_except
    (if negb win32 then
       install_signal_handlers ;;
       try_finally (async_main fuel inv) (ret tt)
     else
       async_main fuel inv)
    [(is_Exception,
      fun e =>
        logger ERROR ("Fatal error in main program: " ++ str e) ;;
        sys_exit 1)].

(** The exit status of the interpreter after [manager.main()]: 0 when the
    call returns, the code of a [SystemExit]; a run the model cuts short and
    any other escaping exception get none here. *)
Definition exit_code (r : result unit) : option Z :=
  match r with
  | Ok _ => Some 0%Z
  | Raise (SystemExit code) => Some code
  | _ => None
  end.

End Script.

(** ** A concrete platform

    A small deterministic outside world, used to run the script on concrete
    inputs.  A command's program is its third word ([poetry run <program>]). *)

Module Sim.

Record proc : Type := { proc_handle : handle; program : string; returncode : option Z }.

Record os : Type := {
  table : list proc;               (* the processes started so far *)
  missing : list string;           (* programs that cannot be started *)
  stubborn : list string;          (* programs that ignore SIGTERM *)
  unsignalable : list string;      (* programs whose terminate() raises *)
  stdin : list string;             (* the lines input() will read *)
  personas : list (string * string);
  draw : nat;                      (* the next random draw *)
  signal_in : option nat           (* suspensions left before SIGINT arrives *)
}.

Definition with_table (t : list proc) (w : os) : os :=
  {| table := t; missing := missing w; stubborn := stubborn w;
     unsignalable := unsignalable w; stdin := stdin w; personas := personas w;
     draw := draw w; signal_in := signal_in w |}.

Definition with_stdin (l : list string) (w : os) : os :=
  {| table := table w; missing := missing w; stubborn := stubborn w;
     unsignalable := unsignalable w; stdin := l; personas := personas w;
     draw := draw w; signal_in := signal_in w |}.

Definition with_signal_in (o : option nat) (w : os) : os :=
  {| table := table w; missing := missing w; stubborn := stubborn w;
     unsignalable := unsignalable w; stdin := stdin w; personas := personas w;
     draw := draw w; signal_in := o |}.

Definition find_proc (h : handle) (w : os) : option proc :=
  find (fun p => Nat.eqb (proc_handle p) h) (table w).

Definition set_returncode (h : handle) (code : Z) (w : os) : os :=
  with_table
    (map (fun p =>
            if Nat.eqb (proc_handle p) h
            then match returncode p with
                 | None => {| proc_handle := h; program := program p; returncode := Some code |}
                 | Some _ => p
                 end
            else p)
       (table w)) w.

Definition no_such_process : exn := Exception_ OSError "[Errno 3] No such process".

Definition sim_Popen (command : list string) (w : os) : answer handle * os :=
  let prog := nth 2 command "" in
  if py_in prog (missing w)
  then (Raised (Exception_ OSError "[Errno 2] No such file or directory: 'poetry'"), w)
  else
    let h := length (table w) in
    (Returned h,
     with_table (table w ++ [{| proc_handle := h; program := prog; returncode := None |}]) w).

Definition sim_terminate (h : handle) (w : os) : answer unit * os :=
  match find_proc h w with
  | None => (Raised no_such_process, w)
  | Some p =>
      if py_in (program p) (unsignalable w) then (Raised (Exception_ OSError "[Errno 1] Operation not permitted"), w)
      else if py_in (program p) (stubborn w) then (Returned tt, w)
      else (Returned tt, set_returncode h (-15) w)
  end.

Definition sim_poll (h : handle) (w : os) : answer (option Z) * os :=
  match find_proc h w with
  | None => (Raised no_such_process, w)
  | Some p => (Returned (returncode p), w)
  end.

Definition sim_kill (h : handle) (w : os) : answer unit * os :=
  match find_proc h w with
  | None => (Raised no_such_process, w)
  | Some p => (Returned tt, set_returncode h (-9) w)
  end.

Definition sim_sleep (w : os) : (bool * answer unit) * os :=
  match signal_in w with
  | Some O => ((true, Returned tt), with_signal_in None w)
  | Some (S n) => ((false, Returned tt), with_signal_in (Some n) w)
  | None => ((false, Returned tt), w)
  end.

Definition sim_wait (w : os) : answer unit * os :=
  (Returned tt, with_signal_in None w).

Definition sim_input (prompt : string) (w : os) : answer string * os :=
  match stdin w with
  | [] => (Raised (Exception_ EOFError "EOF when reading a line"), w)
  | l :: rest => (Returned l, with_stdin rest w)
  end.

Definition sim_get_persona (name : string) (w : os) : answer persona * os :=
  match find (fun kv => String.eqb (fst kv) name) (personas w) with
  | Some kv => (Returned {| prompt := snd kv |}, w)
  | None => (Raised (Exception_ KeyError name), w)
  end.

(** [int] on a string of decimal digits; anything else is refused. *)
Fixpoint digits (s : string) (acc : Z) : option Z :=
  match s with
  | EmptyString => Some acc
  | String c r =>
      let n := N_of_ascii c in
      if ((48 <=? n) && (n <=? 57))%N
      then digits r (10 * acc + Z.of_N (n - 48))%Z
      else None
  end.

Definition sim_int (s : string) : answer Z :=
  match s with
  | EmptyString =>
      Raised (Exception_ ValueError "invalid literal for int() with base 10: ''")
  | _ =>
      match digits s 0%Z with
      | Some n => Returned n
      | None =>
          Raised (Exception_ ValueError
                    ("invalid literal for int() with base 10: '" ++ s ++ "'"))
      end
  end.

(** The parser on options that each stand before their value; on anything
    else it exits with status 2, as after its usage message. *)
Fixpoint sim_parse (argv : list string) (acc : Args) : answer Args :=
  match argv with
  | [] => Returned acc
  | flag :: v :: rest =>
      if String.eqb flag "--persona" then
        sim_parse rest
          {| arg_persona := Some v; arg_port := arg_port acc;
             arg_meeting_url := arg_meeting_url acc |}
      else if String.eqb flag "--port" then
        match sim_int v with
        | Returned n =>
            sim_parse rest
              {| arg_persona := arg_persona acc; arg_port := n;
                 arg_meeting_url := arg_meeting_url acc |}
        | Raised _ => Raised (SystemExit 2)
        end
      else if String.eqb flag "--meeting-url" then
        sim_parse rest
          {| arg_persona := arg_persona acc; arg_port := arg_port acc;
             arg_meeting_url := Some v |}
      else Raised (SystemExit 2)
  | _ :: [] => Raised (SystemExit 2)
  end.

Definition sim_parse_args (default_port : Z) (argv : list string) : answer Args :=
  sim_parse argv
    {| arg_persona := None; arg_port := default_port; arg_meeting_url := None |}.

#[global] Instance platform : Platform os := {|
  Popen := sim_Popen;
  Thread_start := fun _ _ w => (Returned tt, w);
  terminate := sim_terminate;
  poll := sim_poll;
  kill := sim_kill;
  asyncio_sleep := sim_sleep;
  Event_wait := sim_wait;
  input := sim_input;
  py_int := sim_int;
  parse_args := sim_parse_args;
  list_personas := fun w => (Returned (map fst (personas w)), w);
  get_persona := sim_get_persona;
  randbelow := fun _ w => (draw w, w);
  format_exception := fun e => "Traceback (most recent call last): " ++ str e;
  win32 := false
|}.

(** A world with the personas alpha and beta, where every program starts and
    exits on SIGTERM, and SIGINT arrives during the third suspension. *)
Definition fresh : os :=
  {| table := []; missing := []; stubborn := []; unsignalable := [];
     stdin := []; personas := [("alpha", "You are Alpha."); ("beta", "You are Beta.")];
     draw := 0; signal_in := Some 2 |}.

Definition with_missing (l : list string) (w : os) : os :=
  {| table := table w; missing := l; stubborn := stubborn w;
     unsignalable := unsignalable w; stdin := stdin w; personas := personas w;
     draw := draw w; signal_in := signal_in w |}.

Definition with_stubborn (l : list string) (w : os) : os :=
  {| table := table w; missing := missing w; stubborn := l;
     unsignalable := unsignalable w; stdin := stdin w; personas := personas w;
     draw := draw w; signal_in := signal_in w |}.

Definition with_unsignalable (l : list string) (w : os) : os :=
  {| table := table w; missing := missing w; stubborn := stubborn w;
     unsignalable := l; stdin := stdin w; personas := personas w;
     draw := draw w; signal_in := signal_in w |}.


Definition args (p u : option string) : Args :=
  {| arg_persona := p; arg_port := 8765; arg_meeting_url := u |}.

(** The command line that gives these arguments, in an environment without
    [PORT]. *)
Definition invocation (p u : option string) : Invocation :=
  {| sys_argv :=
       (match p with Some v => ["--persona"; v] | None => [] end) ++
       (match u with Some v => ["--meeting-url"; v] | None => [] end);
     os_environ := [] |}.

(** The state after [run_command] has started a bot and a meeting. *)
Definition started (w : os) : state os :=
  snd ((run_command ["poetry"; "run"; "bot"] "bot" ;;
        run_command ["poetry"; "run"; "meetingbaas"] "meeting") (BotManager w)).

(** The same, once the bot has exited on its own with code 1. *)
Definition bot_exited : state os :=
  let s := started fresh in
  mk_state (processes s) false None true [] [] [] (set_returncode 0 1 (world s)).

(** The state after a process was started, when the name "bot" is
    registered a second time. *)
Definition restarted (w : os) : state os :=
  snd (run_command ["poetry"; "run"; "bot"] "bot" (BotManager w)).

(** A registry entry whose process the platform does not know: [poll()]
    raises on it. *)
Definition ghost : state os :=
  mk_state [("ghost", {| process := 7; command := ["ghost"] |})]
    false None true [] [] [] fresh.

End Sim.

(** ** Vocabulary of the statements *)

(** The exception a call ended with, if it raised. *)
Definition raised (ev : event) : option exn :=
  match ev with
  | Spawn _ (Raised e) | StartThread _ _ (Raised e) | Terminate _ (Raised e)
  | Sleep (Raised e) | Poll _ (Raised e) | Kill _ (Raised e)
  | Wait (Raised e) | Input _ (Raised e) => Some e
  | _ => None
  end.

(** A call that returned, or raised an error (an instance of [Exception]). *)
Definition error_or_return (ev : event) : Prop :=
  forall e, raised ev = Some e -> is_Exception e = true.

(** The [terminate()] requests among some calls, in order, each with its
    answer. *)
Fixpoint terminations (evs : list event) : list (handle * answer unit) :=
  match evs with
  | [] => []
  | Terminate h a :: r => (h, a) :: terminations r
  | _ :: r => terminations r
  end.

(** The [kill()] requests among some calls. *)
Fixpoint kills (evs : list event) : list handle :=
  match evs with
  | [] => []
  | Kill h _ :: r => h :: kills r
  | _ :: r => kills r
  end.

(** The commands handed to [Popen] among some calls. *)
Fixpoint spawns (evs : list event) : list (list string) :=
  match evs with
  | [] => []
  | Spawn c _ :: r => c :: spawns r
  | _ :: r => spawns r
  end.

(** The processes a [poll()] found still running, among some calls. *)
Fixpoint still_running (evs : list event) : list handle :=
  match evs with
  | [] => []
  | Poll h (Returned None) :: r => h :: still_running r
  | _ :: r => still_running r
  end.

(** The two log entries of a teardown that went well, for every entry of a
    registry. *)
Definition success_entries (reg : registry) : list log_entry :=
  flat_map
    (fun entry : string * process_info =>
       [(INFO, "Terminating process: " ++ fst entry);
        (SUCCESS, "Process " ++ fst entry ++ " terminated successfully")])
    reg.

(** A result that is not a raised error: the call returned, or an exception
    outside [Exception] went through it. *)
Definition no_error {A} (r : result A) : Prop :=
  match r with
  | Ok _ => True
  | Raise e => is_Exception e = false
  | OutOfFuel => False
  end.

(** The platform raises nothing but errors from the calls [cleanup] and the
    sweep make: no cancellation, interrupt or exit is delivered there. *)
Definition raises_errors_only {W} {platform : Platform W} : Prop :=
  (forall h w a w', terminate h w = (a, w') -> error_or_return (Terminate h a)) /\
  (forall h w a w', poll h w = (a, w') -> error_or_return (Poll h a)) /\
  (forall h w a w', kill h w = (a, w') -> error_or_return (Kill h a)) /\
  (forall w b a w', asyncio_sleep w = (b, a, w') -> error_or_return (Sleep a)).
Arguments raises_errors_only {W} platform.

(** *** The teardown of cleanup, as the specification words it

    For one process: request graceful termination, wait one second, look
    whether the process is still running, and force-kill it if and only if
    it is.  [attempt h evs oe]: the calls [evs] are such a teardown of the
    process [h], cut short by the exception [oe] when a call raised. *)
Inductive attempt (h : handle) : list event -> option exn -> Prop :=
| attempt_exited (code : Z) :
    attempt h [Terminate h (Returned tt); Sleep (Returned tt);
               Poll h (Returned (Some code))] None
| attempt_killed :
    attempt h [Terminate h (Returned tt); Sleep (Returned tt);
               Poll h (Returned None); Kill h (Returned tt)] None
| attempt_terminate_raised (e : exn) :
    attempt h [Terminate h (Raised e)] (Some e)
| attempt_sleep_raised (e : exn) :
    attempt h [Terminate h (Returned tt); Sleep (Raised e)] (Some e)
| attempt_poll_raised (e : exn) :
    attempt h [Terminate h (Returned tt); Sleep (Returned tt);
               Poll h (Raised e)] (Some e)
| attempt_kill_raised (e : exn) :
    attempt h [Terminate h (Returned tt); Sleep (Returned tt);
               Poll h (Returned None); Kill h (Raised e)] (Some e).

(** For every registered process, in registry order, one teardown and its
    two log entries: the announcement, then success or the error.  An
    exception outside [Exception] ends the whole teardown. *)
Inductive teardown : registry -> list event -> list log_entry -> result unit -> Prop :=
| teardown_done :
    teardown [] [] [] (Ok tt)
| teardown_success name info rest evs evs' logs r :
    attempt (process info) evs None ->
    teardown rest evs' logs r ->
    teardown ((name, info) :: rest) (evs ++ evs')
      ((INFO, "Terminating process: " ++ name)
       :: (SUCCESS, "Process " ++ name ++ " terminated successfully") :: logs) r
| teardown_failure name info rest evs e evs' logs r :
    attempt (process info) evs (Some e) ->
    is_Exception e = true ->
    teardown rest evs' logs r ->
    teardown ((name, info) :: rest) (evs ++ evs')
      ((INFO, "Terminating process: " ++ name)
       :: (ERROR, "Error terminating process " ++ name ++ ": " ++ str e) :: logs) r
| teardown_interrupted name info rest evs e :
    attempt (process info) evs (Some e) ->
    is_Exception e = false ->
    teardown ((name, info) :: rest) evs
      [(INFO, "Terminating process: " ++ name)] (Raise e).

(** The warnings of one sweep over the registry, from the answers [poll()]
    gave: one for each process that has exited, none for the others. *)
Fixpoint exit_warnings (reg : registry) (codes : list (option Z)) : list log_entry :=
  match reg, codes with
  | (name, _) :: reg', Some code :: codes' =>
      (WARNING, "Process " ++ name ++ " exited with code: " ++ PyStr.str_int code)
      :: exit_warnings reg' codes'
  | _ :: reg', None :: codes' => exit_warnings reg' codes'
  | _, _ => []
  end.

(** The calls of one sweep over the registry: one [poll()] per process, in
    registry order. *)
Fixpoint polls (reg : registry) (codes : list (option Z)) : list event :=
  match reg, codes with
  | (_, info) :: reg', code :: codes' =>
      Poll (process info) (Returned code) :: polls reg' codes'
  | _, _ => []
  end.

(** *** Relations between the state before and after a step *)

(** Every run of [m] relates the state before it to the state after it. *)
Definition keeps {W A} (R : state W -> state W -> Prop) (m : M W A) : Prop :=
  forall s, R s (snd (m s)).

(** Every answer of [Popen] to the command [c] gives an allowed call. *)
Definition allowed_Spawn {W} {platform : Platform W} (allowed : event -> Prop)
    (c : list string) : Prop :=
  forall w a w', Popen c w = (a, w') -> allowed (Spawn c a).

(** Once set, the shutdown event is still set afterwards. *)
Definition flag_stays {W} (s s' : state W) : Prop :=
  shutdown_event s = true -> shutdown_event s' = true.

(** The history of the shutdown event over a step: every write the step
    made set the event, none cleared it, and the event is set afterwards
    exactly when it was set before or the step wrote to it. *)
Definition only_set {W} (s s' : state W) : Prop :=
  exists writes,
    event_writes s' = app (event_writes s) writes /\
    Forall (fun b => b = true) writes /\
    shutdown_event s' = (shutdown_event s || existsb (fun b => b) writes).

(** The registry is the same afterwards. *)
Definition same_registry {W} (s s' : state W) : Prop :=
  processes s' = processes s.

(** The calls made by the step all satisfy [P]. *)
Definition calls_grow_by {W} (P : event -> Prop) (s s' : state W) : Prop :=
  exists evs, calls s' = app (calls s) evs /\ Forall P evs.

(** The step logs only entries that satisfy [P]. *)
Definition log_grows_by {W} (P : log_entry -> Prop) (s s' : state W) : Prop :=
  exists logs, log s' = app (log s) logs /\ Forall P logs.

(** A call that is not a spawn. *)
Definition not_Spawn (ev : event) : Prop :=
  match ev with Spawn _ _ => False | _ => True end.


(** A call that is a [poll()] or a sleep. *)
Definition is_Poll_or_Sleep (ev : event) : Prop :=
  match ev with Poll _ _ | Sleep _ => True | _ => False end.

(** What the monitor logs: the warning for a registered process that has
    exited, with its name and exit code, or the error of an iteration. *)
Definition monitor_entry (reg : registry) (l : log_entry) : Prop :=
  (exists name code,
     In name (map fst reg) /\
     l = (WARNING, "Process " ++ name ++ " exited with code: " ++ PyStr.str_int code))
  \/ (exists e, l = (ERROR, "Error monitoring processes: " ++ str e)).

(** A call that is a read from standard input. *)
Definition is_Input (ev : event) : Prop :=
  match ev with Input _ _ => True | _ => False end.

(** A call that is not a spawn of the bot that raised. *)
Definition not_failed_bot_spawn (ev : event) : Prop :=
  forall port bot_prompt name e, ev <> Spawn (bot_command port bot_prompt name) (Raised e).

(** The step makes no call and leaves the registry as it is. *)
Definition quiet {W} (s s' : state W) : Prop :=
  calls s' = calls s /\ processes s' = processes s.

(** How the [try] body of the session can end, seen from the calls: nothing
    was spawned; or the spawn of the bot raised and that was the only call;
    or the bot was spawned and no later call is a failed spawn of the bot. *)
Definition session_outcome {W} (s : state W) (rs : result unit * state W) : Prop :=
  quiet s (snd rs)
  \/ (exists port bot_prompt name e,
        calls (snd rs) = app (calls s) [Spawn (bot_command port bot_prompt name) (Raised e)] /\
        processes (snd rs) = processes s /\
        (is_Exception e = true ->
         fst rs = Ok tt /\
         exists l, log (snd rs) = app l [(ERROR, "Failed to start bot")]))
  \/ (exists port bot_prompt name h rest,
        calls (snd rs) =
          app (calls s) (Spawn (bot_command port bot_prompt name) (Returned h) :: rest) /\
        Forall not_failed_bot_spawn rest).

(** How a run can end, seen from the calls: no spawn of the bot raised; or
    the spawn of the bot raised, it was the last call, only reads of the
    standard input came before it, and the registry is empty; when what the
    spawn raised is an error, the run returned after logging the failure and
    the two entries that close cleanup. *)
Definition startup_outcome {W} (s : state W) (rs : result unit * state W) : Prop :=
  calls_grow_by not_failed_bot_spawn s (snd rs)
  \/ (exists inputs port bot_prompt name e,
        Forall is_Input inputs /\
        calls (snd rs) =
          app (calls s)
            (app inputs [Spawn (bot_command port bot_prompt name) (Raised e)]) /\
        processes (snd rs) = [] /\
        (is_Exception e = true ->
         fst rs = Ok tt /\
         exists l,
           log (snd rs) =
             app l
               [(ERROR, "Failed to start bot");
                (SUCCESS, "Cleanup completed successfully");
                (SUCCESS, "Cleanup completed successfully")])).

(** *** More vocabulary: the prompt, the session, the whole run *)

(** The prompt of [async_main] for the meeting URL (line 148). *)
Definition url_prompt : string := "Enter the meeting URL (must start with https://): ".

(** The warning [get_user_input] logs for an input [validate_url] rejects. *)
Definition invalid_url_warning : log_entry :=
  (WARNING, "Invalid input received: URL must start with https://").

(** The entry that closes [cleanup] (line 105) and the [finally] of
    [async_main] (line 235). *)
Definition cleanup_completed : log_entry :=
  (SUCCESS, "Cleanup completed successfully").

(** A call that is not a request to terminate. *)
Definition not_Terminate (ev : event) : Prop :=
  match ev with Terminate _ _ => False | _ => True end.

(** A call that is the start of a relay thread. *)
Definition is_StartThread (ev : event) : Prop :=
  match ev with StartThread _ _ _ => True | _ => False end.

(** The selected persona is the same afterwards. *)
Definition same_persona {W} (s s' : state W) : Prop :=
  selected_persona_name s' = selected_persona_name s.

(** The state in which [main] runs [async_main]: with the signal handlers
    installed, except on win32. *)
Definition entered {W} {platform : Platform W} (s : state W) : state W :=
  if win32 then s else set_signal_handlers true s.

(** What the session logs for an exception one of its two [except] clauses
    handles (lines 229-232). *)
Definition handled_entry (e : exn) : log_entry :=
  if is_KeyboardInterrupt e
  then (INFO, newline ++ "Received shutdown signal (Ctrl+C)")
  else (ERROR, "Unexpected error: " ++ str e).

(** The [finally] of the session (lines 233-235), entered with the result
    [r] of what came before: the result stands unless the [finally] itself
    does not return. *)
Definition session_finally {W} {platform : Platform W} (r : result unit) : M W unit :=
  fun s =>
    match (cleanup ;; logger SUCCESS "Cleanup completed successfully") s with
    | (Ok _, s') => (r, s')
    | (Raise e, s') => (Raise e, s')
    | (OutOfFuel, s') => (OutOfFuel, s')
    end.

(** The step spawns nothing and leaves the registry and the selected
    persona as they are. *)
Definition calm {W} (s s' : state W) : Prop :=
  calls_grow_by not_Spawn s s' /\
  processes s' = processes s /\
  selected_persona_name s' = selected_persona_name s.

(** The registry after a session: the one before, with "bot" and then
    "meeting" set for the processes that were started. *)
Definition registered (reg : registry) (bot_cmd meeting_cmd : list string)
    (bot meeting : option handle) : registry :=
  match bot with
  | None => reg
  | Some h =>
      let reg1 := dict_set reg "bot" {| process := h; command := bot_cmd |} in
      match meeting with
      | None => reg1
      | Some h' => dict_set reg1 "meeting" {| process := h'; command := meeting_cmd |}
      end
  end.

(** ** A hostile platform

    A second outside world, for the paths the first one never takes: the
    running task is cancelled at its first suspension once [sleeps] runs
    out, a relay thread cannot be started once [threads] runs out, there
    is no persona, and Ctrl+C answers every prompt.  The platform is
    win32. *)

Module Harsh.

Record os : Type := {
  sleeps : nat;           (* suspensions left before the task is cancelled *)
  threads : nat;          (* relay threads that can still be started *)
  spawned : nat;          (* processes started so far *)
  names : list string     (* the personas *)
}.

Definition no_thread : exn := Exception_ RuntimeError "can't start new thread".

Definition no_such_process : exn := Exception_ OSError "[Errno 3] No such process".

Definition harsh_Popen (command : list string) (w : os) : answer handle * os :=
  (Returned (spawned w),
   {| sleeps := sleeps w; threads := threads w; spawned := S (spawned w);
      names := names w |}).

Definition harsh_Thread_start (h : handle) (fd : stream) (w : os) : answer unit * os :=
  match threads w with
  | O => (Raised no_thread, w)
  | S n =>
      (Returned tt,
       {| sleeps := sleeps w; threads := n; spawned := spawned w; names := names w |})
  end.

Definition harsh_poll (h : handle) (w : os) : answer (option Z) * os :=
  if Nat.ltb h (spawned w) then (Returned None, w) else (Raised no_such_process, w).

Definition harsh_sleep (w : os) : (bool * answer unit) * os :=
  match sleeps w with
  | O => ((false, Raised CancelledError), w)
  | S n =>
      ((false, Returned tt),
       {| sleeps := n; threads := threads w; spawned := spawned w; names := names w |})
  end.

Definition platform : Platform os := {|
  Popen := harsh_Popen;
  Thread_start := harsh_Thread_start;
  terminate := fun _ w => (Returned tt, w);
  poll := harsh_poll;
  kill := fun _ w => (Returned tt, w);
  asyncio_sleep := harsh_sleep;
  Event_wait := fun w => (Raised CancelledError, w);
  input := fun _ w => (Raised KeyboardInterrupt, w);
  py_int := Sim.sim_int;
  parse_args := Sim.sim_parse_args;
  list_personas := fun w => (Returned (names w), w);
  get_persona := fun _ w => (Returned {| prompt := "Be brief." |}, w);
  randbelow := fun _ w => (O, w);
  format_exception := str;
  win32 := true
|}.

(** A world in which [s] suspensions return and [t] threads start. *)
Definition init (s t : nat) (l : list string) : os :=
  {| sleeps := s; threads := t; spawned := 0; names := l |}.

(** A registry entry whose process the platform does not know. *)
Definition ghost (w : os) : state os :=
  mk_state [("ghost", {| process := 7; command := ["ghost"] |})]
    false None false [] [] [] w.

End Harsh.
(** * Facts *)

(** ** Python strings *)

Module PyStrFacts.
Import PyStr.

Lemma append_nil_r (s : string) : s ++ "" = s.
Proof. induction s as [|c s IH]; simpl; [reflexivity | now rewrite IH]. Qed.

Lemma append_assoc (a b c : string) : (a ++ b) ++ c = a ++ (b ++ c).
Proof. induction a as [|x a IH]; simpl; [reflexivity | now rewrite IH]. Qed.

Lemma startswith_iff (s p : string) :
  startswith s p = true <-> exists post, s = p ++ post.
Proof.
  revert s; induction p as [|a p IH]; intros s; simpl.
  - split; [intros _; now exists s | intros _; reflexivity].
  - destruct s as [|b s].
    + split; [discriminate | intros [post H]; discriminate].
    + rewrite andb_true_iff, IH. split.
      * intros [Hab [post ->]]. apply Ascii.eqb_eq in Hab. subst b. now exists post.
      * intros [post H]. injection H as -> ->. split; [apply Ascii.eqb_refl | now exists post].
Qed.

Lemma contains_iff (needle hay : string) :
  contains needle hay = true <-> occurs needle hay.
Proof.
  unfold occurs. induction hay as [|c hay IH].
  - simpl. rewrite orb_false_r, startswith_iff. split.
    + intros [post H]. now exists "", post.
    + intros [pre [post H]]. destruct pre; simpl in H; [now exists post | discriminate].
  - cbn [contains]. rewrite orb_true_iff, IH, startswith_iff. split.
    + intros [[post H] | [pre [post H]]].
      * now exists "", post.
      * exists (String c pre), post. simpl. now rewrite H.
    + intros [pre [post H]]. destruct pre as [|x pre]; simpl in H.
      * left. now exists post.
      * right. injection H as _ H. now exists pre, post.
Qed.

Lemma lstrip_empty_iff (s : string) : lstrip s = "" <-> all_space s = true.
Proof.
  induction s as [|c s IH]; simpl.
  - tauto.
  - destruct (isspace c); simpl; [exact IH | split; discriminate].
Qed.

Lemma rstrip_empty_iff (s : string) : rstrip s = "" <-> all_space s = true.
Proof.
  induction s as [|c s IH]; simpl.
  - tauto.
  - destruct (rstrip s) as [|x r] eqn:E; simpl.
    + destruct (isspace c); simpl; [tauto | ].
      split; discriminate.
    + rewrite andb_true_iff. split; [discriminate | ].
      intros [_ H]. apply IH in H. discriminate.
Qed.

Lemma lstrip_all_space (s : string) : all_space s = true -> all_space (lstrip s) = true.
Proof. intros H. apply lstrip_empty_iff in H. now rewrite H. Qed.

Lemma all_space_lstrip (s : string) : all_space (lstrip s) = true -> all_space s = true.
Proof.
  induction s as [|c s IH]; simpl; [tauto | ].
  destruct (isspace c) eqn:E; simpl; [exact IH | ].
  rewrite E. simpl. discriminate.
Qed.

Lemma strip_empty_iff (s : string) : strip s = "" <-> all_space s = true.
Proof.
  unfold strip. rewrite rstrip_empty_iff. split.
  - apply all_space_lstrip.
  - apply lstrip_all_space.
Qed.

(** The last character of a stripped string is never whitespace. *)
Lemma rstrip_last (s u : string) (c : ascii) :
  rstrip s = u ++ String c "" -> isspace c = false.
Proof.
  revert u; induction s as [|x s IH]; intros u; simpl.
  - destruct u; discriminate.
  - destruct (rstrip s) as [|y r] eqn:E; simpl.
    + destruct (isspace x) eqn:Ex; [destruct u; discriminate | ].
      destruct u as [|z u]; simpl; intros H.
      * now injection H as <-.
      * injection H as _ H. destruct u; discriminate.
    + destruct u as [|z u]; simpl; intros H; [discriminate | ].
      injection H as _ H. now apply (IH u).
Qed.

(** The first character of a stripped string is never whitespace either. *)
Lemma lstrip_first (s r : string) (c : ascii) :
  lstrip s = String c r -> isspace c = false.
Proof.
  induction s as [|x s IH]; simpl; [discriminate | ].
  destruct (isspace x) eqn:E; [exact IH | ].
  intros H. injection H as <- _. exact E.
Qed.

Lemma rstrip_first (s r : string) (c : ascii) :
  rstrip s = String c r -> exists r', s = String c r'.
Proof.
  destruct s as [|x s]; simpl; [discriminate | ].
  destruct (is_empty (rstrip s) && isspace x); [discriminate | ].
  intros H. injection H as <- _. now exists s.
Qed.

Lemma lstrip_split (s : string) :
  exists lead, s = lead ++ lstrip s /\ all_space lead = true.
Proof.
  induction s as [|c s [lead [IH1 IH2]]]; simpl.
  - now exists "".
  - destruct (isspace c) eqn:E.
    + exists (String c lead). simpl. rewrite E, IH2, <- IH1. split; reflexivity.
    + now exists "".
Qed.

Lemma rstrip_split (s : string) :
  exists trail, s = rstrip s ++ trail /\ all_space trail = true.
Proof.
  induction s as [|c s [trail [IH1 IH2]]]; simpl.
  - now exists "".
  - destruct (rstrip s) as [|x r] eqn:E; simpl.
    + destruct (isspace c) eqn:Ec.
      * exists (String c trail). simpl in *. subst trail.
        rewrite Ec, IH2. split; reflexivity.
      * exists trail. simpl in *. subst trail. split; trivial.
    + exists trail. simpl in *. rewrite <- IH1. split; trivial.
Qed.

(** What [strip] does, said without its definition: it cuts a whitespace
    prefix and a whitespace suffix, and what is left neither starts nor ends
    with whitespace. *)
Lemma strip_spec (s : string) :
  exists lead trail,
    s = lead ++ strip s ++ trail /\
    all_space lead = true /\ all_space trail = true /\
    (forall c r, strip s = String c r -> isspace c = false) /\
    (forall u c, strip s = u ++ String c "" -> isspace c = false).
Proof.
  destruct (lstrip_split s) as [lead [H1 H2]].
  destruct (rstrip_split (lstrip s)) as [trail [H3 H4]].
  exists lead, trail. unfold strip. repeat split; trivial.
  - now rewrite <- H3.
  - intros c r H. destruct (rstrip_first _ H) as [r' H'].
    now apply lstrip_first in H'.
  - intros u c H. now apply rstrip_last in H.
Qed.

Lemma is_empty_iff (s : string) : is_empty s = true <-> s = "".
Proof. destruct s; simpl; split; congruence. Qed.

Lemma contains_false_iff (needle hay : string) :
  contains needle hay = false <-> ~ occurs needle hay.
Proof.
  rewrite <- contains_iff. destruct (contains needle hay); split; congruence.
Qed.

(** A word without whitespace that starts in [text] ends in [text]. *)
Lemma startswith_app_trail (needle text trail : string) :
  no_space needle = true -> all_space trail = true ->
  startswith (text ++ trail) needle = true -> startswith text needle = true.
Proof.
  revert text. induction needle as [|a n IH]; intros text Hn Ht; [reflexivity | ].
  cbn in Hn. apply andb_true_iff in Hn. destruct Hn as [Ha Hn].
  destruct text as [|c t]; cbn.
  - destruct trail as [|b tr]; cbn; [discriminate | ].
    cbn in Ht. apply andb_true_iff in Ht. destruct Ht as [Hb _].
    destruct (Ascii.eqb a b) eqn:E; [ | discriminate].
    apply Ascii.eqb_eq in E. subst b. rewrite Hb in Ha. discriminate.
  - destruct (Ascii.eqb a c); [ | discriminate]. cbn. now apply IH.
Qed.

Lemma contains_all_space (needle hay : string) :
  needle <> "" -> no_space needle = true -> all_space hay = true ->
  contains needle hay = false.
Proof.
  intros Hne Hn. destruct needle as [|a n]; [congruence | ].
  cbn in Hn. apply andb_true_iff in Hn. destruct Hn as [Ha _].
  induction hay as [|b t IH]; intros Hs; cbn; [reflexivity | ].
  cbn in Hs. apply andb_true_iff in Hs. destruct Hs as [Hb Ht].
  rewrite (IH Ht), orb_false_r.
  destruct (Ascii.eqb a b) eqn:E; [ | reflexivity].
  apply Ascii.eqb_eq in E. subst b. rewrite Hb in Ha. discriminate.
Qed.

Lemma contains_app_trail (needle text trail : string) :
  needle <> "" -> no_space needle = true -> all_space trail = true ->
  contains needle (text ++ trail) = true -> contains needle text = true.
Proof.
  intros Hne Hn Ht. induction text as [|c t IH].
  - cbn [append]. now rewrite (@contains_all_space needle trail Hne Hn Ht).
  - change (String c t ++ trail) with (String c (t ++ trail)).
    cbn [contains]. rewrite !orb_true_iff. intros [H | H].
    + left. now apply (@startswith_app_trail needle (String c t) trail).
    + right. now apply IH.
Qed.

Lemma contains_app_lead (needle lead rest : string) :
  needle <> "" -> no_space needle = true -> all_space lead = true ->
  contains needle (lead ++ rest) = true -> contains needle rest = true.
Proof.
  intros Hne Hn. destruct needle as [|a n]; [congruence | ].
  pose proof Hn as Hn'. cbn in Hn'. apply andb_true_iff in Hn'. destruct Hn' as [Ha _].
  induction lead as [|x l IH]; intros Hl; [trivial | ].
  cbn in Hl. apply andb_true_iff in Hl. destruct Hl as [Hx Hl].
  change (String x l ++ rest) with (String x (l ++ rest)).
  cbn [contains]. rewrite orb_true_iff. intros [H | H]; [ | now apply IH].
  cbn in H. destruct (Ascii.eqb a x) eqn:E; [ | discriminate].
  apply Ascii.eqb_eq in E. subst x. rewrite Hx in Ha. discriminate.
Qed.

(** A word without whitespace occurs in a line exactly when it occurs in
    the stripped line. *)
Lemma occurs_strip (needle line : string) :
  needle <> "" -> no_space needle = true ->
  (occurs needle line <-> occurs needle (strip line)).
Proof.
  intros Hne Hn. destruct (strip_spec line) as [lead [trail [H1 [H2 [H3 _]]]]].
  split.
  - intros H. apply contains_iff in H. apply contains_iff.
    rewrite H1 in H. apply contains_app_lead in H; trivial.
    now apply contains_app_trail in H.
  - intros [pre [post H]]. exists (lead ++ pre), (post ++ trail).
    rewrite H1 at 1. rewrite H. now rewrite !append_assoc.
Qed.

End PyStrFacts.

(** ** OutputRelay: [log_output] *)

Section Relay.

Import PyStr PyStrFacts.

Lemma log_line_blank (prefix line : string) :
  all_space line = true -> log_line prefix line = [].
Proof.
  intros H. unfold log_line. apply strip_empty_iff in H. now rewrite H.
Qed.

Lemma log_line_text (prefix line : string) :
  all_space line = false ->
  exists sev,
    log_line prefix line = [(sev, prefix ++ ": " ++ strip line)] /\
    (occurs "ERROR" (strip line) -> sev = ERROR) /\
    (~ occurs "ERROR" (strip line) -> occurs "WARNING" (strip line) -> sev = WARNING) /\
    (~ occurs "ERROR" (strip line) -> ~ occurs "WARNING" (strip line) ->
     occurs "SUCCESS" (strip line) -> sev = SUCCESS) /\
    (~ occurs "ERROR" (strip line) -> ~ occurs "WARNING" (strip line) ->
     ~ occurs "SUCCESS" (strip line) -> sev = INFO).
Proof.
  intros Hline. unfold log_line.
  assert (Hne : is_empty (strip line) = false).
  { destruct (is_empty (strip line)) eqn:E; trivial.
    apply is_empty_iff, strip_empty_iff in E. congruence. }
  rewrite Hne. simpl negb. cbv iota.
  destruct (contains "ERROR" (strip line)) eqn:HE.
  { exists ERROR. apply contains_iff in HE. repeat split; tauto. }
  apply contains_false_iff in HE.
  destruct (contains "WARNING" (strip line)) eqn:HW.
  { exists WARNING. apply contains_iff in HW. repeat split; tauto. }
  apply contains_false_iff in HW.
  destruct (contains "SUCCESS" (strip line)) eqn:HS.
  { exists SUCCESS. apply contains_iff in HS. repeat split; tauto. }
  apply contains_false_iff in HS.
  exists INFO. repeat split; tauto.
Qed.

(** C7.  For every line of the stream: the logged text is the line without
    the whitespace at its ends (so without trailing whitespace); a line of
    whitespace only, or an empty one, gives no entry; any other line gives
    exactly one entry, the label, a colon and the text, at the severity of
    the first of "ERROR", "WARNING", "SUCCESS" that the text contains, and at
    info severity when it contains none; and the text contains one of these
    words exactly when the line does. *)
Theorem log_output_classifies_each_line (prefix line : string) (rest : list string) :
  exists lead text trail sev,
    line = lead ++ text ++ trail /\
    all_space lead = true /\ all_space trail = true /\
    (forall u c, text = u ++ String c "" -> isspace c = false) /\
    log_output (line :: rest) prefix =
      app (if all_space line then [] else [(sev, prefix ++ ": " ++ text)])
          (log_output rest prefix) /\
    (occurs "ERROR" text -> sev = ERROR) /\
    (~ occurs "ERROR" text -> occurs "WARNING" text -> sev = WARNING) /\
    (~ occurs "ERROR" text -> ~ occurs "WARNING" text ->
     occurs "SUCCESS" text -> sev = SUCCESS) /\
    (~ occurs "ERROR" text -> ~ occurs "WARNING" text ->
     ~ occurs "SUCCESS" text -> sev = INFO) /\
    (forall word, In word ["ERROR"; "WARNING"; "SUCCESS"] ->
       (occurs word line <-> occurs word text)).
Proof.
  assert (Hwords : forall word, In word ["ERROR"; "WARNING"; "SUCCESS"] ->
            (occurs word line <-> occurs word (strip line))).
  { intros word [<- | [<- | [<- | []]]]; apply occurs_strip;
      solve [discriminate | reflexivity]. }
  destruct (strip_spec line) as [lead [trail [H1 [H2 [H3 [_ H5]]]]]].
  destruct (all_space line) eqn:Hline.
  - exists lead, (strip line), trail, INFO.
    assert (Hs : strip line = "") by now apply strip_empty_iff.
    assert (Hno : forall a r, ~ occurs (String a r) (strip line)).
    { rewrite Hs. intros a r [[|? ?] [? H]]; discriminate. }
    simpl. rewrite (log_line_blank prefix line Hline).
    repeat (split; [solve [trivial | intros; exfalso; eapply Hno; eassumption] | ]).
    exact Hwords.
  - destruct (log_line_text prefix line Hline) as [sev [Hl [S1 [S2 [S3 S4]]]]].
    exists lead, (strip line), trail, sev. simpl. rewrite Hl.
    repeat (split; [assumption || reflexivity | ]). exact Hwords.
Qed.

End Relay.

(** ** Relations that every step of a run keeps R

    [R] relates the state before a step to the state after it.  Each lemma
    of this section uses only the closure properties that the function it is
    about needs, so a relation that some primitive breaks (the registry is
    unchanged; no process is spawned) still passes through every function
    that does not use that primitive. *)

Unset Implicit Arguments.

Section Invariants.

Context {W : Type} {platform : Platform W}.

Variable R : state W -> state W -> Prop.
Variable allowed : event -> Prop.

Hypothesis R_refl : forall s, R s s.
Hypothesis R_trans : forall a b c, R a b -> R b c -> R a c.
Hypothesis R_log : forall l s, R s (add_log l s).
Hypothesis R_call : forall ev w s, allowed ev -> R s (answered ev w s).
Hypothesis R_set : forall s, R s (set_shutdown_event true s).
Hypothesis R_world : forall s w,
  R s (mk_state (processes s) (shutdown_event s) (selected_persona_name s)
         (signal_handlers s) (log s) (calls s) (event_writes s) w).
Hypothesis R_persona : forall n s, R s (set_selected_persona_name n s).
Hypothesis R_handlers : forall s, R s (set_signal_handlers true s).
Hypothesis R_register : forall name info s,
  R s (set_processes (dict_set (processes s) name info) s).

Hypothesis allowed_StartThread :
  forall h fd w a w', Thread_start h fd w = (a, w') -> allowed (StartThread h fd a).
Hypothesis allowed_Terminate :
  forall h w a w', terminate h w = (a, w') -> allowed (Terminate h a).
Hypothesis allowed_Poll : forall h w a w', poll h w = (a, w') -> allowed (Poll h a).
Hypothesis allowed_Kill : forall h w a w', kill h w = (a, w') -> allowed (Kill h a).
Hypothesis allowed_Sleep :
  forall w b a w', asyncio_sleep w = (b, a, w') -> allowed (Sleep a).
Hypothesis allowed_Wait : forall w a w', Event_wait w = (a, w') -> allowed (Wait a).
Hypothesis allowed_Input :
  forall p w a w', input p w = (a, w') -> allowed (Input p a).

Lemma keeps_ret {A} (a : A) : keeps R (ret a).
Proof. intros s. apply R_refl. Qed.

Lemma keeps_raise {A} (e : exn) : keeps R (@raise W A e).
Proof. intros s. apply R_refl. Qed.

Lemma keeps_out_of_fuel {A} : keeps R (@out_of_fuel W A).
Proof. intros s. apply R_refl. Qed.

Lemma keeps_bind {A B} (m : M W A) (k : A -> M W B) :
  keeps R m -> (forall a, keeps R (k a)) -> keeps R (bind m k).
Proof.
  intros Hm Hk s. unfold bind. specialize (Hm s).
  destruct (m s) as [[a|e|] s1]; simpl in *; trivial.
  eapply R_trans; [exact Hm | apply Hk].
Qed.

Lemma keeps_self_processes : keeps R self_processes.
Proof. intros s. apply R_refl. Qed.

Lemma keeps_dispatch {A} (clauses : list ((exn -> bool) * (exn -> M W A))) (e : exn) :
  Forall (fun cl => forall e', keeps R (snd cl e')) clauses -> keeps R (dispatch clauses e).
Proof.
  induction 1 as [|[matches handler] rest Hh _ IH]; simpl.
  - apply keeps_raise.
  - destruct (matches e); [apply Hh | exact IH].
Qed.

Lemma keeps_try_except {A} (body : M W A) clauses :
  keeps R body ->
  Forall (fun cl => forall e', keeps R (snd cl e')) clauses ->
  keeps R (try_except body clauses).
Proof.
  intros Hb Hc s. unfold try_except. specialize (Hb s).
  destruct (body s) as [[a|e|] s1]; simpl in *; trivial.
  eapply R_trans; [exact Hb | now apply keeps_dispatch].
Qed.

Lemma keeps_try_finally {A} (body : M W A) (fin : M W unit) :
  keeps R body -> keeps R fin -> keeps R (try_finally body fin).
Proof.
  intros Hb Hf s. unfold try_finally. specialize (Hb s).
  destruct (body s) as [[a|e|] s1]; simpl in *; trivial;
    specialize (Hf s1); destruct (fin s1) as [[[]|e'|] s2]; simpl in *;
    eapply R_trans; eassumption.
Qed.

Lemma keeps_for_each {A} (l : list A) (body : A -> M W unit) :
  (forall x, keeps R (body x)) -> keeps R (for_each l body).
Proof.
  intros Hb. induction l as [|x l IH]; simpl.
  - apply keeps_ret.
  - apply keeps_bind; trivial.
Qed.

Lemma keeps_logger sev msg : keeps R (@logger W sev msg).
Proof. intros s. apply R_log. Qed.

Lemma keeps_perform {A} (op : W -> answer A * W) (ev : answer A -> event) :
  (forall w a w', op w = (a, w') -> allowed (ev a)) -> keeps R (perform op ev).
Proof.
  intros H s. unfold perform. destruct (op (world s)) as [a w] eqn:E. simpl.
  apply R_call. eapply H, E.
Qed.

Lemma keeps_sleep_1 : keeps R sleep_1.
Proof.
  intros s. unfold sleep_1. destruct (asyncio_sleep (world s)) as [[b a] w] eqn:E.
  simpl. assert (H : R s (answered (Sleep a) w s)).
  { apply R_call. eapply allowed_Sleep, E. }
  destruct (b && signal_handlers s); trivial.
  eapply R_trans; [exact H | apply R_set].
Qed.

Lemma keeps_shutdown_event_wait : keeps R shutdown_event_wait.
Proof.
  intros s. unfold shutdown_event_wait. destruct (shutdown_event s); [apply R_refl | ].
  destruct (Event_wait (world s)) as [a w] eqn:E. simpl.
  assert (H : R s (answered (Wait a) w s)).
  { apply R_call. eapply allowed_Wait, E. }
  destruct a; trivial. eapply R_trans; [exact H | apply R_set].
Qed.

Lemma keeps_random_choice seq : keeps R (random_choice seq).
Proof.
  intros s. unfold random_choice. destruct seq; [apply R_refl | ].
  destruct (randbelow _ _). apply R_world.
Qed.

Lemma keeps_call_list_personas : keeps R call_list_personas.
Proof. intros s. unfold call_list_personas. destruct (list_personas _). apply R_world. Qed.

Lemma keeps_call_get_persona name : keeps R (call_get_persona name).
Proof. intros s. unfold call_get_persona. destruct (get_persona _ _). apply R_world. Qed.

Lemma keeps_validate_url url : keeps R (@validate_url W url).
Proof.
  unfold validate_url. destruct (negb _); [apply keeps_raise | apply keeps_ret].
Qed.

Lemma keeps_get_user_input fuel prompt validator :
  (forall v u, validator = Some v -> keeps R (v u)) ->
  keeps R (get_user_input fuel prompt validator).
Proof.
  intros Hv. induction fuel as [|fuel IH]; simpl.
  - apply keeps_out_of_fuel.
  - apply keeps_bind.
    + apply keeps_perform. intros; eapply allowed_Input; eassumption.
    + intros raw. destruct validator as [v|]; [ | apply keeps_ret].
      apply keeps_bind.
      * apply keeps_try_except.
        -- apply keeps_bind; [now apply Hv | intros; apply keeps_ret].
        -- repeat constructor. intros e'. simpl.
           apply keeps_bind; [apply keeps_logger | intros; apply keeps_ret].
      * intros [x|]; [apply keeps_ret | exact IH].
Qed.

Lemma keeps_run_command command name :
  allowed_Spawn allowed command -> keeps R (run_command command name).
Proof.
  intros HS. unfold run_command. apply keeps_try_except.
  - apply keeps_bind.
    { apply keeps_perform. exact HS. }
    intros h. apply keeps_bind.
    { apply keeps_perform. intros; eapply allowed_StartThread; eassumption. }
    intros _. apply keeps_bind.
    { apply keeps_perform. intros; eapply allowed_StartThread; eassumption. }
    intros _. apply keeps_bind; [ | intros; apply keeps_ret].
    intros s. apply R_register.
  - repeat constructor. intros e'. simpl.
    apply keeps_bind; [apply keeps_logger | intros _].
    apply keeps_bind; [apply keeps_logger | intros; apply keeps_ret].
Qed.

Lemma keeps_cleanup_one entry : keeps R (cleanup_one entry).
Proof.
  destruct entry as [name info]. unfold cleanup_one.
  apply keeps_bind; [apply keeps_logger | intros _].
  apply keeps_try_except.
  - apply keeps_bind.
    { apply keeps_perform. intros; eapply allowed_Terminate; eassumption. }
    intros _. apply keeps_bind; [apply keeps_sleep_1 | intros _].
    apply keeps_bind.
    { apply keeps_perform. intros; eapply allowed_Poll; eassumption. }
    intros code. apply keeps_bind; [ | intros; apply keeps_logger].
    destruct code; [apply keeps_ret | ].
    apply keeps_perform. intros; eapply allowed_Kill; eassumption.
  - repeat constructor. intros e'. simpl. apply keeps_logger.
Qed.

Lemma keeps_cleanup : keeps R cleanup.
Proof.
  unfold cleanup. apply keeps_try_except.
  - apply keeps_bind; [apply keeps_self_processes | intros items].
    apply keeps_bind; [apply keeps_for_each, keeps_cleanup_one | ].
    intros; apply keeps_logger.
  - repeat constructor. intros e'. simpl. apply keeps_logger.
Qed.

Lemma keeps_sweep_one entry : keeps R (sweep_one entry).
Proof.
  destruct entry as [name info]. unfold sweep_one. apply keeps_bind.
  - apply keeps_perform. intros; eapply allowed_Poll; eassumption.
  - intros [code|]; [apply keeps_logger | apply keeps_ret].
Qed.

Lemma keeps_sweep : keeps R sweep.
Proof.
  unfold sweep. apply keeps_bind; [apply keeps_self_processes | intros items].
  apply keeps_bind; [apply keeps_for_each, keeps_sweep_one | ].
  intros; apply keeps_sleep_1.
Qed.

Lemma keeps_monitor_iteration : keeps R monitor_iteration.
Proof.
  unfold monitor_iteration. apply keeps_try_except.
  - apply keeps_bind; [apply keeps_sweep | intros; apply keeps_ret].
  - repeat constructor; intros e'; simpl.
    + apply keeps_ret.
    + apply keeps_bind; [apply keeps_logger | intros _].
      apply keeps_bind; [apply keeps_sleep_1 | intros; apply keeps_ret].
Qed.

Lemma keeps_monitor_processes fuel : keeps R (monitor_processes fuel).
Proof.
  induction fuel as [|fuel IH]; intros s; simpl.
  - destruct (shutdown_event s); apply R_refl.
  - destruct (shutdown_event s); [apply R_refl | ].
    apply keeps_bind; [apply keeps_monitor_iteration | ].
    intros [|]; [exact IH | apply keeps_ret].
Qed.

Lemma keeps_run_until_shutdown fuel : keeps R (run_until_shutdown fuel).
Proof.
  intros s. unfold run_until_shutdown.
  pose proof (keeps_monitor_processes fuel s) as Hm.
  destruct (monitor_processes fuel s) as [task s1]. simpl in Hm.
  assert (Hrest : forall t : result unit,
    R s1 (snd (try_finally
      (try_except shutdown_event_wait
         [(is_CancelledError,
           fun _ => logger INFO (newline ++ "Received shutdown signal"))])
      (fun s2 => (t, set_shutdown_event true s2)) s1))).
  { intros t. apply keeps_try_finally.
    - apply keeps_try_except; [apply keeps_shutdown_event_wait | ].
      repeat constructor. intros e'. simpl. apply keeps_logger.
    - intros s2. apply R_set. }
  destruct task as [[]|e|]; simpl; trivial;
    (eapply R_trans; [exact Hm | apply Hrest]).
Qed.

Lemma keeps_select_persona args : keeps R (select_persona args).
Proof.
  unfold select_persona. apply keeps_bind; [apply keeps_call_list_personas | ].
  intros available. apply keeps_bind.
  - destruct (truthy _); [ | apply keeps_random_choice].
    destruct (negb _); [apply keeps_raise | apply keeps_ret].
  - intros name s. apply R_persona.
Qed.

Lemma keeps_resolve_meeting_url fuel args : keeps R (resolve_meeting_url fuel args).
Proof.
  unfold resolve_meeting_url. destruct (negb _); [ | apply keeps_ret].
  apply keeps_get_user_input. intros v u Hv. injection Hv as <-.
  apply keeps_validate_url.
Qed.

(** What [session] does once the bot has been handed to [run_command]. *)
Lemma keeps_after_bot fuel meeting_url name (bot_process : option handle) :
  allowed_Spawn allowed (meeting_command meeting_url name) ->
  keeps R
    (match bot_process with
     | None => logger ERROR "Failed to start bot"
     | Some _ =>
         sleep_1 ;;
         meeting_process <- run_command (meeting_command meeting_url name) "meeting" ;;
         match meeting_process with
         | None => logger ERROR "Failed to start meeting"
         | Some _ =>
             logger SUCCESS "Successfully started bot and meeting processes" ;;
             logger INFO "Press Ctrl+C to stop all processes" ;;
             run_until_shutdown fuel
         end
     end).
Proof.
  intros HS. destruct bot_process; [ | apply keeps_logger].
  apply keeps_bind; [apply keeps_sleep_1 | intros _].
  apply keeps_bind; [now apply keeps_run_command | intros [m|]]; [ | apply keeps_logger].
  apply keeps_bind; [apply keeps_logger | intros _].
  apply keeps_bind; [apply keeps_logger | intros _].
  apply keeps_run_until_shutdown.
Qed.

Lemma keeps_session fuel args meeting_url :
  (forall c, allowed_Spawn allowed c) -> keeps R (session fuel args meeting_url).
Proof.
  intros HS. unfold session.
  apply keeps_bind; [apply keeps_logger | intros _].
  apply keeps_bind; [apply keeps_select_persona | intros name].
  apply keeps_bind; [apply keeps_call_get_persona | intros p].
  apply keeps_bind; [apply keeps_logger | intros _].
  apply keeps_bind; [apply keeps_logger | intros _].
  apply keeps_bind; [apply keeps_run_command, HS | intros bot].
  apply keeps_after_bot, HS.
Qed.

Lemma keeps_session_handlers :
  Forall (fun cl : (exn -> bool) * (exn -> M W unit) => forall e', keeps R (snd cl e'))
    [(is_KeyboardInterrupt,
      fun _ => logger INFO (newline ++ "Received shutdown signal (Ctrl+C)"));
     (is_Exception, fun e => logger ERROR ("Unexpected error: " ++ str e))].
Proof. repeat constructor; intros e'; simpl; apply keeps_logger. Qed.

Lemma keeps_session_finally :
  keeps R (cleanup ;; logger SUCCESS "Cleanup completed successfully").
Proof. apply keeps_bind; [apply keeps_cleanup | intros; apply keeps_logger]. Qed.

Lemma keeps_try_session fuel args meeting_url :
  (forall c, allowed_Spawn allowed c) -> keeps R (try_session fuel args meeting_url).
Proof.
  intros HS. unfold try_session.
  apply keeps_try_finally; [ | apply keeps_session_finally].
  apply keeps_try_except; [now apply keeps_session | apply keeps_session_handlers].
Qed.

Lemma keeps_async_main_with fuel args :
  (forall c, allowed_Spawn allowed c) -> keeps R (async_main_with fuel args).
Proof.
  intros HS. unfold async_main_with.
  apply keeps_bind; [apply keeps_resolve_meeting_url | intros url].
  now apply keeps_try_session.
Qed.

Lemma keeps_parser_parse_args inv : keeps R (parser_parse_args inv).
Proof. intros s. apply R_refl. Qed.

Lemma keeps_async_main fuel inv :
  (forall c, allowed_Spawn allowed c) -> keeps R (async_main fuel inv).
Proof.
  intros HS. unfold async_main.
  apply keeps_bind; [apply keeps_parser_parse_args | intros args].
  now apply keeps_async_main_with.
Qed.

Lemma keeps_main fuel inv :
  (forall c, allowed_Spawn allowed c) -> keeps R (main fuel inv).
Proof.
  intros HS. unfold main. apply keeps_try_except.
  - destruct (negb win32); [ | now apply keeps_async_main].
    apply keeps_bind; [intros s; apply R_handlers | intros _].
    apply keeps_try_finally; [now apply keeps_async_main | apply keeps_ret].
  - repeat constructor. intros e'. simpl.
    apply keeps_bind; [apply keeps_logger | intros; apply keeps_raise].
Qed.

End Invariants.

Set Implicit Arguments.

(** ** cleanup *)

Section CleanupFacts.

Context {W : Type} {platform : Platform W}.

Local Arguments String.append : simpl never.

Ltac step_into :=
  unfold cleanup_one, sweep_one, bind, logger, try_except, dispatch, process_terminate,
    process_poll, process_kill, perform, sleep_1, ret, raise, lift, self_processes,
    add_log, answered, signal_handler, set_shutdown_event;
  cbn.

Ltac lists := repeat rewrite <- app_assoc; cbn [app]; try reflexivity.

Ltac close_run :=
  cbn;
  repeat match goal with
         | |- _ /\ _ => split
         | |- context [if ?b && ?c then _ else _] => destruct (b && c); cbn
         end; lists; try reflexivity.

(** One pass of the loop body of [cleanup] is one teardown attempt, with the
    result and the log entries that go with how it ended. *)
Lemma cleanup_one_run (name : string) (info : process_info) (s : state W) :
  exists evs oe,
    attempt (process info) evs oe /\
    calls (snd (cleanup_one (name, info) s)) = app (calls s) evs /\
    processes (snd (cleanup_one (name, info) s)) = processes s /\
    match oe with
    | None =>
        fst (cleanup_one (name, info) s) = Ok tt /\
        log (snd (cleanup_one (name, info) s)) =
          app (log s)
            [(INFO, "Terminating process: " ++ name);
             (SUCCESS, "Process " ++ name ++ " terminated successfully")]
    | Some e =>
        if is_Exception e then
          fst (cleanup_one (name, info) s) = Ok tt /\
          log (snd (cleanup_one (name, info) s)) =
            app (log s)
              [(INFO, "Terminating process: " ++ name);
               (ERROR, "Error terminating process " ++ name ++ ": " ++ str e)]
        else
          fst (cleanup_one (name, info) s) = Raise e /\
          log (snd (cleanup_one (name, info) s)) =
            app (log s) [(INFO, "Terminating process: " ++ name)]
    end.
Proof.
  destruct s as [reg flag sel hand lg cl wr w]. destruct info as [h cmd].
  step_into.
  destruct (terminate h w) as [[[]|e] w1]; cbn.
  2:{ exists [Terminate h (Raised e)], (Some e).
      split; [constructor | ]. destruct (is_Exception e); close_run. }
  destruct (asyncio_sleep w1) as [[b [[]|e]] w2]; cbn.
  2:{ exists [Terminate h (Returned tt); Sleep (Raised e)], (Some e).
      split; [constructor | ]. destruct (is_Exception e); destruct (b && hand); close_run. }
  destruct (b && hand); cbn;
  (destruct (poll h w2) as [[[code|]|e] w3]; cbn;
   [ exists [Terminate h (Returned tt); Sleep (Returned tt);
             Poll h (Returned (Some code))], None;
     split; [constructor | close_run]
   | destruct (kill h w3) as [[[]|e] w4]; cbn;
     [ exists [Terminate h (Returned tt); Sleep (Returned tt);
               Poll h (Returned None); Kill h (Returned tt)], None;
       split; [constructor | close_run]
     | exists [Terminate h (Returned tt); Sleep (Returned tt);
               Poll h (Returned None); Kill h (Raised e)], (Some e);
       split; [constructor | destruct (is_Exception e); close_run] ]
   | exists [Terminate h (Returned tt); Sleep (Returned tt); Poll h (Raised e)], (Some e);
     split; [constructor | destruct (is_Exception e); close_run] ]).
Qed.

Lemma attempt_terminations h evs oe :
  attempt h evs oe ->
  exists a, terminations evs = [(h, a)] /\ (forall e, a = Raised e -> oe = Some e).
Proof.
  destruct 1; cbn; eexists; (split; [reflexivity | ]); intros e' H;
    try discriminate; now injection H as ->.
Qed.

Lemma attempt_raised h evs e :
  attempt h evs (Some e) -> exists ev, In ev evs /\ raised ev = Some e.
Proof.
  inversion 1; subst;
    [ exists (Terminate h (Raised e)) | exists (Sleep (Raised e))
    | exists (Poll h (Raised e)) | exists (Kill h (Raised e)) ];
    (split; [cbn; tauto | reflexivity]).
Qed.

Lemma attempt_handles h evs oe :
  attempt h evs oe ->
  forall ev, In ev evs ->
    match ev with
    | Terminate h' _ | Poll h' _ | Kill h' _ => h' = h
    | Sleep _ => True
    | _ => False
    end.
Proof.
  destruct 1; cbn; intros ev Hev;
    repeat (destruct Hev as [<- | Hev]; [trivial | ]); contradiction.
Qed.

Lemma terminations_app evs evs' :
  terminations (app evs evs') = app (terminations evs) (terminations evs').
Proof.
  induction evs as [|ev evs IH]; cbn; trivial.
  destruct ev; cbn; now rewrite ?IH.
Qed.

Lemma teardown_result reg evs logs r :
  teardown reg evs logs r -> no_error r.
Proof. induction 1; cbn; trivial. Qed.

Lemma teardown_interrupt reg evs logs e :
  teardown reg evs logs (Raise e) ->
  exists ev, In ev evs /\ raised ev = Some e /\ is_Exception e = false.
Proof.
  remember (Raise e) as r eqn:Hr. induction 1 as [ | ? ? ? ? ? ? ? _ _ IH
    | ? ? ? ? ? ? ? ? _ _ _ IH | ? ? ? ? e' Ha He ]; try discriminate.
  - destruct (IH Hr) as [ev [Hin H]]. exists ev. split; trivial.
    apply in_or_app. now right.
  - destruct (IH Hr) as [ev [Hin H]]. exists ev. split; trivial.
    apply in_or_app. now right.
  - injection Hr as ->. destruct (attempt_raised Ha) as [ev [Hin H]].
    exists ev. auto.
Qed.

(** When the teardown ran to its end, [terminate()] was requested once for
    every registered process, in registry order, and a request that raised
    has its error in the log under the name of its process. *)
Lemma teardown_terminations reg evs logs :
  teardown reg evs logs (Ok tt) ->
  map fst (terminations evs) = handles reg /\
  forall k name info e,
    nth_error reg k = Some (name, info) ->
    nth_error (terminations evs) k = Some (process info, Raised e) ->
    In (ERROR, "Error terminating process " ++ name ++ ": " ++ str e) logs.
Proof.
  remember (Ok tt) as r eqn:Hr.
  induction 1 as [ | name info rest evs evs' logs r Ha _ IH
    | name info rest evs e evs' logs r Ha He _ IH | ]; try discriminate.
  - split; [reflexivity | ]. intros [|k] ? ? ? H; discriminate.
  - destruct (IH Hr) as [IH1 IH2].
    destruct (attempt_terminations Ha) as [a [Ht Hraise]].
    rewrite terminations_app, Ht. cbn. split; [now rewrite IH1 | ].
    intros [|k] name' info' e' Hreg Hev; cbn in *.
    + injection Hev as _ Hev. apply Hraise in Hev. discriminate.
    + right. right. eapply IH2; eassumption.
  - destruct (IH Hr) as [IH1 IH2].
    destruct (attempt_terminations Ha) as [a [Ht Hraise]].
    rewrite terminations_app, Ht. cbn. split; [now rewrite IH1 | ].
    intros [|k] name' info' e' Hreg Hev; cbn in *.
    + injection Hreg as <- <-. injection Hev as Hev. apply Hraise in Hev.
      injection Hev as <-. right. now left.
    + right. right. eapply IH2; eassumption.
Qed.

Lemma kills_app evs evs' : kills (app evs evs') = app (kills evs) (kills evs').
Proof.
  induction evs as [|ev evs IH]; cbn; trivial.
  destruct ev; cbn; now rewrite ?IH.
Qed.

Lemma still_running_app evs evs' :
  still_running (app evs evs') = app (still_running evs) (still_running evs').
Proof.
  induction evs as [|ev evs IH]; cbn; trivial.
  destruct ev as [| | | |h [[c|]|e]| | |]; cbn; now rewrite ?IH.
Qed.

(** A forced kill is requested exactly for the processes that the poll
    after the wait found still running. *)
Lemma teardown_kills reg evs logs r :
  teardown reg evs logs r -> kills evs = still_running evs.
Proof.
  assert (Ha : forall h evs oe, attempt h evs oe -> kills evs = still_running evs).
  { destruct 1; reflexivity. }
  induction 1 as [ | ? ? ? ? ? ? ? H _ IH | ? ? ? ? ? ? ? ? H _ _ IH | ? ? ? ? ? H _ ];
    rewrite ?kills_app, ?still_running_app, ?IH; try rewrite (Ha _ _ _ H); reflexivity.
Qed.

(** A teardown in which no call raised ran to its end, with the two entries
    of success for every registered process. *)
Lemma teardown_no_raise reg evs logs r :
  teardown reg evs logs r ->
  (forall ev, In ev evs -> raised ev = None) ->
  r = Ok tt /\ logs = success_entries reg.
Proof.
  induction 1 as [ | name info rest evs evs' logs r Ha _ IH
    | name info rest evs e evs' logs r Ha He _ IH | name info rest evs e Ha He ];
    intros Hno.
  - split; reflexivity.
  - destruct IH as [-> ->]; [intros; apply Hno, in_or_app; now right | ].
    split; reflexivity.
  - destruct (attempt_raised Ha) as [ev [Hin Hr]].
    rewrite (Hno ev) in Hr; [discriminate | apply in_or_app; now left].
  - destruct (attempt_raised Ha) as [ev [Hin Hr]].
    rewrite (Hno ev Hin) in Hr. discriminate.
Qed.

(** Every call of a teardown is on a registered process, or a sleep. *)
Lemma teardown_handles reg evs logs r :
  teardown reg evs logs r ->
  forall ev, In ev evs ->
    match ev with
    | Terminate h _ | Poll h _ | Kill h _ => In h (handles reg)
    | Sleep _ => True
    | _ => False
    end.
Proof.
  induction 1 as [ | name info rest evs evs' logs r Ha _ IH
    | name info rest evs e evs' logs r Ha He _ IH | name info rest evs e Ha He ];
    intros ev Hev; cbn in *.
  - contradiction.
  - apply in_app_or in Hev. destruct Hev as [Hev | Hev].
    + apply (attempt_handles Ha) in Hev. destruct ev; auto.
    + apply IH in Hev. destruct ev; auto.
  - apply in_app_or in Hev. destruct Hev as [Hev | Hev].
    + apply (attempt_handles Ha) in Hev. destruct ev; auto.
    + apply IH in Hev. destruct ev; auto.
  - apply (attempt_handles Ha) in Hev. destruct ev; auto.
Qed.

(** The loop of [cleanup] is a teardown of the registry it was given. *)
Lemma for_each_cleanup_one_run (reg : registry) (s : state W) :
  exists evs logs,
    teardown reg evs logs (fst (for_each reg cleanup_one s)) /\
    calls (snd (for_each reg cleanup_one s)) = app (calls s) evs /\
    log (snd (for_each reg cleanup_one s)) = app (log s) logs /\
    processes (snd (for_each reg cleanup_one s)) = processes s.
Proof.
  revert s. induction reg as [|[name info] rest IH]; intros s.
  - exists [], []. cbn. rewrite !app_nil_r. repeat split. constructor.
  - cbn [for_each]. unfold bind.
    destruct (cleanup_one_run name info s) as [evs [oe [Ha [Hc [Hp Hres]]]]].
    destruct (cleanup_one (name, info) s) as [r1 s1]. cbn [fst snd] in *.
    destruct oe as [e|].
    + destruct (is_Exception e) eqn:He; destruct Hres as [-> Hl].
      * destruct (IH s1) as [evs' [logs' [Ht [Hc' [Hl' Hp']]]]].
        exists (app evs evs'), ((INFO, "Terminating process: " ++ name)
          :: (ERROR, "Error terminating process " ++ name ++ ": " ++ str e) :: logs').
        rewrite Hc', Hl', Hp', Hc, Hl, Hp. repeat split; lists.
        econstructor; eassumption.
      * exists evs, [(INFO, "Terminating process: " ++ name)].
        cbn [fst snd]. repeat split; trivial. now constructor.
    + destruct Hres as [-> Hl].
      destruct (IH s1) as [evs' [logs' [Ht [Hc' [Hl' Hp']]]]].
      exists (app evs evs'), ((INFO, "Terminating process: " ++ name)
        :: (SUCCESS, "Process " ++ name ++ " terminated successfully") :: logs').
      rewrite Hc', Hl', Hp', Hc, Hl, Hp. repeat split; lists.
      econstructor; eassumption.
Qed.

(** [cleanup] as a whole: the teardown of the registry, then the closing
    entry when the teardown ran to its end.  The registry is as before. *)
Lemma cleanup_run (s : state W) :
  exists evs logs,
    teardown (processes s) evs logs (fst (cleanup s)) /\
    calls (snd (cleanup s)) = app (calls s) evs /\
    log (snd (cleanup s)) =
      app (log s)
        (app logs
           match fst (cleanup s) with
           | Ok _ => [(SUCCESS, "Cleanup completed successfully")]
           | _ => []
           end) /\
    processes (snd (cleanup s)) = processes s.
Proof.
  destruct (for_each_cleanup_one_run (processes s) s) as [evs [logs [Ht [Hc [Hl Hp]]]]].
  exists evs, logs. unfold cleanup, try_except, bind, self_processes.
  pose proof (teardown_result Ht) as Hr.
  destruct (for_each (processes s) cleanup_one s) as [[[]|e|] s1];
    cbn [fst snd no_error] in *.
  - unfold logger, add_log. cbn. rewrite Hl, Hc. repeat split; lists; assumption.
  - cbn. rewrite Hr. cbn. rewrite app_nil_r. auto.
  - contradiction.
Qed.

End CleanupFacts.

(** ** The relations of the statements are kept *)

Section Relations.

Context {W : Type} {platform : Platform W}.

Lemma flag_stays_refl (s : state W) : flag_stays s s.
Proof. intros H; exact H. Qed.

Lemma flag_stays_trans (a b c : state W) :
  flag_stays a b -> flag_stays b c -> flag_stays a c.
Proof. unfold flag_stays; auto. Qed.

Lemma flag_stays_set (s : state W) : flag_stays s (set_shutdown_event true s).
Proof. intros _; reflexivity. Qed.

Lemma only_set_refl (s : state W) : only_set s s.
Proof.
  exists []. rewrite app_nil_r. cbn. rewrite orb_false_r. repeat split. constructor.
Qed.

Lemma only_set_trans (a b c : state W) : only_set a b -> only_set b c -> only_set a c.
Proof.
  intros [w1 [H1 [F1 V1]]] [w2 [H2 [F2 V2]]]. exists (app w1 w2).
  rewrite H2, H1, app_assoc, V2, V1, existsb_app, orb_assoc.
  repeat split. now apply Forall_app.
Qed.

Lemma only_set_set (s : state W) : only_set s (set_shutdown_event true s).
Proof.
  exists [true]. cbn. rewrite orb_true_r. repeat split. now constructor.
Qed.

(** A step that does not touch the event. *)
Lemma only_set_same (s s' : state W) :
  event_writes s' = event_writes s -> shutdown_event s' = shutdown_event s ->
  only_set s s'.
Proof.
  intros H1 H2. exists []. rewrite app_nil_r, H1, H2. cbn. rewrite orb_false_r.
  repeat split. constructor.
Qed.

Lemma same_registry_refl (s : state W) : same_registry s s.
Proof. reflexivity. Qed.

Lemma same_registry_trans (a b c : state W) :
  same_registry a b -> same_registry b c -> same_registry a c.
Proof. unfold same_registry; congruence. Qed.

Section Calls.

Variable P : event -> Prop.

Lemma calls_grow_refl (s : state W) : calls_grow_by P s s.
Proof. exists []. now rewrite app_nil_r. Qed.

Lemma calls_grow_trans (a b c : state W) :
  calls_grow_by P a b -> calls_grow_by P b c -> calls_grow_by P a c.
Proof.
  intros [e1 [H1 F1]] [e2 [H2 F2]]. exists (app e1 e2).
  rewrite H2, H1, app_assoc. split; trivial. now apply Forall_app.
Qed.

Lemma calls_grow_call ev w (s : state W) :
  P ev -> calls_grow_by P s (answered ev w s).
Proof. intros H. exists [ev]. cbn. auto. Qed.

Lemma calls_grow_same (s s' : state W) :
  calls s' = calls s -> calls_grow_by P s s'.
Proof. intros H. exists []. now rewrite app_nil_r. Qed.

End Calls.

Section Logs.

Variable P : log_entry -> Prop.

Lemma log_grows_refl (s : state W) : log_grows_by P s s.
Proof. exists []. now rewrite app_nil_r. Qed.

Lemma log_grows_trans (a b c : state W) :
  log_grows_by P a b -> log_grows_by P b c -> log_grows_by P a c.
Proof.
  intros [e1 [H1 F1]] [e2 [H2 F2]]. exists (app e1 e2).
  rewrite H2, H1, app_assoc. split; trivial. now apply Forall_app.
Qed.

Lemma log_grows_log l (s : state W) : P l -> log_grows_by P s (add_log l s).
Proof. intros H. exists [l]. cbn. auto. Qed.

Lemma log_grows_same (s s' : state W) :
  log s' = log s -> log_grows_by P s s'.
Proof. intros H. exists []. now rewrite app_nil_r. Qed.

End Logs.

End Relations.

Create HintDb keeps.

#[local] Hint Resolve only_set_refl only_set_trans only_set_set : keeps.
#[local] Hint Extern 2 (only_set _ _) => (apply only_set_same; reflexivity) : keeps.

#[local] Hint Resolve flag_stays_refl flag_stays_trans flag_stays_set
  same_registry_refl same_registry_trans
  calls_grow_refl calls_grow_trans calls_grow_call
  log_grows_refl log_grows_trans log_grows_log : keeps.

#[local] Hint Extern 1 (flag_stays _ _) => (intros ?; cbn; assumption) : keeps.
#[local] Hint Extern 1 (same_registry _ _) => reflexivity : keeps.
#[local] Hint Extern 2 (calls_grow_by _ _ _) => (apply calls_grow_same; reflexivity) : keeps.
#[local] Hint Extern 2 (log_grows_by _ _ _) => (apply log_grows_same; reflexivity) : keeps.

(** Discharges the closure properties a [keeps_] lemma asks for. *)
Ltac kept := unfold allowed_Spawn; intros; eauto 3 with keeps.

Section Kept.

Context {W : Type} {platform : Platform W}.

(** No step of the script clears the shutdown event. *)
Lemma flag_stays_main fuel inv (s : state W) : flag_stays s (snd (main fuel inv s)).
Proof. apply (keeps_main flag_stays (fun _ => True)); kept. Qed.

Lemma flag_stays_async_main fuel inv (s : state W) :
  flag_stays s (snd (async_main fuel inv s)).
Proof. apply (keeps_async_main flag_stays (fun _ => True)); kept. Qed.

Lemma flag_stays_run_command command name (s : state W) :
  flag_stays s (snd (run_command command name s)).
Proof. apply (keeps_run_command flag_stays (fun _ => True)); kept. Qed.

Lemma flag_stays_cleanup (s : state W) : flag_stays s (snd (cleanup s)).
Proof. apply (keeps_cleanup flag_stays (fun _ => True)); kept. Qed.

Lemma flag_stays_monitor_processes fuel (s : state W) :
  flag_stays s (snd (monitor_processes fuel s)).
Proof.
  apply (keeps_monitor_processes flag_stays (fun _ => True)); kept.
Qed.

(** Every write of the script to the shutdown event sets it. *)
Lemma only_set_main fuel inv (s : state W) : only_set s (snd (main fuel inv s)).
Proof. apply (keeps_main only_set (fun _ => True)); kept. Qed.

Lemma only_set_async_main fuel inv (s : state W) :
  only_set s (snd (async_main fuel inv s)).
Proof. apply (keeps_async_main only_set (fun _ => True)); kept. Qed.

Lemma only_set_run_command command name (s : state W) :
  only_set s (snd (run_command command name s)).
Proof. apply (keeps_run_command only_set (fun _ => True)); kept. Qed.

Lemma only_set_cleanup (s : state W) : only_set s (snd (cleanup s)).
Proof. apply (keeps_cleanup only_set (fun _ => True)); kept. Qed.

Lemma only_set_monitor_processes fuel (s : state W) :
  only_set s (snd (monitor_processes fuel s)).
Proof. apply (keeps_monitor_processes only_set (fun _ => True)); kept. Qed.

(** The monitor loop asks the platform for nothing but [poll()] and
    sleeps. *)
Lemma monitor_processes_polls_and_sleeps fuel (s : state W) :
  calls_grow_by is_Poll_or_Sleep s (snd (monitor_processes fuel s)).
Proof.
  apply (keeps_monitor_processes (calls_grow_by is_Poll_or_Sleep) is_Poll_or_Sleep);
    kept; exact I.
Qed.

(** The sweep and the monitor loop leave the registry as it is. *)
Lemma same_registry_monitor_iteration (s : state W) :
  same_registry s (snd (monitor_iteration s)).
Proof.
  apply (keeps_monitor_iteration same_registry (fun _ => True)); kept.
Qed.

Lemma same_registry_monitor_processes fuel (s : state W) :
  same_registry s (snd (monitor_processes fuel s)).
Proof.
  apply (keeps_monitor_processes same_registry (fun _ => True)); kept.
Qed.

(** On a platform that raises errors only, so do the calls of [cleanup]. *)
Lemma cleanup_calls_errors_only (s : state W) :
  raises_errors_only platform ->
  calls_grow_by error_or_return s (snd (cleanup s)).
Proof.
  intros [Ht [Hp [Hk Hs]]].
  apply (keeps_cleanup (calls_grow_by error_or_return) error_or_return);
    kept.
Qed.

End Kept.

(** ** The concrete platform raises errors only *)

Lemma sim_raises_errors_only : raises_errors_only Sim.platform.
Proof.
  unfold raises_errors_only, error_or_return. cbn.
  unfold Sim.sim_terminate, Sim.sim_poll, Sim.sim_kill, Sim.sim_sleep.
  repeat split; intros * H e He;
    destruct a as [x|e0]; cbn in He; try discriminate; injection He as <-;
    repeat match type of H with
           | context [match ?x with _ => _ end] => destruct x
           | context [if ?x then _ else _] => destruct x
           end;
    try discriminate; injection H as <-; reflexivity.
Qed.

(** ** What the specification says of cleanup *)

Section CleanupClaims.

Context {W : Type} {platform : Platform W}.

Lemma cleanup_no_error (s : state W) : no_error (fst (cleanup s)).
Proof.
  destruct (cleanup_run s) as [evs [logs [Ht _]]]. exact (teardown_result Ht).
Qed.

Lemma cleanup_same_registry (s : state W) : processes (snd (cleanup s)) = processes s.
Proof. destruct (cleanup_run s) as [evs [logs [_ [_ [_ H]]]]]. exact H. Qed.

(** When the platform raises errors only, [cleanup] returns. *)
Lemma cleanup_returns (s : state W) :
  raises_errors_only platform -> fst (cleanup s) = Ok tt.
Proof.
  intros Hp.
  destruct (cleanup_run s) as [evs [logs [Ht [Hc _]]]].
  destruct (cleanup_calls_errors_only s Hp) as [evs' [Hc' Hall]].
  rewrite Hc in Hc'. apply app_inv_head in Hc'. subst evs'.
  destruct (fst (cleanup s)) as [[]|e|].
  - reflexivity.
  - destruct (teardown_interrupt Ht) as [ev [Hin [Hraised He]]].
    rewrite Forall_forall in Hall. specialize (Hall ev Hin e Hraised). congruence.
  - destruct (teardown_result Ht).
Qed.

(** C1.  Whatever the state of the registry and of the registered processes
    (exited ones included), and whatever the platform answers: two calls of
    cleanup in sequence each end without a raised error, and each leaves
    the registry exactly as it found it; when the platform raises nothing
    but errors, both calls return. *)
Theorem cleanup_idempotent (s : state W) :
  no_error (fst (cleanup s)) /\
  no_error (fst (cleanup (snd (cleanup s)))) /\
  processes (snd (cleanup s)) = processes s /\
  processes (snd (cleanup (snd (cleanup s)))) = processes (snd (cleanup s)) /\
  (raises_errors_only platform ->
   fst (cleanup s) = Ok tt /\ fst (cleanup (snd (cleanup s))) = Ok tt).
Proof.
  repeat split; auto using cleanup_no_error, cleanup_same_registry, cleanup_returns.
Qed.

(** C2.  On a platform that raises errors only, cleanup returns, it has
    requested the termination of every registered process, once each and in
    registry order, whichever of the requests raised, and the error of a
    request that raised is in the log under the name of its process. *)
Theorem cleanup_isolates_failures (s : state W) :
  raises_errors_only platform ->
  exists evs logs,
    fst (cleanup s) = Ok tt /\
    calls (snd (cleanup s)) = app (calls s) evs /\
    log (snd (cleanup s)) = app (log s) logs /\
    map fst (terminations evs) = handles (processes s) /\
    forall k name info e,
      nth_error (processes s) k = Some (name, info) ->
      nth_error (terminations evs) k = Some (process info, Raised e) ->
      In (ERROR, "Error terminating process " ++ name ++ ": " ++ str e) logs.
Proof.
  intros Hp. pose proof (cleanup_returns s Hp) as Hok.
  destruct (cleanup_run s) as [evs [logs [Ht [Hc [Hl _]]]]].
  rewrite Hok in Ht, Hl.
  destruct (teardown_terminations Ht) as [Hall Herr].
  exists evs, (app logs [(SUCCESS, "Cleanup completed successfully")]).
  repeat split; trivial.
  intros k name info e Hk He. apply in_or_app. left. eapply Herr; eassumption.
Qed.

(** C3.  The calls and the log entries of cleanup are a teardown of the
    registry: for every registered process, in registry order, a request for
    graceful termination, a wait of one second, a poll, and a forced kill
    exactly when the poll found the process still running, between the
    announcement and the entry that reports success or the error.  A forced
    kill is requested for the processes found still running and for no
    other; and when no call raises, cleanup returns, termination was
    requested for every registered process, and each has its entry of
    success. *)
Theorem cleanup_tears_down_in_registry_order (s : state W) :
  exists evs logs,
    teardown (processes s) evs logs (fst (cleanup s)) /\
    calls (snd (cleanup s)) = app (calls s) evs /\
    log (snd (cleanup s)) =
      app (log s)
        (app logs
           match fst (cleanup s) with
           | Ok _ => [(SUCCESS, "Cleanup completed successfully")]
           | _ => []
           end) /\
    kills evs = still_running evs /\
    ((forall ev, In ev evs -> raised ev = None) ->
     fst (cleanup s) = Ok tt /\
     map fst (terminations evs) = handles (processes s) /\
     logs = success_entries (processes s)).
Proof.
  destruct (cleanup_run s) as [evs [logs [Ht [Hc [Hl _]]]]]. exists evs, logs.
  repeat split; trivial.
  - exact (teardown_kills Ht).
  - now destruct (teardown_no_raise Ht).
  - destruct (teardown_no_raise Ht) as [Hr _]; trivial.
    rewrite Hr in Ht. now destruct (teardown_terminations Ht).
  - now destruct (teardown_no_raise Ht).
Qed.

End CleanupClaims.

(** On the concrete platform: a bot whose [terminate()] raises and a meeting
    that exits on SIGTERM. *)
Lemma cleanup_isolates_failures_witness :
  exists evs logs,
    fst (cleanup (Sim.started (Sim.with_unsignalable ["bot"] Sim.fresh))) = Ok tt /\
    calls (snd (cleanup (Sim.started (Sim.with_unsignalable ["bot"] Sim.fresh)))) =
      app (calls (Sim.started (Sim.with_unsignalable ["bot"] Sim.fresh))) evs /\
    log (snd (cleanup (Sim.started (Sim.with_unsignalable ["bot"] Sim.fresh)))) =
      app (log (Sim.started (Sim.with_unsignalable ["bot"] Sim.fresh))) logs /\
    map fst (terminations evs) =
      handles (processes (Sim.started (Sim.with_unsignalable ["bot"] Sim.fresh))) /\
    forall k name info e,
      nth_error (processes (Sim.started (Sim.with_unsignalable ["bot"] Sim.fresh))) k
        = Some (name, info) ->
      nth_error (terminations evs) k = Some (process info, Raised e) ->
      In (ERROR, "Error terminating process " ++ name ++ ": " ++ str e) logs.
Proof.
  exact (cleanup_isolates_failures
           (Sim.started (Sim.with_unsignalable ["bot"] Sim.fresh))
           sim_raises_errors_only).
Defined.

(** What that run looks like. *)
Example cleanup_after_failed_request :
  let s := Sim.started (Sim.with_unsignalable ["bot"] Sim.fresh) in
  calls (snd (cleanup s)) =
    app (calls s)
      [Terminate 0 (Raised (Exception_ OSError "[Errno 1] Operation not permitted"));
       Terminate 1 (Returned tt); Sleep (Returned tt); Poll 1 (Returned (Some (-15)%Z))] /\
  log (snd (cleanup s)) =
    [(INFO, "Terminating process: bot");
     (ERROR, "Error terminating process bot: [Errno 1] Operation not permitted");
     (INFO, "Terminating process: meeting");
     (SUCCESS, "Process meeting terminated successfully");
     (SUCCESS, "Cleanup completed successfully")].
Proof. split; reflexivity. Qed.

(** A process that ignores SIGTERM is killed after the wait; one that has
    exited is not. *)
Example cleanup_kills_the_stubborn :
  let s := Sim.started (Sim.with_stubborn ["bot"] Sim.fresh) in
  calls (snd (cleanup s)) =
    app (calls s)
      [Terminate 0 (Returned tt); Sleep (Returned tt); Poll 0 (Returned None);
       Kill 0 (Returned tt);
       Terminate 1 (Returned tt); Sleep (Returned tt); Poll 1 (Returned (Some (-15)%Z))].
Proof. reflexivity. Qed.

Lemma cleanup_idempotent_witness :
  no_error (fst (cleanup (Sim.started Sim.fresh))) /\
  no_error (fst (cleanup (snd (cleanup (Sim.started Sim.fresh))))) /\
  processes (snd (cleanup (Sim.started Sim.fresh))) = processes (Sim.started Sim.fresh) /\
  processes (snd (cleanup (snd (cleanup (Sim.started Sim.fresh))))) =
    processes (snd (cleanup (Sim.started Sim.fresh))) /\
  (raises_errors_only Sim.platform ->
   fst (cleanup (Sim.started Sim.fresh)) = Ok tt /\
   fst (cleanup (snd (cleanup (Sim.started Sim.fresh)))) = Ok tt).
Proof. exact (cleanup_idempotent (Sim.started Sim.fresh)). Defined.

(** On the concrete platform: a bot that ignores SIGTERM and a meeting that
    exits on it.  No call raises, and the bot alone is killed. *)
Lemma cleanup_tears_down_in_registry_order_witness :
  exists evs,
    calls (snd (cleanup (Sim.started (Sim.with_stubborn ["bot"] Sim.fresh)))) =
      app (calls (Sim.started (Sim.with_stubborn ["bot"] Sim.fresh))) evs /\
    kills evs = [0] /\
    fst (cleanup (Sim.started (Sim.with_stubborn ["bot"] Sim.fresh))) = Ok tt /\
    map fst (terminations evs) = [0; 1].
Proof.
  destruct (cleanup_tears_down_in_registry_order
              (Sim.started (Sim.with_stubborn ["bot"] Sim.fresh)))
    as [evs [logs [_ [Hc [_ [Hk Hok]]]]]].
  assert (He : evs =
    [Terminate 0 (Returned tt); Sleep (Returned tt); Poll 0 (Returned None);
     Kill 0 (Returned tt);
     Terminate 1 (Returned tt); Sleep (Returned tt); Poll 1 (Returned (Some (-15)%Z))]).
  { apply (app_inv_head (calls (Sim.started (Sim.with_stubborn ["bot"] Sim.fresh)))).
    rewrite <- Hc. vm_compute. reflexivity. }
  exists evs. split; [exact Hc | ].
  destruct Hok as [Hr [Ht _]].
  - rewrite He. intros ev Hin. cbn in Hin.
    repeat (destruct Hin as [<- | Hin]; [reflexivity | ]). destruct Hin.
  - split; [now rewrite He | split; [exact Hr | ]].
    rewrite Ht. vm_compute. reflexivity.
Defined.

(** ** The liveness sweep and the shutdown event *)

Section MonitorFacts.

Context {W : Type} {platform : Platform W}.

Local Arguments String.append : simpl never.

Ltac lists := repeat rewrite <- app_assoc; cbn [app]; try reflexivity.

(** One pass of the sweep's loop body: one [poll()], and a warning when
    the process has exited. *)
Lemma sweep_one_run (name : string) (info : process_info) (s : state W) :
  processes (snd (sweep_one (name, info) s)) = processes s /\
  shutdown_event (snd (sweep_one (name, info) s)) = shutdown_event s /\
  match fst (sweep_one (name, info) s) with
  | Ok _ =>
      exists code,
        calls (snd (sweep_one (name, info) s)) =
          app (calls s) [Poll (process info) (Returned code)] /\
        log (snd (sweep_one (name, info) s)) =
          app (log s) (exit_warnings [(name, info)] [code])
  | Raise e =>
      calls (snd (sweep_one (name, info) s)) =
        app (calls s) [Poll (process info) (Raised e)] /\
      log (snd (sweep_one (name, info) s)) = log s
  | OutOfFuel => False
  end.
Proof.
  destruct s as [reg flag sel hand lg cl wr w]. destruct info as [h cmd].
  unfold sweep_one, bind, process_poll, perform, logger, add_log, answered, ret, lift.
  cbn. destruct (poll h w) as [[[code|]|e] w1]; cbn.
  - repeat split. exists (Some code). cbn. auto.
  - repeat split. exists None. cbn. rewrite app_nil_r. auto.
  - auto.
Qed.

(** The loop of the sweep over a registry: it polls the processes in
    registry order, warns about those that have exited, requests nothing
    else from the platform, and leaves the registry and the shutdown event
    as they are.  A [poll()] that raises ends the pass. *)
Lemma for_each_sweep_one_run (reg : registry) (s : state W) :
  processes (snd (for_each reg sweep_one s)) = processes s /\
  shutdown_event (snd (for_each reg sweep_one s)) = shutdown_event s /\
  match fst (for_each reg sweep_one s) with
  | Ok _ =>
      exists codes,
        length codes = length reg /\
        calls (snd (for_each reg sweep_one s)) = app (calls s) (polls reg codes) /\
        log (snd (for_each reg sweep_one s)) = app (log s) (exit_warnings reg codes)
  | Raise e =>
      exists codes name info,
        nth_error reg (length codes) = Some (name, info) /\
        calls (snd (for_each reg sweep_one s)) =
          app (calls s) (app (polls reg codes) [Poll (process info) (Raised e)]) /\
        log (snd (for_each reg sweep_one s)) = app (log s) (exit_warnings reg codes)
  | OutOfFuel => False
  end.
Proof.
  revert s. induction reg as [|[name info] rest IH]; intros s.
  - cbn. repeat split. exists []. cbn. rewrite !app_nil_r. auto.
  - cbn [for_each]. unfold bind.
    destruct (sweep_one_run name info s) as [Hp [Hf Hres]].
    destruct (sweep_one (name, info) s) as [[[]|e|] s1]; cbn [fst snd] in *.
    + destruct Hres as [code [Hc Hl]].
      destruct (IH s1) as [Hp' [Hf' Hres']].
      rewrite Hp', Hf', Hp, Hf. repeat split.
      destruct (fst (for_each rest sweep_one s1)) as [[]|e|].
      * destruct Hres' as [codes [Hlen [Hc' Hl']]].
        exists (code :: codes). cbn [length]. rewrite Hlen, Hc', Hl', Hc, Hl.
        repeat split; destruct code; lists.
      * destruct Hres' as [codes [name' [info' [Hn [Hc' Hl']]]]].
        exists (code :: codes), name', info'. cbn [length nth_error].
        rewrite Hc', Hl', Hc, Hl. repeat split; trivial; destruct code; lists.
      * exact Hres'.
    + destruct Hres as [Hc Hl]. repeat split; trivial.
      exists [], name, info. cbn. rewrite Hl, app_nil_r. auto.
    + contradiction.
Qed.

(** One sleep: one call, nothing logged, the registry as it is. *)
Lemma sleep_1_run (s : state W) :
  exists a,
    calls (snd (sleep_1 s)) = app (calls s) [Sleep a] /\
    log (snd (sleep_1 s)) = log s /\
    processes (snd (sleep_1 s)) = processes s /\
    fst (sleep_1 s) = lift a.
Proof.
  unfold sleep_1. destruct (asyncio_sleep (world s)) as [[b a] w]. exists a.
  cbn [fst snd]. destruct (b && _); cbn; repeat split.
Qed.

(** One pass of the sweep, the [try] body of an iteration: it polls the
    registered processes in registry order, warns about each one that has
    exited, and sleeps; a [poll()] that raises ends the pass.  It asks
    nothing else of the platform, logs nothing else, and leaves the
    registry as it is. *)
Lemma sweep_run (s : state W) :
  processes (snd (sweep s)) = processes s /\
  ((exists codes a,
      length codes = length (processes s) /\
      calls (snd (sweep s)) = app (calls s) (app (polls (processes s) codes) [Sleep a]) /\
      log (snd (sweep s)) = app (log s) (exit_warnings (processes s) codes) /\
      fst (sweep s) = lift a)
   \/ (exists codes name info e,
         nth_error (processes s) (length codes) = Some (name, info) /\
         calls (snd (sweep s)) =
           app (calls s) (app (polls (processes s) codes) [Poll (process info) (Raised e)]) /\
         log (snd (sweep s)) = app (log s) (exit_warnings (processes s) codes) /\
         fst (sweep s) = Raise e)).
Proof.
  unfold sweep, bind, self_processes.
  destruct (for_each_sweep_one_run (processes s) s) as [Hp [_ Hres]].
  destruct (for_each (processes s) sweep_one s) as [[[]|e|] s1]; cbn [fst snd] in *.
  - destruct Hres as [codes [Hlen [Hc Hl]]].
    destruct (sleep_1_run s1) as [a [Hc' [Hl' [Hp' Hr']]]].
    destruct (sleep_1 s1) as [r s2]; cbn [fst snd] in *.
    assert (Hs2 : processes s2 = processes s) by congruence.
    assert (Hleft : exists codes a,
      length codes = length (processes s) /\
      calls s2 = app (calls s) (app (polls (processes s) codes) [Sleep a]) /\
      log s2 = app (log s) (exit_warnings (processes s) codes) /\
      r = lift a).
    { exists codes, a. rewrite Hc', Hl', Hc, Hl. repeat split; trivial. lists. }
    destruct r as [[]|e|]; cbn [fst snd]; (split; [exact Hs2 | left; exact Hleft]).
  - destruct Hres as [codes [name [info [Hn [Hc Hl]]]]]. split; [exact Hp | right].
    exists codes, name, info, e. repeat split; trivial.
  - contradiction.
Qed.

(** The warnings of a sweep are about registered processes. *)
Lemma exit_warnings_entries (reg reg' : registry) (codes : list (option Z)) :
  incl (map fst reg') (map fst reg) ->
  Forall (monitor_entry reg) (exit_warnings reg' codes).
Proof.
  revert codes. induction reg' as [|[name info] reg' IH]; intros codes Hincl; cbn.
  - constructor.
  - assert (Hrest : incl (map fst reg') (map fst reg)).
    { intros x Hx. apply Hincl. now right. }
    destruct codes as [|[code|] codes]; [constructor | | now apply IH].
    constructor; [ | now apply IH].
    left. exists name, code. split; trivial. apply Hincl. now left.
Qed.

Lemma sweep_log (s : state W) :
  log_grows_by (monitor_entry (processes s)) s (snd (sweep s)).
Proof.
  destruct (sweep_run s) as [_ [[codes [a [_ [_ [Hl _]]]]] | [codes [n [i [e [_ [_ [Hl _]]]]]]]]];
    exists (exit_warnings (processes s) codes); (split; [exact Hl | ]);
    apply exit_warnings_entries, incl_refl.
Qed.

(** One iteration logs exit warnings and, for an error, its entry. *)
Lemma monitor_iteration_log (s : state W) :
  log_grows_by (monitor_entry (processes s)) s (snd (monitor_iteration s)).
Proof.
  unfold monitor_iteration, try_except. unfold bind at 1.
  pose proof (sweep_log s) as [logs [Hl HF]].
  destruct (sweep s) as [[[]|e|] s1]; cbn [fst snd] in *.
  - exists logs. now split.
  - cbn [dispatch]. destruct (is_CancelledError e); [exists logs; now split | ].
    destruct (is_Exception e); [ | exists logs; now split].
    unfold bind, logger, ret. cbv beta iota.
    destruct (sleep_1_run (add_log (ERROR, "Error monitoring processes: " ++ str e) s1))
      as [a [_ [Hl' _]]].
    destruct (sleep_1 (add_log (ERROR, "Error monitoring processes: " ++ str e) s1))
      as [[[]|e'|] s2]; cbn [fst snd] in *;
      (exists (app logs [(ERROR, "Error monitoring processes: " ++ str e)]);
       split; [rewrite Hl'; cbn [log add_log]; rewrite Hl; lists | ];
       apply Forall_app; split; trivial; constructor; [right; now exists e | constructor]).
  - exists logs. now split.
Qed.

(** With the shutdown event set, the monitor loop starts no iteration. *)
Lemma monitor_processes_stops (fuel : nat) (s : state W) :
  shutdown_event s = true -> monitor_processes fuel s = (Ok tt, s).
Proof. intros H. destruct fuel; cbn; now rewrite H. Qed.

(** With the shutdown event set, the running phase returns at once: the
    monitor starts no iteration and the wait does not suspend. *)
Lemma run_until_shutdown_at_once (fuel : nat) (s : state W) :
  shutdown_event s = true ->
  run_until_shutdown fuel s = (Ok tt, set_shutdown_event true s).
Proof.
  intros H. unfold run_until_shutdown. rewrite (monitor_processes_stops fuel s H).
  unfold try_finally, try_except, shutdown_event_wait. now rewrite H.
Qed.

(** With the event clear, the loop runs one iteration and goes on as that
    iteration decided. *)
Lemma monitor_processes_step (fuel : nat) (s : state W) :
  shutdown_event s = false ->
  monitor_processes (S fuel) s =
    (f <- monitor_iteration ;;
     match f with
     | Continue => monitor_processes fuel
     | Break => ret tt
     end) s.
Proof. intros H. cbn. now rewrite H. Qed.

(** An error in the [try] body of an iteration is logged, the loop sleeps a
    second and goes on. *)
Lemma monitor_iteration_error (s s1 : state W) (e : exn) :
  (sweep ;; ret Continue) s = (Raise e, s1) ->
  is_Exception e = true ->
  monitor_iteration s =
    (sleep_1 ;; ret Continue)
      (add_log (ERROR, "Error monitoring processes: " ++ str e) s1).
Proof.
  intros Hs He. unfold monitor_iteration, try_except. rewrite Hs. cbn [dispatch].
  destruct e; try discriminate. reflexivity.
Qed.

(** The whole loop logs nothing but exit warnings about registered
    processes and the errors of its iterations. *)
Lemma monitor_processes_log (fuel : nat) (s : state W) :
  log_grows_by (monitor_entry (processes s)) s (snd (monitor_processes fuel s)).
Proof.
  revert s. induction fuel as [|fuel IH]; intros s.
  - cbn. destruct (shutdown_event s); apply log_grows_refl.
  - cbn [monitor_processes]. destruct (shutdown_event s); [apply log_grows_refl | ].
    unfold bind.
    pose proof (monitor_iteration_log s) as Hi.
    pose proof (same_registry_monitor_iteration s) as Hp. unfold same_registry in Hp.
    destruct (monitor_iteration s) as [[[|]|e|] s1]; cbn [fst snd] in *; trivial.
    eapply log_grows_trans; [exact Hi | ]. rewrite <- Hp. apply IH.
Qed.

Lemma sweep_raises (s s1 : state W) (e : exn) :
  sweep s = (Raise e, s1) -> (sweep ;; ret Continue) s = (Raise e, s1).
Proof. intros H. unfold bind at 1. now rewrite H. Qed.

End MonitorFacts.

Section MonitorClaims.

Context {W : Type} {platform : Platform W}.

Local Arguments String.append : simpl never.

(** The teardown of a process that has exited: the request returns, the
    poll after the wait finds the exit code, no kill is sent, and success is
    logged. *)
Lemma cleanup_one_exited (name : string) (info : process_info) (s : state W)
    (w1 w2 w3 : W) (b : bool) (code : Z) :
  terminate (process info) (world s) = (Returned tt, w1) ->
  asyncio_sleep w1 = (b, Returned tt, w2) ->
  poll (process info) w2 = (Returned (Some code), w3) ->
  fst (cleanup_one (name, info) s) = Ok tt /\
  calls (snd (cleanup_one (name, info) s)) =
    app (calls s)
      [Terminate (process info) (Returned tt); Sleep (Returned tt);
       Poll (process info) (Returned (Some code))] /\
  log (snd (cleanup_one (name, info) s)) =
    app (log s)
      [(INFO, "Terminating process: " ++ name);
       (SUCCESS, "Process " ++ name ++ " terminated successfully")].
Proof.
  destruct s as [reg flag sel hand lg cl wr w]. destruct info as [h cmd]. cbn.
  intros Ht Hs Hp.
  unfold cleanup_one, bind, logger, try_except, process_terminate, process_poll,
    perform, sleep_1, ret, lift, add_log, answered, signal_handler, set_shutdown_event.
  cbn. rewrite Ht. cbn. rewrite Hs. cbn.
  destruct (b && hand); cbn; rewrite Hp; cbn;
    repeat split; repeat rewrite <- app_assoc; reflexivity.
Qed.

Lemma monitor_processes_after_error (fuel : nat) (s s1 : state W) (e : exn) :
  shutdown_event s = false ->
  sweep s = (Raise e, s1) ->
  is_Exception e = true ->
  monitor_processes (S fuel) s =
    (sleep_1 ;; monitor_processes fuel)
      (add_log (ERROR, "Error monitoring processes: " ++ str e) s1).
Proof.
  intros Hf Hs He. rewrite (@monitor_processes_step W platform fuel s Hf).
  unfold bind at 1. rewrite (@monitor_iteration_error W platform s s1 e
                          (@sweep_raises W platform s s1 e Hs) He).
  unfold bind, ret.
  destruct (sleep_1 (add_log (ERROR, "Error monitoring processes: " ++ str e) s1))
    as [[[]|e'|] s2]; reflexivity.
Qed.

Lemma monitor_processes_in_flight (fuel : nat) (s s1 : state W) :
  shutdown_event s = false ->
  monitor_iteration s = (Ok Continue, s1) ->
  shutdown_event s1 = true ->
  monitor_processes (S fuel) s = (Ok tt, s1).
Proof.
  intros Hf Hi Hs1. rewrite (@monitor_processes_step W platform fuel s Hf).
  unfold bind. rewrite Hi. now apply monitor_processes_stops.
Qed.

(** C4.  Every write of the script to the shutdown event sets it: over a
    run of [main], [async_main], [run_command], [cleanup],
    [monitor_processes] or the signal handler, from any state, the history
    of the event grows by writes of [True] only, and the event is set
    afterwards exactly when it was set before or was written to.  So no run
    clears the event at any point, and the event changes at most once, from
    clear to set; in particular, set before any of these, it is set after.
    With the event set the monitor loop returns at once, without a call or
    a log entry, the wait of the main flow returns without suspending, and
    so the running phase as a whole asks nothing of the platform;
    and when an iteration that began with the event clear ends with it
    set, the loop returns after that iteration. *)
Theorem shutdown_event_is_set_once :
  (forall fuel inv command name (s : state W),
     only_set s (snd (main fuel inv s)) /\
     only_set s (snd (async_main fuel inv s)) /\
     only_set s (snd (run_command command name s)) /\
     only_set s (snd (cleanup s)) /\
     only_set s (snd (monitor_processes fuel s)) /\
     only_set s (signal_handler s)) /\
  (forall fuel inv command name (s : state W),
     shutdown_event s = true ->
     shutdown_event (snd (main fuel inv s)) = true /\
     shutdown_event (snd (async_main fuel inv s)) = true /\
     shutdown_event (snd (run_command command name s)) = true /\
     shutdown_event (snd (cleanup s)) = true /\
     shutdown_event (snd (monitor_processes fuel s)) = true /\
     shutdown_event (signal_handler s) = true) /\
  (forall fuel (s : state W),
     shutdown_event s = true ->
     monitor_processes fuel s = (Ok tt, s) /\
     shutdown_event_wait s = (Ok tt, s) /\
     run_until_shutdown fuel s = (Ok tt, set_shutdown_event true s)) /\
  (forall fuel (s s1 : state W),
     shutdown_event s = false ->
     monitor_iteration s = (Ok Continue, s1) ->
     shutdown_event s1 = true ->
     monitor_processes (S fuel) s = (Ok tt, s1)).
Proof.
  split; [ | split; [ | split]].
  - intros fuel inv command name s. repeat split.
    + apply only_set_main.
    + apply only_set_async_main.
    + apply only_set_run_command.
    + apply only_set_cleanup.
    + apply only_set_monitor_processes.
    + apply only_set_set.
  - intros fuel inv command name s H. repeat split.
    + now apply flag_stays_main.
    + now apply flag_stays_async_main.
    + now apply flag_stays_run_command.
    + now apply flag_stays_cleanup.
    + now apply flag_stays_monitor_processes.
  - intros fuel s H. split; [now apply monitor_processes_stops | split].
    + unfold shutdown_event_wait. now rewrite H.
    + now apply run_until_shutdown_at_once.
  - apply monitor_processes_in_flight.
Qed.

(** C5.  One pass of the sweep polls every registered process in registry
    order and does nothing else to it: it logs a warning with the name and
    the exit code for each process that has exited, sleeps, and leaves the
    registry as it is; a [poll()] that raises ends the pass.  An error
    raised in an iteration is logged, the loop sleeps a second and goes on
    with the next iteration.  The monitor loop as a whole leaves the
    registry as it is, asks the platform for nothing but [poll()] and
    sleeps, logs nothing but exit warnings about registered processes and
    the errors of its iterations, and a cleanup after it ends without a
    raised error; the teardown of a process that has exited returns and
    logs success without a kill. *)
Theorem sweep_is_non_fatal :
  (forall s : state W,
     processes (snd (sweep s)) = processes s /\
     ((exists codes a,
         length codes = length (processes s) /\
         calls (snd (sweep s)) =
           app (calls s) (app (polls (processes s) codes) [Sleep a]) /\
         log (snd (sweep s)) = app (log s) (exit_warnings (processes s) codes) /\
         fst (sweep s) = lift a)
      \/ (exists codes name info e,
            nth_error (processes s) (length codes) = Some (name, info) /\
            calls (snd (sweep s)) =
              app (calls s)
                (app (polls (processes s) codes) [Poll (process info) (Raised e)]) /\
            log (snd (sweep s)) = app (log s) (exit_warnings (processes s) codes) /\
            fst (sweep s) = Raise e))) /\
  (forall fuel (s s1 : state W) e,
     shutdown_event s = false ->
     sweep s = (Raise e, s1) ->
     is_Exception e = true ->
     monitor_processes (S fuel) s =
       (sleep_1 ;; monitor_processes fuel)
         (add_log (ERROR, "Error monitoring processes: " ++ str e) s1)) /\
  (forall fuel (s : state W),
     processes (snd (monitor_processes fuel s)) = processes s /\
     calls_grow_by is_Poll_or_Sleep s (snd (monitor_processes fuel s)) /\
     log_grows_by (monitor_entry (processes s)) s (snd (monitor_processes fuel s)) /\
     no_error (fst (cleanup (snd (monitor_processes fuel s))))) /\
  (forall name info (s : state W) w1 w2 w3 b code,
     terminate (process info) (world s) = (Returned tt, w1) ->
     asyncio_sleep w1 = (b, Returned tt, w2) ->
     poll (process info) w2 = (Returned (Some code), w3) ->
     fst (cleanup_one (name, info) s) = Ok tt /\
     calls (snd (cleanup_one (name, info) s)) =
       app (calls s)
         [Terminate (process info) (Returned tt); Sleep (Returned tt);
          Poll (process info) (Returned (Some code))] /\
     log (snd (cleanup_one (name, info) s)) =
       app (log s)
         [(INFO, "Terminating process: " ++ name);
          (SUCCESS, "Process " ++ name ++ " terminated successfully")]).
Proof.
  split; [ | split; [ | split]].
  - intros s. apply sweep_run.
  - apply monitor_processes_after_error.
  - intros fuel s. split; [ | split; [ | split]].
    + apply same_registry_monitor_processes.
    + apply monitor_processes_polls_and_sleeps.
    + apply monitor_processes_log.
    + apply cleanup_no_error.
  - intros. eapply cleanup_one_exited; eassumption.
Qed.

End MonitorClaims.


(** On the concrete platform: a whole run from a clear event, during which
    SIGINT arrives; the event set before a run of everything; and an
    iteration during which SIGINT arrives. *)
Lemma shutdown_event_is_set_once_witness :
  (only_set (BotManager Sim.fresh)
     (snd (main 5 (Sim.invocation (Some "alpha") (Some "https://meet.example/abc"))
             (BotManager Sim.fresh))) /\
   event_writes
     (snd (main 5 (Sim.invocation (Some "alpha") (Some "https://meet.example/abc"))
             (BotManager Sim.fresh))) = [true; true]) /\
  (shutdown_event (signal_handler (Sim.started Sim.fresh)) = true /\
   shutdown_event
     (snd (main 5 (Sim.invocation (Some "alpha") (Some "https://meet.example/abc"))
             (signal_handler (Sim.started Sim.fresh)))) = true) /\
  monitor_processes 5 (signal_handler (Sim.started Sim.fresh))
    = (Ok tt, signal_handler (Sim.started Sim.fresh)) /\
  monitor_processes 1
      (set_signal_handlers true (Sim.started (Sim.with_signal_in (Some 0) Sim.fresh)))
    = (Ok tt,
       snd (monitor_iteration
              (set_signal_handlers true
                 (Sim.started (Sim.with_signal_in (Some 0) Sim.fresh))))).
Proof.
  destruct (@shutdown_event_is_set_once Sim.os Sim.platform) as [H0 [H1 [H2 H3]]].
  split; [ | split; [ | split]].
  - split; [ | vm_compute; reflexivity].
    apply (H0 5 (Sim.invocation (Some "alpha") (Some "https://meet.example/abc")) [] ""
             (BotManager Sim.fresh)).
  - split; [vm_compute; reflexivity | ].
    apply (H1 5 (Sim.invocation (Some "alpha") (Some "https://meet.example/abc")) [] ""
             (signal_handler (Sim.started Sim.fresh))).
    vm_compute; reflexivity.
  - apply (H2 5 (signal_handler (Sim.started Sim.fresh))). vm_compute; reflexivity.
  - apply H3; vm_compute; reflexivity.
Defined.

(** On the concrete platform: a pass of the sweep over a bot that has
    exited with code 1 and a running meeting; an iteration in which
    [poll()] raises; the teardown of the exited bot. *)
Lemma sweep_is_non_fatal_witness :
  (calls (snd (sweep Sim.bot_exited)) =
     [Poll 0 (Returned (Some 1%Z)); Poll 1 (Returned None); Sleep (Returned tt)] /\
   log (snd (sweep Sim.bot_exited)) =
     [(WARNING, "Process bot exited with code: 1")]) /\
  monitor_processes 3 Sim.ghost =
    (sleep_1 ;; monitor_processes 2)
      (add_log (ERROR, "Error monitoring processes: [Errno 3] No such process")
         (snd (sweep Sim.ghost))) /\
  log (snd (cleanup_one ("bot", {| process := 0; command := ["poetry"; "run"; "bot"] |})
              Sim.bot_exited)) =
    [(INFO, "Terminating process: bot"); (SUCCESS, "Process bot terminated successfully")].
Proof.
  destruct (@sweep_is_non_fatal Sim.os Sim.platform) as [H1 [H2 [_ H4]]].
  split; [ | split].
  - destruct (H1 Sim.bot_exited) as [_ H]. split; vm_compute; reflexivity.
  - apply (H2 2 Sim.ghost (snd (sweep Sim.ghost))
             (Exception_ OSError "[Errno 3] No such process")); vm_compute; reflexivity.
  - eapply (H4 "bot" {| process := 0; command := ["poetry"; "run"; "bot"] |}
              Sim.bot_exited); vm_compute; reflexivity.
Defined.

(** ** run_command and the registry *)

Section RegistryFacts.

Lemma dict_get_set_same (d : registry) (k : string) (v : process_info) :
  dict_get (dict_set d k v) k = Some v.
Proof.
  induction d as [|[k' v'] d IH]; cbn.
  - now rewrite String.eqb_refl.
  - destruct (String.eqb k' k) eqn:E; cbn; rewrite E; trivial.
Qed.

Lemma dict_set_length (d : registry) (k : string) (v old : process_info) :
  dict_get d k = Some old -> length (dict_set d k v) = length d.
Proof.
  induction d as [|[k' v'] d IH]; cbn; [discriminate | ].
  destruct (String.eqb k' k); cbn; auto.
Qed.

Lemma dict_get_handles (d : registry) (k : string) (v : process_info) :
  dict_get d k = Some v -> In (process v) (handles d).
Proof.
  induction d as [|[k' v'] d IH]; cbn; [discriminate | ].
  destruct (String.eqb k' k).
  - intros H. injection H as ->. now left.
  - auto.
Qed.

(** Overwriting the entry of a key drops the handle it held, when every
    handle is registered once and the new one is another object. *)
Lemma dict_set_drops (d : registry) (k : string) (v old : process_info) :
  dict_get d k = Some old ->
  NoDup (handles d) ->
  process old <> process v ->
  ~ In (process old) (handles (dict_set d k v)).
Proof.
  induction d as [|[k' v'] d IH]; cbn; [discriminate | ].
  intros Hget Hnd Hneq. inversion Hnd as [|x l Hnot Hnd']; subst.
  destruct (String.eqb k' k); cbn.
  - injection Hget as ->. intros [H | H]; [congruence | contradiction].
  - intros [H | H].
    + apply Hnot. rewrite H. eapply dict_get_handles, Hget.
    + now apply IH in H.
Qed.

End RegistryFacts.

Section RunCommandFacts.

Context {W : Type} {platform : Platform W}.

Local Arguments String.append : simpl never.

Ltac lists := repeat rewrite <- app_assoc; cbn [app]; try reflexivity.

(** Every way [run_command] can go, by what [Popen] answered ([a]) and by
    its result. *)
Lemma run_command_run (command : list string) (name : string) (s : state W) :
  exists a threads,
    calls (snd (run_command command name s)) = app (calls s) (Spawn command a :: threads) /\
    Forall (fun ev => exists h fd b, ev = StartThread h fd b) threads /\
    shutdown_event (snd (run_command command name s)) = shutdown_event s /\
    match fst (run_command command name s) with
    | Ok (Some h) =>
        a = Returned h /\
        threads = [StartThread h stdout (Returned tt); StartThread h stderr (Returned tt)] /\
        processes (snd (run_command command name s)) =
          dict_set (processes s) name {| process := h; command := command |} /\
        log (snd (run_command command name s)) = log s
    | Ok None =>
        processes (snd (run_command command name s)) = processes s /\
        exists e,
          is_Exception e = true /\
          (a = Raised e /\ threads = [] \/ exists h, a = Returned h) /\
          log (snd (run_command command name s)) =
            app (log s)
              [(ERROR, "Failed to start " ++ name ++ ": " ++ str e);
               (ERROR, format_exception e)]
    | Raise e =>
        processes (snd (run_command command name s)) = processes s /\
        is_Exception e = false /\
        (a = Raised e /\ threads = [] \/ exists h, a = Returned h) /\
        log (snd (run_command command name s)) = log s
    | OutOfFuel => False
    end.
Proof.
  destruct s as [reg flag sel hand lg cl wr w].
  unfold run_command, try_except, bind, subprocess_Popen, start_relay, register,
    perform, logger, ret, lift, add_log, answered, set_processes.
  cbn. destruct (Popen command w) as [[h|e] w1]; cbn.
  2:{ exists (Raised e), []. destruct (is_Exception e) eqn:He; cbn;
      (split; [reflexivity | split; [constructor | split; [reflexivity | ]]]).
      - split; trivial. exists e. repeat split; auto. lists.
      - repeat split; auto. }
  destruct (Thread_start h stdout w1) as [[[]|e] w2]; cbn.
  2:{ exists (Returned h), [StartThread h stdout (Raised e)].
      destruct (is_Exception e) eqn:He; cbn;
      (split; [lists | split; [repeat constructor; eauto | split; [reflexivity | ]]]).
      - split; trivial. exists e. repeat split; eauto. lists.
      - repeat split; eauto. }
  destruct (Thread_start h stderr w2) as [[[]|e] w3]; cbn.
  2:{ exists (Returned h),
        [StartThread h stdout (Returned tt); StartThread h stderr (Raised e)].
      destruct (is_Exception e) eqn:He; cbn;
      (split; [lists | split; [repeat constructor; eauto | split; [reflexivity | ]]]).
      - split; trivial. exists e. repeat split; eauto. lists.
      - repeat split; eauto. }
  exists (Returned h),
    [StartThread h stdout (Returned tt); StartThread h stderr (Returned tt)].
  split; [lists | split; [repeat constructor; eauto | split; [reflexivity | ]]].
  repeat split.
Qed.

(** Between two runs of the registry, [cleanup] makes no call on a process
    that is not registered. *)
Lemma cleanup_leaves_unregistered (s : state W) (h : handle) :
  ~ In h (handles (processes s)) ->
  exists evs,
    calls (snd (cleanup s)) = app (calls s) evs /\
    forall a b, ~ In (Terminate h a) evs /\ ~ In (Kill h b) evs.
Proof.
  intros Hh. destruct (cleanup_run s) as [evs [logs [Ht [Hc _]]]].
  exists evs. split; trivial. intros a b.
  split; intros Hin; apply (teardown_handles Ht) in Hin; contradiction.
Qed.

(** C10.  When [run_command] returns a process for a name that the registry
    already holds, the entry of that name now holds the new process and the
    registry has as many entries as before; nothing is logged and the only
    calls are the spawn and the start of the two relays, so the process
    registered before is not terminated; it is no longer among the
    registered handles, and a cleanup after that requests neither its
    termination nor its kill.  When [run_command] does not return a
    process, the registry is as before. *)
Theorem run_command_overwrites (command : list string) (name : string) (s : state W) :
  (forall h old,
     fst (run_command command name s) = Ok (Some h) ->
     dict_get (processes s) name = Some old ->
     NoDup (handles (processes s)) ->
     process old <> h ->
     dict_get (processes (snd (run_command command name s))) name
       = Some {| process := h; command := command |} /\
     length (processes (snd (run_command command name s))) = length (processes s) /\
     log (snd (run_command command name s)) = log s /\
     calls (snd (run_command command name s)) =
       app (calls s)
         [Spawn command (Returned h);
          StartThread h stdout (Returned tt); StartThread h stderr (Returned tt)] /\
     ~ In (process old) (handles (processes (snd (run_command command name s)))) /\
     exists evs,
       calls (snd (cleanup (snd (run_command command name s)))) =
         app (calls (snd (run_command command name s))) evs /\
       forall a b, ~ In (Terminate (process old) a) evs /\ ~ In (Kill (process old) b) evs) /\
  ((forall h, fst (run_command command name s) <> Ok (Some h)) ->
   processes (snd (run_command command name s)) = processes s).
Proof.
  destruct (run_command_run command name s) as [a [threads [Hc [_ [_ Hres]]]]].
  split.
  - intros h old Hr Hold Hnd Hneq. rewrite Hr in Hres.
    destruct Hres as [-> [-> [Hp Hl]]].
    assert (Hdrop : ~ In (process old)
                      (handles (processes (snd (run_command command name s))))).
    { rewrite Hp. now apply dict_set_drops. }
    rewrite Hp at 1 2. rewrite dict_get_set_same, (dict_set_length _ _ _ Hold).
    repeat split; trivial.
    now apply cleanup_leaves_unregistered.
  - intros Hr. destruct (fst (run_command command name s)) as [[h|]|e|].
    + now destruct (Hr h).
    + apply Hres.
    + apply Hres.
    + contradiction.
Qed.

End RunCommandFacts.

(** On the concrete platform: "bot" is registered with process 0 and a
    second [run_command] under that name returns process 1; and a second
    [run_command] whose program is missing. *)
Lemma run_command_overwrites_witness :
  (dict_get (processes (snd (run_command ["poetry"; "run"; "bot"; "again"] "bot"
                                (Sim.restarted Sim.fresh)))) "bot"
     = Some {| process := 1; command := ["poetry"; "run"; "bot"; "again"] |} /\
   ~ In 0 (handles (processes (snd (run_command ["poetry"; "run"; "bot"; "again"] "bot"
                                      (Sim.restarted Sim.fresh)))))) /\
  processes (snd (run_command ["poetry"; "run"; "nobot"] "bot"
                    (Sim.restarted (Sim.with_missing ["nobot"] Sim.fresh))))
    = processes (Sim.restarted (Sim.with_missing ["nobot"] Sim.fresh)).
Proof.
  split.
  - destruct (run_command_overwrites ["poetry"; "run"; "bot"; "again"] "bot"
                (Sim.restarted Sim.fresh)) as [H _].
    destruct (H 1 {| process := 0; command := ["poetry"; "run"; "bot"] |})
      as [H1 [_ [_ [_ [H5 _]]]]].
    + vm_compute; reflexivity.
    + vm_compute; reflexivity.
    + vm_compute. repeat constructor. intros [].
    + cbn. lia.
    + split; assumption.
  - apply (run_command_overwrites ["poetry"; "run"; "nobot"] "bot"
             (Sim.restarted (Sim.with_missing ["nobot"] Sim.fresh))).
    intros h. vm_compute. discriminate.
Defined.

(** What the overwrite looks like: the registry before and after, and the
    calls of a cleanup after it, none of them on process 0. *)
Example run_command_orphans_the_old_process :
  let s := Sim.restarted Sim.fresh in
  let s' := snd (run_command ["poetry"; "run"; "bot"; "again"] "bot" s) in
  handles (processes s) = [0] /\
  handles (processes s') = [1] /\
  calls (snd (cleanup s')) =
    app (calls s')
      [Terminate 1 (Returned tt); Sleep (Returned tt); Poll 1 (Returned (Some (-15)%Z))].
Proof. vm_compute. repeat split. Qed.

(** ** The meeting URL *)

Section UrlFacts.

Context {W : Type} {platform : Platform W}.

Local Arguments String.append : simpl never.

(** Whatever [get_user_input] returns with [validate_url] starts with
    "https://": an input that does not is answered by a warning and another
    prompt. *)
Lemma get_user_input_validates (fuel : nat) (prompt url : string) (s s' : state W) :
  get_user_input fuel prompt (Some validate_url) s = (Ok url, s') ->
  PyStr.startswith url "https://" = true.
Proof.
  revert s. induction fuel as [|fuel IH]; intros s; [discriminate | ].
  cbn [get_user_input]. unfold bind at 1.
  destruct (py_input prompt s) as [[raw|e|] s1]; try discriminate.
  unfold bind at 1, try_except, validate_url, bind at 1.
  destruct (PyStr.startswith (PyStr.strip raw) "https://") eqn:E; cbn.
  - intros H. injection H as <- _. exact E.
  - apply IH.
Qed.

(** An input that does not start with "https://" is not fatal: a warning
    is logged and [input] is called again. *)
Lemma get_user_input_reprompts (fuel : nat) (prompt raw : string) (s : state W) (w1 : W) :
  input prompt (world s) = (Returned raw, w1) ->
  PyStr.startswith (PyStr.strip raw) "https://" = false ->
  get_user_input (S fuel) prompt (Some validate_url) s =
    get_user_input fuel prompt (Some validate_url)
      (add_log (WARNING, "Invalid input received: URL must start with https://")
         (answered (Input prompt (Returned raw)) w1 s)).
Proof.
  intros Hin Hbad. cbn [get_user_input]. unfold bind at 1, py_input, perform.
  rewrite Hin. cbn [lift].
  unfold bind at 1, try_except, validate_url, bind at 1. rewrite Hbad. reflexivity.
Qed.

(** A URL given on the command line is taken as it is: no check, no
    prompt, no log entry. *)
Lemma resolve_meeting_url_flag (fuel : nat) (args : Args) (s : state W) :
  truthy (arg_meeting_url args) = true ->
  resolve_meeting_url fuel args s = (Ok (value (arg_meeting_url args)), s).
Proof. intros H. unfold resolve_meeting_url. now rewrite H. Qed.

End UrlFacts.

(** C9 (where the script departs from the specification).  A URL read from the
    prompt is returned only when it starts with "https://", and one that
    does not is answered by a warning and a new prompt; but a URL given with
    [--meeting-url] is used unchecked, whatever it is.  On the concrete
    platform the run with [--meeting-url http://example.com/meet], which
    the parser accepts, starts both processes, hands that URL to the
    meeting process, and ends with exit status 0. *)
Theorem meeting_url_flag_is_not_validated :
  (forall W (platform : Platform W) fuel prompt url (s s' : state W),
     get_user_input fuel prompt (Some validate_url) s = (Ok url, s') ->
     PyStr.startswith url "https://" = true) /\
  (forall W (platform : Platform W) fuel args (s : state W),
     truthy (arg_meeting_url args) = true ->
     resolve_meeting_url fuel args s = (Ok (value (arg_meeting_url args)), s)) /\
  PyStr.startswith "http://example.com/meet" "https://" = false /\
  command_line (Sim.invocation (Some "alpha") (Some "http://example.com/meet")) =
    Returned (Sim.args (Some "alpha") (Some "http://example.com/meet")) /\
  spawns (calls (snd (main 5 (Sim.invocation (Some "alpha") (Some "http://example.com/meet"))
                        (BotManager Sim.fresh)))) =
    [bot_command 8765 "You are Alpha." "alpha";
     meeting_command "http://example.com/meet" "alpha"] /\
  exit_code (fst (main 5 (Sim.invocation (Some "alpha") (Some "http://example.com/meet"))
                    (BotManager Sim.fresh))) = Some 0%Z.
Proof.
  split; [ | split; [ | split; [ | split; [ | split]]]].
  - intros. eapply get_user_input_validates; eassumption.
  - intros. now apply resolve_meeting_url_flag.
  - reflexivity.
  - vm_compute; reflexivity.
  - vm_compute; reflexivity.
  - vm_compute; reflexivity.
Qed.

(** ** The persona *)

Section PersonaFacts.

Context {W : Type} {platform : Platform W}.

Local Arguments String.append : simpl never.

Lemma spawns_app (evs evs' : list event) :
  spawns (app evs evs') = app (spawns evs) (spawns evs').
Proof.
  induction evs as [|ev evs IH]; cbn; trivial.
  destruct ev; cbn; now rewrite ?IH.
Qed.

Lemma spawns_not_Spawn (evs : list event) : Forall not_Spawn evs -> spawns evs = [].
Proof.
  induction 1 as [|ev evs H _ IH]; cbn; trivial. destruct ev; cbn in *; tauto.
Qed.

Lemma py_in_In (x : string) (l : list string) : py_in x l = true <-> In x l.
Proof.
  unfold py_in. rewrite existsb_exists. split.
  - intros [y [Hy E]]. apply String.eqb_eq in E. now subst.
  - intros H. exists x. split; trivial. apply String.eqb_refl.
Qed.

(** The [finally] of the session spawns nothing and keeps what is logged. *)
Lemma session_finally_spawns_nothing (s : state W) :
  calls_grow_by not_Spawn s
    (snd ((cleanup ;; logger SUCCESS "Cleanup completed successfully") s)).
Proof.
  apply (keeps_session_finally (calls_grow_by not_Spawn) not_Spawn); kept; exact I.
Qed.









End PersonaFacts.



(** ** A failed start of the bot *)

Section StartupFacts.

Context {W : Type} {platform : Platform W}.

Local Arguments String.append : simpl never.

Ltac lists := repeat rewrite <- app_assoc; cbn [app]; try reflexivity.

Lemma quiet_refl (s : state W) : quiet s s.
Proof. split; reflexivity. Qed.

Lemma quiet_trans (a b c : state W) : quiet a b -> quiet b c -> quiet a c.
Proof. intros [H1 H2] [H3 H4]. split; congruence. Qed.

Lemma quiet_logger sev msg (s : state W) : quiet s (snd (logger sev msg s)).
Proof. split; reflexivity. Qed.

Lemma quiet_select_persona args (s : state W) : quiet s (snd (select_persona args s)).
Proof.
  apply (keeps_select_persona quiet);
    first [ apply quiet_refl | apply quiet_trans | intros; split; reflexivity ].
Qed.

Lemma quiet_call_get_persona name (s : state W) : quiet s (snd (call_get_persona name s)).
Proof.
  apply (keeps_call_get_persona quiet); intros; split; reflexivity.
Qed.

Lemma not_failed_bot_spawn_meeting url name a :
  not_failed_bot_spawn (Spawn (meeting_command url name) a).
Proof. intros port q n e H. discriminate H. Qed.

Lemma not_failed_bot_spawn_not_Spawn ev : not_Spawn ev -> not_failed_bot_spawn ev.
Proof. intros H port q n e ->. exact H. Qed.

Lemma not_failed_bot_spawn_Input ev : is_Input ev -> not_failed_bot_spawn ev.
Proof. intros H port q n e ->. exact H. Qed.

(** An empty registry: [cleanup] only logs its closing entry. *)
Lemma cleanup_empty (s : state W) :
  processes s = [] ->
  cleanup s = (Ok tt, add_log (SUCCESS, "Cleanup completed successfully") s).
Proof.
  intros H. unfold cleanup, try_except, bind, self_processes. rewrite H. reflexivity.
Qed.

Lemma session_finally_empty (s : state W) :
  processes s = [] ->
  (cleanup ;; logger SUCCESS "Cleanup completed successfully") s =
    (Ok tt,
     add_log (SUCCESS, "Cleanup completed successfully")
       (add_log (SUCCESS, "Cleanup completed successfully") s)).
Proof. intros H. unfold bind. rewrite (cleanup_empty s H). reflexivity. Qed.

(** A step that makes no call, in front of the rest of the session. *)
Lemma session_outcome_bind {A} (m : M W A) (k : A -> M W unit) (s : state W) :
  (forall s0, quiet s0 (snd (m s0))) ->
  (forall a s1, session_outcome s1 (k a s1)) ->
  session_outcome s (bind m k s).
Proof.
  intros Hm Hk. unfold bind. specialize (Hm s).
  destruct (m s) as [[a|e|] s1]; cbn [snd] in Hm; try (left; exact Hm).
  destruct Hm as [Hc Hp]. specialize (Hk a s1).
  unfold session_outcome, quiet in *. rewrite Hc, Hp in Hk. exact Hk.
Qed.

(** What follows the start of the bot makes no failed spawn of the bot. *)
Lemma after_bot_calls fuel url name (bot_process : option handle) (s : state W) :
  calls_grow_by not_failed_bot_spawn s
    (snd (match bot_process with
          | None => logger ERROR "Failed to start bot"
          | Some _ =>
              sleep_1 ;;
              meeting_process <- run_command (meeting_command url name) "meeting" ;;
              match meeting_process with
              | None => logger ERROR "Failed to start meeting"
              | Some _ =>
                  logger SUCCESS "Successfully started bot and meeting processes" ;;
                  logger INFO "Press Ctrl+C to stop all processes" ;;
                  run_until_shutdown fuel
              end
          end s)).
Proof.
  apply (keeps_after_bot (calls_grow_by not_failed_bot_spawn) not_failed_bot_spawn);
    kept; try (apply calls_grow_call);
    try apply not_failed_bot_spawn_meeting;
    apply not_failed_bot_spawn_not_Spawn; exact I.
Qed.

(** The start of the bot and what follows it. *)
Lemma session_outcome_bot fuel url port bot_prompt name (s : state W) :
  session_outcome s
    ((bot_process <- run_command (bot_command port bot_prompt name) "bot" ;;
      match bot_process with
      | None => logger ERROR "Failed to start bot"
      | Some _ =>
          sleep_1 ;;
          meeting_process <- run_command (meeting_command url name) "meeting" ;;
          match meeting_process with
          | None => logger ERROR "Failed to start meeting"
          | Some _ =>
              logger SUCCESS "Successfully started bot and meeting processes" ;;
              logger INFO "Press Ctrl+C to stop all processes" ;;
              run_until_shutdown fuel
          end
      end) s).
Proof.
  unfold bind at 1.
  destruct (run_command_run (bot_command port bot_prompt name) "bot" s)
    as [a [threads [Hc [Hth [_ Hres]]]]].
  assert (Hth' : Forall not_failed_bot_spawn threads).
  { eapply Forall_impl; [ | exact Hth]. intros ev [h [fd [b ->]]] ? ? ? ? H. discriminate H. }
  destruct (run_command (bot_command port bot_prompt name) "bot" s) as [r s1].
  cbn [fst snd] in *.
  destruct r as [[h|]|e|].
  - destruct Hres as [-> _]. right. right.
    pose proof (after_bot_calls fuel url name (Some h) s1) as [evs [He Hall]].
    exists port, bot_prompt, name, h, (app threads evs).
    rewrite He, Hc. split; [lists | now apply Forall_app].
  - destruct Hres as [Hp [e [He [[[-> ->] | [h ->]] Hl]]]].
    + right. left. exists port, bot_prompt, name, e. cbn. repeat split; trivial.
      exists (app (log s)
                [(ERROR, "Failed to start " ++ "bot" ++ ": " ++ str e);
                 (ERROR, format_exception e)]).
      now rewrite Hl.
    + right. right. exists port, bot_prompt, name, h, threads. cbn. auto.
  - destruct Hres as [Hp [He [[[-> ->] | [h ->]] Hl]]].
    + right. left. exists port, bot_prompt, name, e. cbn. repeat split; trivial.
      congruence. congruence.
    + right. right. exists port, bot_prompt, name, h, threads. cbn. auto.
  - contradiction.
Qed.

Lemma session_outcome_session fuel args url (s : state W) :
  session_outcome s (session fuel args url s).
Proof.
  unfold session.
  apply session_outcome_bind; [apply quiet_logger | intros _ s1].
  apply session_outcome_bind; [apply quiet_select_persona | intros name s2].
  apply session_outcome_bind; [apply quiet_call_get_persona | intros p s3].
  apply session_outcome_bind; [apply quiet_logger | intros _ s4].
  apply session_outcome_bind; [apply quiet_logger | intros _ s5].
  apply session_outcome_bot.
Qed.

Lemma startup_outcome_base (s s0 : state W) rs :
  calls s0 = calls s -> startup_outcome s0 rs -> startup_outcome s rs.
Proof. intros H. unfold startup_outcome, calls_grow_by. now rewrite H. Qed.

(** Further steps that make no call and keep the registry, and that do
    nothing at all to a run that has returned, keep the outcome. *)
Lemma startup_outcome_wrap (s : state W) (rs rs' : result unit * state W) :
  calls (snd rs') = calls (snd rs) ->
  processes (snd rs') = processes (snd rs) ->
  (fst rs = Ok tt -> rs' = rs) ->
  startup_outcome s rs -> startup_outcome s rs'.
Proof.
  intros Hc Hp Hok [H | [inputs [port [q [n [e [Hi [Hcalls [Hreg Hres]]]]]]]]].
  - left. unfold calls_grow_by in *. now rewrite Hc.
  - right. exists inputs, port, q, n, e. rewrite Hc, Hp. repeat split; trivial;
      destruct (Hres H) as [Hr Hl]; rewrite (Hok Hr); trivial.
Qed.

(** The [except] clauses of the session only log. *)
Lemma session_handlers_run (r : result unit) (s1 : state W) :
  exists r2 s2,
    match r with
    | Raise e =>
        dispatch
          [(is_KeyboardInterrupt,
            fun _ => logger INFO (newline ++ "Received shutdown signal (Ctrl+C)"));
           (is_Exception, fun e => logger ERROR ("Unexpected error: " ++ str e))] e s1
    | _ => (r, s1)
    end = (r2, s2) /\
    quiet s1 s2 /\
    (r = Ok tt -> r2 = Ok tt /\ s2 = s1) /\
    (r2 = OutOfFuel -> r = OutOfFuel).
Proof.
  destruct r as [[]|e|].
  - exists (Ok tt), s1. repeat split; trivial.
  - destruct e; cbn; eexists; eexists; (split; [reflexivity | ]);
      repeat split; try discriminate.
  - exists OutOfFuel, s1. repeat split; trivial; discriminate.
Qed.

Lemma try_session_startup fuel args url (s : state W) :
  processes s = [] -> startup_outcome s (try_session fuel args url s).
Proof.
  intros Hreg. pose proof (session_outcome_session fuel args url s) as Hout.
  destruct (session fuel args url s) as [r s1] eqn:Es.
  unfold session_outcome, quiet in Hout. cbn [fst snd] in Hout.
  destruct (session_handlers_run r s1) as [r2 [s2 [Eh [[Hqc Hqp] [Hok Hfuel]]]]].
  assert (Et : try_except (session fuel args url)
                 [(is_KeyboardInterrupt,
                   fun _ => logger INFO (newline ++ "Received shutdown signal (Ctrl+C)"));
                  (is_Exception, fun e => logger ERROR ("Unexpected error: " ++ str e))] s
               = (r2, s2)).
  { unfold try_except. rewrite Es. destruct r; exact Eh. }
  unfold try_session, try_finally. rewrite Et. clear Et Eh.
  destruct Hout as [[Hc Hp] | [[port [q [n [e [Hc [Hp Hres]]]]]] | [port [q [n [h [rest [Hc Hall]]]]]]]].
  - (* nothing was spawned *)
    left. rewrite Hreg in Hp.
    assert (E : processes s2 = []) by congruence.
    destruct r2 as [[]|e|]; cbn [snd]; rewrite ?(session_finally_empty s2 E); cbn [snd];
      apply calls_grow_same; cbn; congruence.
  - (* the spawn of the bot raised *)
    right. rewrite Hreg in Hp.
    assert (E : processes s2 = []) by congruence.
    exists [], port, q, n, e. split; [constructor | ].
    destruct r2 as [[]|e2|]; cbn [fst snd]; rewrite ?(session_finally_empty s2 E);
      cbn [fst snd app]; (split; [cbn; congruence | split; [cbn; congruence | ]]);
      intros He; destruct (Hres He) as [-> [l Hl]];
      destruct (Hok eq_refl) as [Hr2 ->]; try discriminate.
    split; trivial. exists l. cbn. rewrite Hl. lists.
  - (* the bot was spawned *)
    left.
    assert (Hbot : not_failed_bot_spawn (Spawn (bot_command port q n) (Returned h))).
    { intros ? ? ? ? H. discriminate H. }
    pose proof (session_finally_spawns_nothing s2) as [evs [He Hns]].
    assert (Hns' : Forall not_failed_bot_spawn evs).
    { eapply Forall_impl; [ | exact Hns]. apply not_failed_bot_spawn_not_Spawn. }
    destruct r2 as [[]|e2|]; cbn [snd].
    + exists (app (Spawn (bot_command port q n) (Returned h) :: rest) evs).
      destruct ((cleanup ;; logger SUCCESS "Cleanup completed successfully") s2)
        as [[[]|e3|] s3]; cbn [snd] in *; rewrite He, Hqc, Hc;
        (split; [lists | apply Forall_app; auto]).
    + exists (app (Spawn (bot_command port q n) (Returned h) :: rest) evs).
      destruct ((cleanup ;; logger SUCCESS "Cleanup completed successfully") s2)
        as [[[]|e3|] s3]; cbn [snd] in *; rewrite He, Hqc, Hc;
        (split; [lists | apply Forall_app; auto]).
    + exists (Spawn (bot_command port q n) (Returned h) :: rest).
      rewrite Hqc, Hc. auto.
Qed.

Lemma resolve_meeting_url_inputs fuel args (s : state W) :
  calls_grow_by is_Input s (snd (resolve_meeting_url fuel args s)) /\
  processes (snd (resolve_meeting_url fuel args s)) = processes s.
Proof.
  split.
  - apply (keeps_resolve_meeting_url (calls_grow_by is_Input) is_Input); kept.
    exact I.
  - apply (keeps_resolve_meeting_url same_registry (fun _ => True)); kept.
Qed.

Lemma async_main_with_startup fuel args (s : state W) :
  processes s = [] -> startup_outcome s (async_main_with fuel args s).
Proof.
  intros Hreg. unfold async_main_with, bind.
  destruct (resolve_meeting_url_inputs fuel args s) as [[inputs [Hc Hin]] Hp].
  assert (Hin' : Forall not_failed_bot_spawn inputs).
  { eapply Forall_impl; [ | exact Hin]. apply not_failed_bot_spawn_Input. }
  destruct (resolve_meeting_url fuel args s) as [[url|e|] s1]; cbn [snd] in *.
  - assert (E : processes s1 = []) by congruence.
    destruct (try_session_startup fuel args url s1 E)
      as [[evs [He Hall]] | [inputs' [port [q [n [e [Hi [Hcalls Hrest]]]]]]]].
    + left. exists (app inputs evs). rewrite He, Hc. split; [lists | now apply Forall_app].
    + right. exists (app inputs inputs'), port, q, n, e.
      split; [now apply Forall_app | ]. rewrite Hcalls, Hc. split; [lists | exact Hrest].
  - left. exists inputs. auto.
  - left. exists inputs. auto.
Qed.

Lemma async_main_startup fuel inv (s : state W) :
  processes s = [] -> startup_outcome s (async_main fuel inv s).
Proof.
  intros Hreg. unfold async_main, bind, parser_parse_args.
  destruct (command_line inv) as [args|e]; cbn [lift].
  - now apply async_main_with_startup.
  - left. apply calls_grow_refl.
Qed.

Lemma main_startup fuel inv (s : state W) :
  processes s = [] -> startup_outcome s (main fuel inv s).
Proof.
  intros Hreg. unfold main, try_except.
  assert (Hwrap : forall s0 : state W,
    calls s0 = calls s -> processes s0 = [] ->
    startup_outcome s
      (let (r, s') := async_main fuel inv s0 in
       match r with
       | Raise e =>
           dispatch
             [(is_Exception,
               fun e0 => logger ERROR ("Fatal error in main program: " ++ str e0) ;;
                         sys_exit 1)] e s'
       | _ => (r, s')
       end)).
  { intros s0 Hc Hp. apply (@startup_outcome_base s s0 _ Hc).
    pose proof (async_main_startup fuel inv s0 Hp) as H.
    eapply startup_outcome_wrap; [ | | | exact H];
      destruct (async_main fuel inv s0) as [[[]|e|] s1]; cbn [fst snd]; trivial;
      try discriminate; destruct e; reflexivity. }
  destruct (negb win32).
  - unfold bind at 1, install_signal_handlers, try_finally, ret.
    specialize (Hwrap (set_signal_handlers true s) eq_refl Hreg).
    destruct (async_main fuel inv (set_signal_handlers true s)) as [[[]|e|] s1];
      exact Hwrap.
  - specialize (Hwrap s eq_refl Hreg).
    destruct (async_main fuel inv s) as [[[]|e|] s1]; exact Hwrap.
Qed.

Lemma spawns_inputs (inputs : list event) : Forall is_Input inputs -> spawns inputs = [].
Proof.
  induction 1 as [|ev evs H _ IH]; cbn; trivial. destruct ev; cbn in *; tauto.
Qed.

Lemma terminations_inputs (inputs : list event) :
  Forall is_Input inputs -> terminations inputs = [].
Proof.
  induction 1 as [|ev evs H _ IH]; cbn; trivial. destruct ev; cbn in *; tauto.
Qed.

(** C6 (as amended).  In a run of [main] on a new [BotManager]: when the
    spawn of the bot raises an error, the bot's command is the only one ever
    handed to [Popen] (the meeting is never started), no termination is
    requested, the registry is empty (cleanup ran over no entry: the log
    ends with the failure and the two entries that close cleanup), [main]
    returns, and the exit status is 0. *)
Theorem failed_bot_start_ends_the_run (fuel : nat) (inv : Invocation) (w : W)
    (port : Z) (bot_prompt name : string) (e : exn) :
  In (Spawn (bot_command port bot_prompt name) (Raised e))
     (calls (snd (main fuel inv (BotManager w)))) ->
  is_Exception e = true ->
  spawns (calls (snd (main fuel inv (BotManager w)))) = [bot_command port bot_prompt name] /\
  (forall url n a,
     ~ In (Spawn (meeting_command url n) a) (calls (snd (main fuel inv (BotManager w))))) /\
  terminations (calls (snd (main fuel inv (BotManager w)))) = [] /\
  processes (snd (main fuel inv (BotManager w))) = [] /\
  (exists l,
     log (snd (main fuel inv (BotManager w))) =
       app l
         [(ERROR, "Failed to start bot");
          (SUCCESS, "Cleanup completed successfully");
          (SUCCESS, "Cleanup completed successfully")]) /\
  fst (main fuel inv (BotManager w)) = Ok tt /\
  exit_code (fst (main fuel inv (BotManager w))) = Some 0%Z.
Proof.
  intros Hin He.
  destruct (main_startup fuel inv (BotManager w) eq_refl)
    as [[evs [Hc Hall]] | [inputs [port' [q' [n' [e' [Hi [Hc [Hp Hres]]]]]]]]];
    cbn [BotManager calls app] in Hc; rewrite Hc in *.
  - rewrite Forall_forall in Hall. now destruct (Hall _ Hin port bot_prompt name e).
  - assert (Heq : bot_command port' q' n' = bot_command port bot_prompt name /\ e' = e).
    { apply in_app_or in Hin. destruct Hin as [Hin | [Hin | []]].
      - rewrite Forall_forall in Hi. destruct (Hi _ Hin).
      - injection Hin as H1 H2 H3 H4. unfold bot_command. now rewrite H1, H2, H3, H4. }
    destruct Heq as [Heq ->]. rewrite Heq in *. clear Heq.
    destruct (Hres He) as [Hr Hl]. rewrite Hr.
    repeat split; trivial.
    + now rewrite spawns_app, (spawns_inputs Hi).
    + intros url n a H. apply in_app_or in H. destruct H as [H | [H | []]].
      * rewrite Forall_forall in Hi. destruct (Hi _ H).
      * discriminate H.
    + now rewrite terminations_app, (terminations_inputs Hi).
Qed.

End StartupFacts.

(** On the concrete platform, with the program "bot" missing. *)
Lemma failed_bot_start_ends_the_run_witness :
  spawns (calls (snd (main 5 (Sim.invocation (Some "alpha") (Some "https://meet.example/abc"))
                        (BotManager (Sim.with_missing ["bot"] Sim.fresh)))))
    = [bot_command 8765 "You are Alpha." "alpha"] /\
  exit_code (fst (main 5 (Sim.invocation (Some "alpha") (Some "https://meet.example/abc"))
                    (BotManager (Sim.with_missing ["bot"] Sim.fresh)))) = Some 0%Z.
Proof.
  destruct (failed_bot_start_ends_the_run 5
              (Sim.invocation (Some "alpha") (Some "https://meet.example/abc"))
              (Sim.with_missing ["bot"] Sim.fresh) 8765 "You are Alpha." "alpha"
              (Exception_ OSError "[Errno 2] No such file or directory: 'poetry'"))
    as [H1 [_ [_ [_ [_ [_ H7]]]]]].
  - vm_compute. left. reflexivity.
  - reflexivity.
  - split; assumption.
Defined.

(** C6, where the specification's statement fails: the spawn of the bot
    raises, and the exit status of the run is 0, not 1. *)
Lemma failed_bot_start_exits_with_0 :
  In (Spawn (bot_command 8765 "You are Alpha." "alpha")
        (Raised (Exception_ OSError "[Errno 2] No such file or directory: 'poetry'")))
     (calls (snd (main 5 (Sim.invocation (Some "alpha") (Some "https://meet.example/abc"))
                    (BotManager (Sim.with_missing ["bot"] Sim.fresh))))) /\
  exit_code (fst (main 5 (Sim.invocation (Some "alpha") (Some "https://meet.example/abc"))
                    (BotManager (Sim.with_missing ["bot"] Sim.fresh)))) = Some 0%Z /\
  exit_code (fst (main 5 (Sim.invocation (Some "alpha") (Some "https://meet.example/abc"))
                    (BotManager (Sim.with_missing ["bot"] Sim.fresh)))) <> Some 1%Z.
Proof.
  split; [vm_compute; left; reflexivity | split; [vm_compute; reflexivity | ]].
  vm_compute. discriminate.
Qed.

(** ** [main] and [async_main], by their parts *)

Section MainFacts.

Context {W : Type} {platform : Platform W}.

Local Arguments String.append : simpl never.

(** [main], by how [async_main] ended. *)
Lemma main_unfold (fuel : nat) (inv : Invocation) (s : state W) :
  main fuel inv s =
    match async_main fuel inv (entered s) with
    | (Raise e, s') =>
        if is_Exception e
        then (Raise (SystemExit 1),
              add_log (ERROR, "Fatal error in main program: " ++ str e) s')
        else (Raise e, s')
    | r => r
    end.
Proof.
  unfold main, try_except, entered. destruct win32; cbn [negb].
  - destruct (async_main fuel inv s) as [[[]|e0|] s1]; trivial.
    cbn [dispatch]. destruct (is_Exception e0); reflexivity.
  - unfold bind at 1, install_signal_handlers, try_finally, ret.
    destruct (async_main fuel inv (set_signal_handlers true s)) as [[[]|e0|] s1];
      trivial.
    cbn [dispatch]. destruct (is_Exception e0); reflexivity.
Qed.

(** Once the command line is parsed, [async_main] goes on with the
    arguments, from the same state. *)
Lemma async_main_parsed (fuel : nat) (inv : Invocation) (args : Args) (s : state W) :
  command_line inv = Returned args ->
  async_main fuel inv s = async_main_with fuel args s.
Proof.
  intros H. unfold async_main, bind, parser_parse_args. now rewrite H.
Qed.

(** When the parser or the default of the port raises, [async_main] ends
    there, in the state it began with. *)
Lemma async_main_refused (fuel : nat) (inv : Invocation) (e : exn) (s : state W) :
  command_line inv = Raised e ->
  async_main fuel inv s = (Raise e, s).
Proof.
  intros H. unfold async_main, bind, parser_parse_args. now rewrite H.
Qed.

End MainFacts.

(** * Further properties of the script *)

Unset Implicit Arguments.

(** ** The relay as a whole *)

Section RelayMore.

Import PyStr PyStrFacts.

Lemma log_line_cases (prefix line : string) :
  (all_space line = true /\ log_line prefix line = []) \/
  (all_space line = false /\
   exists sev, log_line prefix line = [(sev, prefix ++ ": " ++ strip line)]).
Proof.
  destruct (all_space line) eqn:E.
  - left. split; trivial. now apply log_line_blank.
  - right. split; trivial. destruct (log_line_text prefix line E) as [sev [H _]].
    now exists sev.
Qed.

Lemma log_output_app (stream more : list string) (prefix : string) :
  log_output (app stream more) prefix =
    app (log_output stream prefix) (log_output more prefix).
Proof.
  induction stream as [|line rest IH]; [reflexivity | ].
  cbn [log_output app]. rewrite IH. now rewrite app_assoc.
Qed.

Lemma log_output_texts (stream : list string) (prefix : string) :
  map snd (log_output stream prefix) =
    map (fun line => prefix ++ ": " ++ strip line)
      (filter (fun line => negb (all_space line)) stream).
Proof.
  induction stream as [|line rest IH]; [reflexivity | ].
  cbn [log_output filter]. rewrite map_app.
  destruct (log_line_cases prefix line) as [[E H] | [E [sev H]]]; rewrite H, E;
    cbn [map app negb snd]; [exact IH | f_equal; exact IH].
Qed.

(** X1.  Over a whole stream the relay logs one entry for every line that
    is not blank and none for the others, in the order of the stream, each
    made of the label, a colon and the stripped line; and the entries of
    two streams one after the other are the entries of the first followed
    by those of the second. *)
Theorem log_output_keeps_the_order_of_the_stream (stream : list string) (prefix : string) :
  map snd (log_output stream prefix) =
    map (fun line => prefix ++ ": " ++ strip line)
      (filter (fun line => negb (all_space line)) stream) /\
  length (log_output stream prefix) =
    length (filter (fun line => negb (all_space line)) stream) /\
  (forall more,
     log_output (app stream more) prefix =
       app (log_output stream prefix) (log_output more prefix)).
Proof.
  split; [apply log_output_texts | split].
  - transitivity (length (map snd (log_output stream prefix))).
    + symmetry. apply length_map.
    + rewrite log_output_texts. apply length_map.
  - intros more. apply log_output_app.
Qed.

End RelayMore.

(** ** The prompt for the meeting URL *)

Section PromptMore.

Context {W : Type} {platform : Platform W}.

Local Arguments String.append : simpl never.

(** A run of [get_user_input] that returns has read some inputs that
    [validate_url] rejected, then one it accepted. *)
Lemma get_user_input_run (fuel : nat) (prompt url : string) (s s' : state W) :
  get_user_input fuel prompt (Some validate_url) s = (Ok url, s') ->
  exists rejected accepted,
    calls s' =
      app (calls s)
        (map (fun raw => Input prompt (Returned raw)) (app rejected [accepted])) /\
    Forall (fun raw => PyStr.startswith (PyStr.strip raw) "https://" = false) rejected /\
    url = PyStr.strip accepted /\
    PyStr.startswith url "https://" = true /\
    log s' = app (log s) (repeat invalid_url_warning (length rejected)) /\
    processes s' = processes s /\
    shutdown_event s' = shutdown_event s.
Proof.
  revert s. induction fuel as [|fuel IH]; intros s; [discriminate | ].
  cbn [get_user_input]. unfold bind at 1, py_input, perform.
  destruct (input prompt (world s)) as [[raw|e] w1]; cbn [lift]; [ | discriminate].
  unfold bind at 1, try_except, validate_url, bind at 1.
  destruct (PyStr.startswith (PyStr.strip raw) "https://") eqn:E; cbn.
  - intros H. injection H as <- <-. exists [], raw. cbn. rewrite app_nil_r.
    repeat split; auto.
  - intros H. apply IH in H.
    destruct H as [rej [acc [Hc [Hf [Hu [Hs [Hl [Hp He]]]]]]]].
    exists (raw :: rej), acc. cbn in Hc, Hl, Hp, He. cbn [app map length repeat].
    rewrite Hc, Hl, <- !app_assoc. repeat split; auto.
Qed.

(** X2.  When [get_user_input] returns with [validate_url], it has called
    [input] once for each line it read; every line but the last was
    rejected (stripped, it does not start with "https://") and got exactly
    one warning; the value returned is the last line, stripped, and it
    starts with "https://".  Nothing else was logged, and the registry and
    the shutdown event are as before. *)
Theorem get_user_input_returns_the_first_valid_input
    (fuel : nat) (prompt url : string) (s s' : state W) :
  get_user_input fuel prompt (Some validate_url) s = (Ok url, s') ->
  exists rejected accepted,
    calls s' =
      app (calls s)
        (map (fun raw => Input prompt (Returned raw)) (app rejected [accepted])) /\
    Forall (fun raw => PyStr.startswith (PyStr.strip raw) "https://" = false) rejected /\
    url = PyStr.strip accepted /\
    PyStr.startswith url "https://" = true /\
    log s' = app (log s) (repeat invalid_url_warning (length rejected)) /\
    processes s' = processes s /\
    shutdown_event s' = shutdown_event s.
Proof. apply get_user_input_run. Qed.

(** An exception of [input] leaves [get_user_input] as it is, whatever its
    class: the call is outside the [try]. *)
Lemma get_user_input_input_raises (fuel : nat) (prompt : string) validator
    (s : state W) (e : exn) (w1 : W) :
  input prompt (world s) = (Raised e, w1) ->
  get_user_input (S fuel) prompt validator s =
    (Raise e, answered (Input prompt (Raised e)) w1 s).
Proof.
  intros H. cbn [get_user_input]. unfold bind at 1, py_input, perform.
  now rewrite H.
Qed.

Lemma async_main_prompt_raises (fuel : nat) (args : Args) (s : state W) (e : exn) (w1 : W) :
  truthy (arg_meeting_url args) = false ->
  input url_prompt (world s) = (Raised e, w1) ->
  async_main_with (S fuel) args s =
    (Raise e, answered (Input url_prompt (Raised e)) w1 s).
Proof.
  intros Ht Hin. unfold async_main_with, bind, resolve_meeting_url. rewrite Ht. cbn [negb].
  pose proof (get_user_input_input_raises fuel url_prompt (Some validate_url) s e w1 Hin) as H.
  unfold url_prompt in *. now rewrite H.
Qed.

(** X3.  With a command line the parser accepts and no URL on it, an
    exception of the first [input] is not handled by the session: nothing
    is spawned and cleanup is not run.  An error (the end of the standard
    input, say) reaches [main], which logs it as fatal and leaves through
    [sys.exit(1)]: the exit status is 1.  An exception that is no error
    goes through [main] unlogged. *)
Theorem failed_prompt_is_fatal (fuel : nat) (inv : Invocation) (args : Args)
    (s : state W) (e : exn) (w1 : W) :
  command_line inv = Returned args ->
  truthy (arg_meeting_url args) = false ->
  input url_prompt (world s) = (Raised e, w1) ->
  (is_Exception e = true ->
   main (S fuel) inv s =
     (Raise (SystemExit 1),
      add_log (ERROR, "Fatal error in main program: " ++ str e)
        (answered (Input url_prompt (Raised e)) w1 (entered s))) /\
   exit_code (fst (main (S fuel) inv s)) = Some 1%Z) /\
  (is_Exception e = false ->
   main (S fuel) inv s =
     (Raise e, answered (Input url_prompt (Raised e)) w1 (entered s))).
Proof.
  intros Hparse Ht Hin.
  assert (Hin' : input url_prompt (world (entered s)) = (Raised e, w1)).
  { unfold entered. destruct win32; exact Hin. }
  pose proof (async_main_prompt_raises fuel args (entered s) e w1 Ht Hin') as Ha.
  rewrite (@main_unfold W platform (S fuel) inv s).
  rewrite (@async_main_parsed W platform (S fuel) inv args (entered s) Hparse), Ha.
  split; intros He; rewrite He; [split | ]; reflexivity.
Qed.

End PromptMore.

(** On the concrete platform: a rejected line, then an accepted one. *)
Lemma get_user_input_returns_the_first_valid_input_witness :
  exists rejected accepted,
    calls (snd (get_user_input 5 url_prompt (Some validate_url)
                  (BotManager (Sim.with_stdin ["ftp://x"; "  https://ok  "] Sim.fresh)))) =
      app (calls (BotManager (Sim.with_stdin ["ftp://x"; "  https://ok  "] Sim.fresh)))
        (map (fun raw => Input url_prompt (Returned raw)) (app rejected [accepted])) /\
    Forall (fun raw => PyStr.startswith (PyStr.strip raw) "https://" = false) rejected /\
    "https://ok" = PyStr.strip accepted /\
    PyStr.startswith "https://ok" "https://" = true /\
    log (snd (get_user_input 5 url_prompt (Some validate_url)
                (BotManager (Sim.with_stdin ["ftp://x"; "  https://ok  "] Sim.fresh)))) =
      app (log (BotManager (Sim.with_stdin ["ftp://x"; "  https://ok  "] Sim.fresh)))
        (repeat invalid_url_warning (length rejected)) /\
    processes (snd (get_user_input 5 url_prompt (Some validate_url)
                      (BotManager (Sim.with_stdin ["ftp://x"; "  https://ok  "] Sim.fresh)))) =
      processes (BotManager (Sim.with_stdin ["ftp://x"; "  https://ok  "] Sim.fresh)) /\
    shutdown_event
      (snd (get_user_input 5 url_prompt (Some validate_url)
              (BotManager (Sim.with_stdin ["ftp://x"; "  https://ok  "] Sim.fresh)))) =
      shutdown_event (BotManager (Sim.with_stdin ["ftp://x"; "  https://ok  "] Sim.fresh)).
Proof.
  apply (@get_user_input_returns_the_first_valid_input Sim.os Sim.platform
           5 url_prompt "https://ok"
           (BotManager (Sim.with_stdin ["ftp://x"; "  https://ok  "] Sim.fresh))
           (snd (get_user_input 5 url_prompt (Some validate_url)
                   (BotManager (Sim.with_stdin ["ftp://x"; "  https://ok  "] Sim.fresh))))).
  vm_compute. reflexivity.
Defined.

(** On the concrete platform, with an empty standard input: [input] raises
    [EOFError] and the run ends with exit status 1. *)
Lemma failed_prompt_is_fatal_witness :
  exit_code (fst (main 1 (Sim.invocation (Some "alpha") None) (BotManager Sim.fresh))) =
    Some 1%Z /\
  calls (snd (main 1 (Sim.invocation (Some "alpha") None) (BotManager Sim.fresh))) =
    [Input url_prompt (Raised (Exception_ EOFError "EOF when reading a line"))].
Proof.
  destruct (@failed_prompt_is_fatal Sim.os Sim.platform 0
              (Sim.invocation (Some "alpha") None) (Sim.args (Some "alpha") None)
              (BotManager Sim.fresh)
              (Exception_ EOFError "EOF when reading a line") Sim.fresh)
    as [H _]; [vm_compute; reflexivity | reflexivity | vm_compute; reflexivity | ].
  destruct (H eq_refl) as [Hm Hx]. split; [exact Hx | ]. rewrite Hm. reflexivity.
Defined.

(** ** How the session and the run end *)

Section SessionMore.

Context {W : Type} {platform : Platform W}.

Local Arguments String.append : simpl never.

Ltac lists := repeat rewrite <- app_assoc; cbn [app]; try reflexivity.

(** The [try] statement, by how its body ended. *)
Lemma try_session_unfold (fuel : nat) (args : Args) (url : string) (s : state W) :
  try_session fuel args url s =
    match session fuel args url s with
    | (Ok _, s1) => session_finally (Ok tt) s1
    | (Raise e, s1) =>
        if is_KeyboardInterrupt e || is_Exception e
        then session_finally (Ok tt) (add_log (handled_entry e) s1)
        else session_finally (Raise e) s1
    | (OutOfFuel, s1) => (OutOfFuel, s1)
    end.
Proof.
  unfold try_session, try_finally, try_except, session_finally, handled_entry.
  destruct (session fuel args url s) as [[[]|e|] s1]; trivial.
  destruct e; reflexivity.
Qed.

(** The [finally] of the session never ends in a raised error of its own. *)
Lemma session_finally_no_error (r : result unit) (s : state W) (e : exn) :
  fst (session_finally r s) = Raise e ->
  is_Exception e = false \/ r = Raise e.
Proof.
  unfold session_finally, bind, logger. pose proof (cleanup_no_error s) as H.
  destruct (cleanup s) as [[[]|e'|] s1]; cbn in *.
  - intros ->. now right.
  - intros Heq. injection Heq as <-. now left.
  - contradiction.
Qed.

Lemma session_finally_Ok (s : state W) :
  session_finally (Ok tt) s = (cleanup ;; logger SUCCESS "Cleanup completed successfully") s.
Proof.
  unfold session_finally.
  destruct ((cleanup ;; logger SUCCESS "Cleanup completed successfully") s)
    as [[[]|e|] s1]; reflexivity.
Qed.

Lemma try_session_no_error (fuel : nat) (args : Args) (url : string) (s : state W) (e : exn) :
  fst (try_session fuel args url s) = Raise e -> is_Exception e = false.
Proof.
  rewrite try_session_unfold.
  destruct (session fuel args url s) as [[[]|e0|] s1].
  - intros H. apply session_finally_no_error in H. destruct H; [trivial | discriminate].
  - destruct (is_KeyboardInterrupt e0 || is_Exception e0) eqn:E.
    + intros H. apply session_finally_no_error in H. destruct H; [trivial | discriminate].
    + intros H. apply session_finally_no_error in H. destruct H as [H | H]; trivial.
      injection H as <-. apply orb_false_iff in E. tauto.
  - discriminate.
Qed.

(** X4.  No error leaves the [try] statement of [async_main]: it never ends
    in a raised instance of [Exception].  An error or a
    [KeyboardInterrupt] raised in the session is logged (as "Unexpected
    error: ..." or as the Ctrl+C message) and the statement then ends as
    cleanup and its closing entry end, from the state the session had
    reached. *)
Theorem session_errors_are_logged_not_raised
    (fuel : nat) (args : Args) (url : string) (s : state W) :
  (forall e, fst (try_session fuel args url s) = Raise e -> is_Exception e = false) /\
  (forall e s1,
     session fuel args url s = (Raise e, s1) ->
     is_KeyboardInterrupt e || is_Exception e = true ->
     try_session fuel args url s =
       (cleanup ;; logger SUCCESS "Cleanup completed successfully")
         (add_log (handled_entry e) s1)).
Proof.
  split.
  - intros e. apply try_session_no_error.
  - intros e s1 Hs He. rewrite try_session_unfold, Hs, He. apply session_finally_Ok.
Qed.

Lemma async_main_with_error_is_from_the_prompt
    (fuel : nat) (args : Args) (s : state W) (e : exn) :
  fst (async_main_with fuel args s) = Raise e ->
  is_Exception e = true ->
  truthy (arg_meeting_url args) = false /\
  fst (resolve_meeting_url fuel args s) = Raise e.
Proof.
  unfold async_main_with, bind. intros H He.
  destruct (truthy (arg_meeting_url args)) eqn:Ht.
  - rewrite (@resolve_meeting_url_flag W platform fuel args s Ht) in H.
    apply try_session_no_error in H. congruence.
  - split; trivial.
    destruct (resolve_meeting_url fuel args s) as [[url|e0|] s1]; cbn [fst] in *.
    + apply try_session_no_error in H. congruence.
    + now injection H as ->.
    + discriminate.
Qed.

(** An error that leaves [async_main] was raised before its [try]
    statement: by the parser or the default of the port, or at the prompt
    for the URL. *)
Lemma async_main_error_precedes_the_try
    (fuel : nat) (inv : Invocation) (s : state W) (e : exn) :
  fst (async_main fuel inv s) = Raise e ->
  is_Exception e = true ->
  command_line inv = Raised e \/
  exists args,
    command_line inv = Returned args /\
    truthy (arg_meeting_url args) = false /\
    fst (resolve_meeting_url fuel args s) = Raise e.
Proof.
  intros H He. destruct (command_line inv) as [args|e0] eqn:Hparse.
  - right. exists args. split; trivial.
    rewrite (@async_main_parsed W platform fuel inv args s Hparse) in H.
    now apply async_main_with_error_is_from_the_prompt.
  - left. rewrite (@async_main_refused W platform fuel inv e0 s Hparse) in H.
    cbn in H. now injection H as ->.
Qed.

Lemma main_with_url (fuel : nat) (inv : Invocation) (args : Args) (s : state W) :
  command_line inv = Returned args ->
  truthy (arg_meeting_url args) = true ->
  main fuel inv s = async_main_with fuel args (entered s).
Proof.
  intros Hparse Ht. rewrite (@main_unfold W platform fuel inv s).
  rewrite (@async_main_parsed W platform fuel inv args (entered s) Hparse).
  destruct (async_main_with fuel args (entered s)) as [[[]|e|] s1] eqn:E; trivial.
  destruct (is_Exception e) eqn:He; trivial.
  pose proof (async_main_with_error_is_from_the_prompt fuel args (entered s) e) as H.
  rewrite E in H. destruct (H eq_refl He) as [Hf _]. congruence.
Qed.

(** X5.  Errors are fatal only before the [try] statement.  An error that
    leaves [async_main] was raised while the command line was parsed (by
    the parser, or by [int] on the [PORT] variable) or, with no URL on the
    command line, at the prompt for the URL.  So with a command line the
    parser accepts and a URL on it, no error leaves [async_main], and
    [main] does exactly what [async_main] does: its [except] clause, with
    [sys.exit(1)], is not entered. *)
Theorem errors_are_fatal_only_before_the_try
    (fuel : nat) (inv : Invocation) (s : state W) :
  (forall e,
     fst (async_main fuel inv s) = Raise e ->
     is_Exception e = true ->
     command_line inv = Raised e \/
     exists args,
       command_line inv = Returned args /\
       truthy (arg_meeting_url args) = false /\
       fst (resolve_meeting_url fuel args s) = Raise e) /\
  (forall args,
     command_line inv = Returned args ->
     truthy (arg_meeting_url args) = true ->
     main fuel inv s = async_main fuel inv (entered s) /\
     forall e, fst (async_main fuel inv (entered s)) = Raise e -> is_Exception e = false).
Proof.
  split.
  - intros e. apply async_main_error_precedes_the_try.
  - intros args Hparse Ht.
    rewrite (@async_main_parsed W platform fuel inv args (entered s) Hparse).
    split; [now apply main_with_url | ].
    intros e H. destruct (is_Exception e) eqn:He; trivial.
    destruct (async_main_with_error_is_from_the_prompt fuel args (entered s) e H He)
      as [Hf _].
    congruence.
Qed.

(** When the [finally] of the session returns, the log ends with the
    closing entry twice: once from [cleanup], once from the [finally]. *)
Lemma session_finally_closing_entries (r : result unit) (s : state W) :
  fst (session_finally r s) = Ok tt ->
  exists l, log (snd (session_finally r s)) = app l [cleanup_completed; cleanup_completed].
Proof.
  unfold session_finally, bind, logger.
  destruct (cleanup_run s) as [evs [logs [_ [_ [Hl _]]]]].
  destruct (cleanup s) as [[[]|e|] s1]; cbn [fst snd] in *; try discriminate.
  intros _. exists (app (log s) logs). cbn. rewrite Hl. lists.
Qed.

(** X6.  Whenever the [try] statement of [async_main] returns, the last two
    entries of the log are both "Cleanup completed successfully": the one
    [cleanup] logs and the one the [finally] logs after it. *)
Theorem cleanup_is_reported_twice (fuel : nat) (args : Args) (url : string) (s : state W) :
  fst (try_session fuel args url s) = Ok tt ->
  exists l,
    log (snd (try_session fuel args url s)) = app l [cleanup_completed; cleanup_completed].
Proof.
  rewrite try_session_unfold.
  destruct (session fuel args url s) as [[[]|e|] s1].
  - apply session_finally_closing_entries.
  - destruct (is_KeyboardInterrupt e || is_Exception e);
      apply session_finally_closing_entries.
  - discriminate.
Qed.

End SessionMore.

(** ** Every registered process is asked to terminate *)

Section TeardownMore.

Context {W : Type} {platform : Platform W}.

Local Arguments String.append : simpl never.

Ltac lists := repeat rewrite <- app_assoc; cbn [app]; try reflexivity.

Lemma terminations_not_Terminate (evs : list event) :
  Forall not_Terminate evs -> terminations evs = [].
Proof.
  induction 1 as [|ev evs H _ IH]; cbn; trivial. destruct ev; cbn in *; tauto.
Qed.

Lemma not_Terminate_Input (ev : event) : is_Input ev -> not_Terminate ev.
Proof. destruct ev; cbn; tauto. Qed.

(** The [try] body of the session requests no termination. *)
Lemma session_requests_no_termination (fuel : nat) (args : Args) (url : string) (s : state W) :
  calls_grow_by not_Terminate s (snd (session fuel args url s)).
Proof.
  apply (keeps_session (calls_grow_by not_Terminate) not_Terminate); kept.
  all: exact I.
Qed.

(** On a platform that raises errors only, the [finally] of the session
    keeps the result it was entered with, after a request to terminate for
    every registered process, in registry order. *)
Lemma session_finally_terminations (r : result unit) (s : state W) :
  raises_errors_only platform ->
  exists evs,
    calls (snd (session_finally r s)) = app (calls s) evs /\
    map fst (terminations evs) = handles (processes s) /\
    processes (snd (session_finally r s)) = processes s /\
    fst (session_finally r s) = r.
Proof.
  intros Hp. unfold session_finally, bind, logger.
  pose proof (cleanup_returns s Hp) as Hok.
  destruct (cleanup_run s) as [evs [logs [Ht [Hc [_ Hreg]]]]].
  rewrite Hok in Ht. destruct (teardown_terminations Ht) as [Hall _].
  destruct (cleanup s) as [[[]|e|] s1]; cbn [fst snd] in *; try discriminate.
  exists evs. cbn. auto.
Qed.

Lemma try_session_terminations (fuel : nat) (args : Args) (url : string) (s : state W) :
  raises_errors_only platform ->
  fst (try_session fuel args url s) <> OutOfFuel ->
  exists evs,
    calls (snd (try_session fuel args url s)) = app (calls s) evs /\
    map fst (terminations evs) = handles (processes (snd (try_session fuel args url s))).
Proof.
  intros Hp. rewrite try_session_unfold.
  destruct (session_requests_no_termination fuel args url s) as [pre [Hc Hpre]].
  assert (Hgen : forall r (s2 : state W),
            calls s2 = app (calls s) pre ->
            exists evs,
              calls (snd (session_finally r s2)) = app (calls s) evs /\
              map fst (terminations evs) =
                handles (processes (snd (session_finally r s2)))).
  { intros r s2 Hc2.
    destruct (session_finally_terminations r s2 Hp) as [evs [He [Ht [Hreg _]]]].
    exists (app pre evs). rewrite He, Hc2, Hreg, terminations_app.
    rewrite (terminations_not_Terminate pre Hpre). split; [lists | exact Ht]. }
  destruct (session fuel args url s) as [[[]|e|] s1]; cbn [snd] in Hc.
  - intros _. now apply Hgen.
  - intros _. destruct (is_KeyboardInterrupt e || is_Exception e); now apply Hgen.
  - intros H. now destruct H.
Qed.

Lemma async_main_with_terminations (fuel : nat) (args : Args) (s : state W) :
  raises_errors_only platform ->
  processes s = [] ->
  fst (async_main_with fuel args s) <> OutOfFuel ->
  exists evs,
    calls (snd (async_main_with fuel args s)) = app (calls s) evs /\
    map fst (terminations evs) = handles (processes (snd (async_main_with fuel args s))).
Proof.
  intros Hp Hreg. unfold async_main_with, bind.
  destruct (resolve_meeting_url_inputs fuel args s) as [[inputs [Hc Hin]] Hsame].
  assert (Hin' : terminations inputs = []).
  { apply terminations_not_Terminate. eapply Forall_impl; [ | exact Hin].
    apply not_Terminate_Input. }
  destruct (resolve_meeting_url fuel args s) as [[url|e|] s1]; cbn [fst snd] in *.
  - intros Hfuel.
    destruct (try_session_terminations fuel args url s1 Hp Hfuel) as [evs [He Ht]].
    exists (app inputs evs). rewrite He, Hc, terminations_app, Hin'. split; [lists | exact Ht].
  - intros _. exists inputs. rewrite Hsame, Hreg, Hin'. auto.
  - intros H. now destruct H.
Qed.

Lemma async_main_terminations (fuel : nat) (inv : Invocation) (s : state W) :
  raises_errors_only platform ->
  processes s = [] ->
  fst (async_main fuel inv s) <> OutOfFuel ->
  exists evs,
    calls (snd (async_main fuel inv s)) = app (calls s) evs /\
    map fst (terminations evs) = handles (processes (snd (async_main fuel inv s))).
Proof.
  intros Hp Hreg. destruct (command_line inv) as [args|e] eqn:Hparse.
  - rewrite (@async_main_parsed W platform fuel inv args s Hparse).
    now apply async_main_with_terminations.
  - rewrite (@async_main_refused W platform fuel inv e s Hparse). cbn [fst snd].
    intros _. exists []. rewrite app_nil_r, Hreg. auto.
Qed.

(** X7.  On a platform that raises errors only, a run of [main] that starts
    with an empty registry ends with a request to terminate for every
    process it has registered, once each and in registry order, and for no
    other: however the session ended, cleanup ran over the whole registry. *)
Theorem main_terminates_what_it_registered (fuel : nat) (inv : Invocation) (s : state W) :
  raises_errors_only platform ->
  processes s = [] ->
  fst (main fuel inv s) <> OutOfFuel ->
  exists evs,
    calls (snd (main fuel inv s)) = app (calls s) evs /\
    map fst (terminations evs) = handles (processes (snd (main fuel inv s))).
Proof.
  intros Hp Hreg. rewrite main_unfold.
  assert (He : processes (entered s) = [] /\ calls (entered s) = calls s).
  { unfold entered. destruct win32; auto. }
  destruct He as [Hreg' Hc'].
  pose proof (async_main_terminations fuel inv (entered s) Hp Hreg') as H.
  rewrite Hc' in H.
  destruct (async_main fuel inv (entered s)) as [[[]|e|] s1]; cbn [fst snd] in *.
  - intros _. apply H. discriminate.
  - destruct (is_Exception e); intros _; cbn [snd]; apply H; discriminate.
  - intros Hf. now destruct Hf.
Qed.

End TeardownMore.

(** On the concrete platform: both processes start, SIGINT arrives, and the
    run ends with both asked to terminate. *)
Lemma main_terminates_what_it_registered_witness :
  exists evs,
    calls (snd (main 5 (Sim.invocation (Some "alpha") (Some "https://meet.example/abc"))
                  (BotManager Sim.fresh))) =
      app (calls (BotManager Sim.fresh)) evs /\
    map fst (terminations evs) = [0; 1].
Proof.
  destruct (main_terminates_what_it_registered 5
              (Sim.invocation (Some "alpha") (Some "https://meet.example/abc"))
              (BotManager Sim.fresh) sim_raises_errors_only eq_refl)
    as [evs [Hc Ht]].
  - vm_compute. discriminate.
  - exists evs. split; [exact Hc | ]. rewrite Ht. vm_compute. reflexivity.
Defined.

(** ** What a session spawns and registers *)

Section ShapeMore.

Context {W : Type} {platform : Platform W}.

Local Arguments String.append : simpl never.

Ltac lists := repeat rewrite <- app_assoc; cbn [app]; try reflexivity.

Lemma calm_refl (s : state W) : calm s s.
Proof. repeat split. apply calls_grow_refl. Qed.

Lemma calm_trans (a b c : state W) : calm a b -> calm b c -> calm a c.
Proof.
  intros [H1 [H2 H3]] [H4 [H5 H6]]. repeat split; try congruence.
  eapply calls_grow_trans; eassumption.
Qed.

Lemma calm_log l (s : state W) : calm s (add_log l s).
Proof. repeat split. now apply calls_grow_same. Qed.

Lemma calm_call ev w (s : state W) : not_Spawn ev -> calm s (answered ev w s).
Proof. intros H. repeat split. now apply calls_grow_call. Qed.

Lemma calm_set (s : state W) : calm s (set_shutdown_event true s).
Proof. repeat split. now apply calls_grow_same. Qed.

Lemma calm_world (s : state W) (w : W) :
  calm s (mk_state (processes s) (shutdown_event s) (selected_persona_name s)
            (signal_handlers s) (log s) (calls s) (event_writes s) w).
Proof. repeat split. now apply calls_grow_same. Qed.

Lemma calm_sleep_1 (s : state W) : calm s (snd (sleep_1 s)).
Proof.
  apply (keeps_sleep_1 calm not_Spawn);
    first [ apply calm_refl | apply calm_trans | apply calm_set
          | intros; apply calm_call; assumption | intros; exact I ].
Qed.

Lemma calm_call_get_persona name (s : state W) : calm s (snd (call_get_persona name s)).
Proof. apply (keeps_call_get_persona calm). apply calm_world. Qed.

(** Once both processes are started, nothing more is spawned or
    registered. *)
Lemma calm_running (fuel : nat) (s : state W) :
  calm s
    (snd ((logger SUCCESS "Successfully started bot and meeting processes" ;;
           logger INFO "Press Ctrl+C to stop all processes" ;;
           run_until_shutdown fuel) s)).
Proof.
  assert (H : keeps calm
    (logger SUCCESS "Successfully started bot and meeting processes" ;;
     logger INFO "Press Ctrl+C to stop all processes" ;;
     run_until_shutdown fuel)).
  { apply (keeps_bind calm); [apply calm_trans | intros s0; apply calm_log | intros _].
    apply (keeps_bind calm); [apply calm_trans | intros s0; apply calm_log | intros _].
    apply (keeps_run_until_shutdown calm not_Spawn);
      first [ apply calm_refl | apply calm_trans | apply calm_set | apply calm_log
            | intros; apply calm_call; assumption | intros; exact I ]. }
  apply H.
Qed.

Lemma spawns_threads (threads : list event) :
  Forall (fun ev => exists h fd b, ev = StartThread h fd b) threads -> spawns threads = [].
Proof.
  induction 1 as [|ev evs [h [fd [b ->]]] _ IH]; cbn; trivial.
Qed.

Lemma run_command_same_persona command name (s : state W) :
  selected_persona_name (snd (run_command command name s)) = selected_persona_name s.
Proof.
  apply (keeps_run_command same_persona (fun _ => True));
    unfold same_persona, allowed_Spawn; intros;
    first [ exact I | reflexivity | congruence ].
Qed.

(** [run_command] by its result: one spawn, and the registry either as
    before or with the name set to the process [Popen] returned. *)
Lemma run_command_stage command name (s : state W) :
  exists new,
    calls (snd (run_command command name s)) = app (calls s) new /\
    spawns new = [command] /\
    selected_persona_name (snd (run_command command name s)) = selected_persona_name s /\
    match fst (run_command command name s) with
    | Ok (Some h) =>
        In (Spawn command (Returned h)) new /\
        processes (snd (run_command command name s)) =
          dict_set (processes s) name {| process := h; command := command |}
    | Ok None | Raise _ => processes (snd (run_command command name s)) = processes s
    | OutOfFuel => False
    end.
Proof.
  destruct (run_command_run command name s) as [a [threads [Hc [Hth [_ Hres]]]]].
  exists (Spawn command a :: threads). split; [exact Hc | ].
  split; [cbn; now rewrite (spawns_threads threads Hth) | ].
  split; [apply run_command_same_persona | ].
  destruct (fst (run_command command name s)) as [[h|]|e|].
  - destruct Hres as [-> [_ [Hp _]]]. split; [now left | exact Hp].
  - apply Hres.
  - apply Hres.
  - exact Hres.
Qed.

Lemma spawns_calm (s s' : state W) :
  calm s s' -> exists new, calls s' = app (calls s) new /\ spawns new = [].
Proof.
  intros [[new [Hc Hall]] _]. exists new. split; trivial. now apply spawns_not_Spawn.
Qed.

(** The [finally] of the running phase sets the event, however the wait and
    the monitor task ended. *)
Lemma run_until_shutdown_sets (fuel : nat) (s : state W) :
  fst (run_until_shutdown fuel s) <> OutOfFuel ->
  shutdown_event (snd (run_until_shutdown fuel s)) = true.
Proof.
  unfold run_until_shutdown, try_finally, try_except.
  destruct (monitor_processes fuel s) as [[[]|e|] s1];
    try (intros H; now destruct H);
    destruct (shutdown_event_wait s1) as [[[]|e'|] s2]; cbn;
    try reflexivity; try (intros H; now destruct H);
    destruct (is_CancelledError e'); reflexivity.
Qed.

Lemma running_sets (fuel : nat) (s : state W) r s' :
  (logger SUCCESS "Successfully started bot and meeting processes" ;;
   logger INFO "Press Ctrl+C to stop all processes" ;;
   run_until_shutdown fuel) s = (r, s') ->
  r <> OutOfFuel -> shutdown_event s' = true.
Proof.
  unfold bind at 1, logger at 1. unfold bind at 1, logger at 1.
  intros H Hr.
  pose proof (run_until_shutdown_sets fuel
    (add_log (INFO, "Press Ctrl+C to stop all processes")
       (add_log (SUCCESS, "Successfully started bot and meeting processes") s))) as E.
  rewrite H in E. now apply E.
Qed.

(** The meeting's stage of the session. *)
Lemma meeting_stage (fuel : nat) (url n : string) (s : state W) r s' :
  (meeting_process <- run_command (meeting_command url n) "meeting" ;;
   match meeting_process with
   | None => logger ERROR "Failed to start meeting"
   | Some _ =>
       logger SUCCESS "Successfully started bot and meeting processes" ;;
       logger INFO "Press Ctrl+C to stop all processes" ;;
       run_until_shutdown fuel
   end) s = (r, s') ->
  exists new meeting,
    calls s' = app (calls s) new /\
    spawns new = [meeting_command url n] /\
    selected_persona_name s' = selected_persona_name s /\
    processes s' =
      match meeting with
      | None => processes s
      | Some h' =>
          dict_set (processes s) "meeting"
            {| process := h'; command := meeting_command url n |}
      end /\
    (forall h', meeting = Some h' -> In (Spawn (meeting_command url n) (Returned h')) new) /\
    (meeting <> None -> r <> OutOfFuel -> shutdown_event s' = true).
Proof.
  unfold bind at 1.
  destruct (run_command_stage (meeting_command url n) "meeting" s)
    as [new [Hc [Hsp [Hper Hres]]]].
  destruct (run_command (meeting_command url n) "meeting" s) as [[[h'|]|e|] s1];
    cbn [fst snd] in *; cbv beta iota; intros H.
  - destruct Hres as [Hin Hreg].
    pose proof (calm_running fuel s1) as C. rewrite H in C. cbn [snd] in C.
    destruct (spawns_calm _ _ C) as [new2 [Hc2 Hsp2]].
    destruct C as [_ [Hreg2 Hper2]].
    exists (app new new2), (Some h'). rewrite Hc2, Hc, Hreg2, Hper2, Hreg, Hper.
    split; [lists | ]. split; [now rewrite spawns_app, Hsp, Hsp2 | ].
    split; [reflexivity | ]. split; [reflexivity | ]. split.
    + intros h Hh. injection Hh as <-. apply in_or_app. now left.
    + intros _. now apply (running_sets fuel s1).
  - injection H as <- <-. exists new, None. cbn.
    repeat split; trivial; try discriminate. intros Hn. now destruct Hn.
  - injection H as <- <-. exists new, None.
    repeat split; trivial; try discriminate. intros Hn. now destruct Hn.
  - contradiction.
Qed.

(** The session, once the persona is known: the bot's stage, then the
    meeting's. *)
Lemma bot_stage (fuel : nat) (url : string) (port : Z) (q n : string) (s : state W) r s' :
  (bot_process <- run_command (bot_command port q n) "bot" ;;
   match bot_process with
   | None => logger ERROR "Failed to start bot"
   | Some _ =>
       sleep_1 ;;
       meeting_process <- run_command (meeting_command url n) "meeting" ;;
       match meeting_process with
       | None => logger ERROR "Failed to start meeting"
       | Some _ =>
           logger SUCCESS "Successfully started bot and meeting processes" ;;
           logger INFO "Press Ctrl+C to stop all processes" ;;
           run_until_shutdown fuel
       end
   end) s = (r, s') ->
  exists new bot meeting,
    calls s' = app (calls s) new /\
    (spawns new = [bot_command port q n] /\ meeting = None \/
     spawns new = [bot_command port q n; meeting_command url n] /\ bot <> None) /\
    selected_persona_name s' = selected_persona_name s /\
    processes s' =
      registered (processes s) (bot_command port q n) (meeting_command url n) bot meeting /\
    (forall h, bot = Some h -> In (Spawn (bot_command port q n) (Returned h)) new) /\
    (forall h', meeting = Some h' ->
       bot <> None /\ In (Spawn (meeting_command url n) (Returned h')) new) /\
    (meeting <> None -> r <> OutOfFuel -> shutdown_event s' = true).
Proof.
  unfold bind at 1.
  destruct (run_command_stage (bot_command port q n) "bot" s)
    as [new [Hc [Hsp [Hper Hres]]]].
  destruct (run_command (bot_command port q n) "bot" s) as [[[h|]|e|] s1];
    cbn [fst snd] in *; cbv beta iota; intros H.
  - destruct Hres as [Hin Hreg]. unfold bind at 1 in H.
    pose proof (calm_sleep_1 s1) as C.
    destruct (spawns_calm _ _ C) as [new2 [Hc2 Hsp2]].
    destruct C as [_ [Hreg2 Hper2]].
    destruct (sleep_1 s1) as [[[]|e|] s2]; cbn [fst snd] in *; cbv beta iota in H.
    + destruct (meeting_stage fuel url n s2 r s' H)
        as [new3 [meeting [Hc3 [Hsp3 [Hper3 [Hreg3 [Hin3 Hev3]]]]]]].
      exists (app new (app new2 new3)), (Some h), meeting.
      rewrite Hc3, Hc2, Hc, Hper3, Hper2, Hper, Hreg3, Hreg2, Hreg.
      split; [lists | ]. split.
      { right. rewrite !spawns_app, Hsp, Hsp2, Hsp3. split; [reflexivity | discriminate]. }
      split; [reflexivity | ]. split; [destruct meeting; reflexivity | ].
      split; [ | split].
      * intros h0 Hh. injection Hh as <-. apply in_or_app. now left.
      * intros h' Hh. split; [discriminate | ].
        apply in_or_app. right. apply in_or_app. right. now apply Hin3.
      * exact Hev3.
    + injection H as <- <-. exists (app new new2), (Some h), None.
      rewrite Hc2, Hc, Hper2, Hper, Hreg2, Hreg.
      split; [lists | ]. split.
      { left. rewrite spawns_app, Hsp, Hsp2. split; reflexivity. }
      repeat split; try discriminate; try (intros Hn; now destruct Hn).
      intros h0 Hh. injection Hh as <-. apply in_or_app. now left.
    + injection H as <- <-. exists (app new new2), (Some h), None.
      rewrite Hc2, Hc, Hper2, Hper, Hreg2, Hreg.
      split; [lists | ]. split.
      { left. rewrite spawns_app, Hsp, Hsp2. split; reflexivity. }
      repeat split; try discriminate; try (intros Hn; now destruct Hn).
      intros h0 Hh. injection Hh as <-. apply in_or_app. now left.
  - injection H as <- <-. exists new, None, None. cbn.
    repeat split; auto; try discriminate; try (intros Hn; now destruct Hn).
  - injection H as <- <-. exists new, None, None. cbn.
    repeat split; auto; try discriminate; try (intros Hn; now destruct Hn).
  - contradiction.
Qed.

Lemma select_persona_sets (args : Args) (s s' : state W) (name : string) :
  select_persona args s = (Ok name, s') -> selected_persona_name s' = Some name.
Proof.
  unfold select_persona. unfold bind at 1.
  destruct (call_list_personas s) as [[available|e|] s1]; try discriminate.
  unfold bind.
  destruct ((if truthy (arg_persona args)
             then if negb (py_in (value (arg_persona args)) available)
                  then raise _ else ret (value (arg_persona args))
             else random_choice available) s1) as [[x|e|] s2]; try discriminate.
  cbn. intros H. now injection H as <- <-.
Qed.

Lemma select_persona_named (args : Args) (s s' : state W) (name : string) :
  select_persona args s = (Ok name, s') ->
  truthy (arg_persona args) = true -> name = value (arg_persona args).
Proof.
  unfold select_persona. unfold bind at 1.
  destruct (call_list_personas s) as [[available|e|] s1]; try discriminate.
  unfold bind. intros H Ht. rewrite Ht in H.
  destruct (negb (py_in (value (arg_persona args)) available)); cbn in H;
    [discriminate | ].
  now injection H as <- <-.
Qed.

(** The session as a whole: what it spawns, what it registers, and the
    event once the meeting is registered. *)
Lemma session_shape (fuel : nat) (args : Args) (url : string) (s : state W) :
  exists new,
    calls (snd (session fuel args url s)) = app (calls s) new /\
    (spawns new = [] /\ processes (snd (session fuel args url s)) = processes s
     \/ exists q n bot meeting,
          selected_persona_name (snd (session fuel args url s)) = Some n /\
          (truthy (arg_persona args) = true -> n = value (arg_persona args)) /\
          (spawns new = [bot_command (arg_port args) q n] /\ meeting = None \/
           spawns new = [bot_command (arg_port args) q n; meeting_command url n] /\
           bot <> None) /\
          processes (snd (session fuel args url s)) =
            registered (processes s) (bot_command (arg_port args) q n)
              (meeting_command url n) bot meeting /\
          (forall h, bot = Some h ->
             In (Spawn (bot_command (arg_port args) q n) (Returned h)) new) /\
          (forall h', meeting = Some h' ->
             In (Spawn (meeting_command url n) (Returned h')) new) /\
          (meeting <> None -> fst (session fuel args url s) <> OutOfFuel ->
           shutdown_event (snd (session fuel args url s)) = true)).
Proof.
  remember (session fuel args url s) as X eqn:H. destruct X as [r s']. symmetry in H.
  cbn [fst snd]. unfold session in H. unfold bind at 1, logger at 1 in H.
  unfold bind at 1 in H.
  pose proof (quiet_select_persona args
                (add_log (INFO, "Starting bot with random persona selection...") s)) as Q1.
  pose proof (select_persona_sets args
                (add_log (INFO, "Starting bot with random persona selection...") s)) as P1.
  pose proof (select_persona_named args
                (add_log (INFO, "Starting bot with random persona selection...") s)) as N1.
  destruct (select_persona args
              (add_log (INFO, "Starting bot with random persona selection...") s))
    as [[name|e|] s2]; cbn [snd] in Q1; destruct Q1 as [Qc Qp]; cbn in Qc, Qp.
  2,3: injection H as <- <-; exists []; rewrite app_nil_r; split; [exact Qc | left; now split].
  specialize (P1 s2 name eq_refl). specialize (N1 s2 name eq_refl).
  unfold bind at 1 in H.
  pose proof (quiet_call_get_persona name s2) as [Q2c Q2p].
  pose proof (calm_call_get_persona name s2) as [_ [_ C2]].
  destruct (call_get_persona name s2) as [[p|e|] s3]; cbn [snd] in *.
  2,3: injection H as <- <-; exists []; rewrite app_nil_r; split;
       [congruence | left; split; [reflexivity | congruence]].
  cbv zeta in H. unfold bind at 1, logger at 1 in H. unfold bind at 1, logger at 1 in H.
  apply bot_stage in H.
  destruct H as [new [bot [meeting [Hc [Hsp [Hper [Hreg [Hb [Hm Hev]]]]]]]]].
  cbn [calls processes selected_persona_name add_log] in Hc, Hper, Hreg.
  exists new. split; [congruence | ]. right.
  exists (prompt p), name, bot, meeting.
  split; [congruence | ]. split; [exact N1 | ]. split; [exact Hsp | ].
  split; [congruence | ]. split; [exact Hb | ].
  split; [intros h' Hh; now apply Hm | exact Hev].
Qed.

(** X8.  The session hands at most two commands to [Popen]: the bot's and,
    only after the bot was registered, the meeting's.  Both carry the
    selected persona name (the one of [--persona] when that is given), the
    meeting's carries the meeting URL.  The registry afterwards is the one
    before with "bot" and then "meeting" set to the processes [Popen]
    returned, each with the command it was spawned with; a process whose
    start failed is not registered. *)
Theorem session_starts_the_bot_then_the_meeting
    (fuel : nat) (args : Args) (url : string) (s : state W) :
  exists new,
    calls (snd (session fuel args url s)) = app (calls s) new /\
    (spawns new = [] /\ processes (snd (session fuel args url s)) = processes s
     \/ exists q n bot meeting,
          selected_persona_name (snd (session fuel args url s)) = Some n /\
          (truthy (arg_persona args) = true -> n = value (arg_persona args)) /\
          (spawns new = [bot_command (arg_port args) q n] /\ meeting = None \/
           spawns new = [bot_command (arg_port args) q n; meeting_command url n] /\
           bot <> None) /\
          processes (snd (session fuel args url s)) =
            registered (processes s) (bot_command (arg_port args) q n)
              (meeting_command url n) bot meeting /\
          (forall h, bot = Some h ->
             In (Spawn (bot_command (arg_port args) q n) (Returned h)) new) /\
          (forall h', meeting = Some h' ->
             In (Spawn (meeting_command url n) (Returned h')) new)).
Proof.
  destruct (session_shape fuel args url s) as [new [Hc Hsh]].
  exists new. split; [exact Hc | ].
  destruct Hsh as [Hq | [q [n [bot [meeting [Hn [Ha [Hsp [Hreg [Hb [Hm _]]]]]]]]]]].
  - now left.
  - right. exists q, n, bot, meeting. repeat split; assumption.
Qed.

(** *** A run that started both processes ends with the event set *)

Lemma dict_get_set_other (d : registry) (k k' : string) (v : process_info) :
  String.eqb k k' = false -> dict_get (dict_set d k v) k' = dict_get d k'.
Proof.
  intros Hk. induction d as [|[k0 v0] d IH]; cbn.
  - now rewrite Hk.
  - destruct (String.eqb k0 k) eqn:E; cbn.
    + apply String.eqb_eq in E. subst k0. now rewrite Hk.
    + now rewrite IH.
Qed.

Lemma session_meeting_sets (fuel : nat) (args : Args) (url : string) (s : state W) :
  dict_get (processes s) "meeting" = None ->
  dict_get (processes (snd (session fuel args url s))) "meeting" <> None ->
  fst (session fuel args url s) <> OutOfFuel ->
  shutdown_event (snd (session fuel args url s)) = true.
Proof.
  intros Hnone Hsome Hr.
  destruct (session_shape fuel args url s) as [new [_ Hsh]].
  destruct Hsh as [[_ Hp] | [q [n [bot [meeting [_ [_ [_ [Hreg [_ [_ Hev]]]]]]]]]]].
  - rewrite Hp in Hsome. contradiction.
  - apply Hev; trivial. intros ->. apply Hsome. rewrite Hreg.
    destruct bot; cbn [registered]; trivial.
    now rewrite dict_get_set_other.
Qed.

(** The [finally] of the session leaves the registry as it is and does not
    clear the event. *)
Lemma session_finally_keeps (r : result unit) (s : state W) :
  processes (snd (session_finally r s)) = processes s /\
  (shutdown_event s = true -> shutdown_event (snd (session_finally r s)) = true).
Proof.
  unfold session_finally, bind, logger.
  pose proof (cleanup_same_registry s) as Hp. pose proof (flag_stays_cleanup s) as Hf.
  destruct (cleanup s) as [[[]|e|] s1]; cbn [fst snd] in *; split; trivial.
Qed.

Lemma try_session_meeting_sets (fuel : nat) (args : Args) (url : string) (s : state W) :
  dict_get (processes s) "meeting" = None ->
  dict_get (processes (snd (try_session fuel args url s))) "meeting" <> None ->
  fst (try_session fuel args url s) <> OutOfFuel ->
  shutdown_event (snd (try_session fuel args url s)) = true.
Proof.
  intros Hnone. pose proof (session_meeting_sets fuel args url s Hnone) as H.
  rewrite try_session_unfold.
  destruct (session fuel args url s) as [[[]|e|] s1]; cbn [fst snd] in H.
  - destruct (session_finally_keeps (Ok tt) s1) as [Hp Hf]. rewrite Hp.
    intros Hsome _. apply Hf, H; [exact Hsome | discriminate].
  - destruct (is_KeyboardInterrupt e || is_Exception e).
    + destruct (session_finally_keeps (Ok tt) (add_log (handled_entry e) s1)) as [Hp Hf].
      rewrite Hp. cbn [processes add_log]. intros Hsome _.
      apply Hf. cbn. apply H; [exact Hsome | discriminate].
    + destruct (session_finally_keeps (Raise e) s1) as [Hp Hf]. rewrite Hp.
      intros Hsome _. apply Hf, H; [exact Hsome | discriminate].
  - intros _ Hr. now destruct Hr.
Qed.

Lemma same_registry_resolve_meeting_url (fuel : nat) (args : Args) (s : state W) :
  same_registry s (snd (resolve_meeting_url fuel args s)).
Proof.
  apply (keeps_resolve_meeting_url same_registry (fun _ => True));
    unfold same_registry; intros; first [ exact I | reflexivity | congruence ].
Qed.

(** X9.  A run that registered the meeting ends with the shutdown event
    set, whatever ended it: the [finally] of the running phase sets the
    event, and neither the [except] clauses nor cleanup clear it. *)
Theorem a_run_with_both_started_ends_with_the_event_set
    (fuel : nat) (inv : Invocation) (s : state W) :
  dict_get (processes s) "meeting" = None ->
  dict_get (processes (snd (main fuel inv s))) "meeting" <> None ->
  fst (main fuel inv s) <> OutOfFuel ->
  shutdown_event (snd (main fuel inv s)) = true.
Proof.
  intros Hnone. rewrite main_unfold.
  assert (He : processes (entered s) = processes s).
  { unfold entered. destruct win32; reflexivity. }
  destruct (command_line inv) as [args|e0] eqn:Hparse.
  2:{ rewrite (@async_main_refused W platform fuel inv e0 (entered s) Hparse).
      destruct (is_Exception e0); cbn [fst snd processes add_log]; intros Hsome _;
        exfalso; apply Hsome; congruence. }
  rewrite (@async_main_parsed W platform fuel inv args (entered s) Hparse).
  unfold async_main_with, bind.
  pose proof (same_registry_resolve_meeting_url fuel args (entered s)) as Hp.
  unfold same_registry in Hp.
  destruct (resolve_meeting_url fuel args (entered s)) as [[url|e|] s1]; cbn [snd] in Hp.
  - assert (Hnone1 : dict_get (processes s1) "meeting" = None) by congruence.
    pose proof (try_session_meeting_sets fuel args url s1 Hnone1) as H.
    destruct (try_session fuel args url s1) as [[[]|e|] s2]; cbn [fst snd] in *.
    + intros Hsome _. apply H; [exact Hsome | discriminate].
    + destruct (is_Exception e); cbn [fst snd processes shutdown_event add_log];
        intros Hsome _; (apply H; [exact Hsome | discriminate]).
    + intros _ Hr. now destruct Hr.
  - destruct (is_Exception e); cbn [fst snd processes add_log]; intros Hsome _;
      exfalso; apply Hsome; congruence.
  - intros _ Hr. now destruct Hr.
Qed.

End ShapeMore.

(** ** Edges: cancellation, a relay that cannot start, no persona *)

Section EdgesMore.

Context {W : Type} {platform : Platform W}.

Local Arguments String.append : simpl never.

Ltac lists := repeat rewrite <- app_assoc; cbn [app]; try reflexivity.

(** X10.  How an exception raised in the [try] body of a monitor iteration
    ends.  [CancelledError] breaks the loop: the monitor returns, and logs
    nothing.  An error is logged and the loop sleeps; an exception raised
    by that sleep, in the handler, is caught by no clause (not even
    [CancelledError], which the clause beside it would catch) and leaves
    the monitor.  Any other exception leaves the monitor at once. *)
Theorem cancellation_breaks_the_monitor_loop
    (fuel : nat) (s s1 : state W) (e : exn) :
  shutdown_event s = false ->
  sweep s = (Raise e, s1) ->
  match e with
  | CancelledError => monitor_processes (S fuel) s = (Ok tt, s1)
  | Exception_ _ _ =>
      forall e' s2,
        sleep_1 (add_log (ERROR, "Error monitoring processes: " ++ str e) s1)
          = (Raise e', s2) ->
        monitor_processes (S fuel) s = (Raise e', s2)
  | _ => monitor_processes (S fuel) s = (Raise e, s1)
  end.
Proof.
  intros Hf Hs. rewrite (@monitor_processes_step W platform fuel s Hf).
  assert (Hit : monitor_iteration s =
                dispatch
                  [(is_CancelledError, fun _ => ret Break);
                   (is_Exception,
                    fun e =>
                      logger ERROR ("Error monitoring processes: " ++ str e) ;;
                      sleep_1 ;;
                      ret Continue)] e s1).
  { unfold monitor_iteration, try_except.
    now rewrite (@sweep_raises W platform s s1 e Hs). }
  destruct e; [intros e' s2 Hsl | | | ]; unfold bind at 1; rewrite Hit;
    cbn [dispatch is_CancelledError is_Exception]; try reflexivity.
  unfold bind, logger. rewrite Hsl. reflexivity.
Qed.

(** X11.  When [Popen] has returned a process and [run_command] still
    returns [None], the start of one of the two relay threads raised an
    error.  The error is logged with its traceback, the registry is as
    before, and the process that was started is left running: a cleanup
    after that requests neither its termination nor its kill. *)
Theorem failed_relay_start_orphans_the_process
    (command : list string) (name : string) (s : state W) (h : handle) (w1 : W) :
  Popen command (world s) = (Returned h, w1) ->
  fst (run_command command name s) = Ok None ->
  ~ In h (handles (processes s)) ->
  exists e threads,
    is_Exception e = true /\
    (threads = [StartThread h stdout (Raised e)] \/
     threads = [StartThread h stdout (Returned tt); StartThread h stderr (Raised e)]) /\
    calls (snd (run_command command name s)) =
      app (calls s) (Spawn command (Returned h) :: threads) /\
    log (snd (run_command command name s)) =
      app (log s)
        [(ERROR, "Failed to start " ++ name ++ ": " ++ str e);
         (ERROR, format_exception e)] /\
    processes (snd (run_command command name s)) = processes s /\
    exists evs,
      calls (snd (cleanup (snd (run_command command name s)))) =
        app (calls (snd (run_command command name s))) evs /\
      forall a b, ~ In (Terminate h a) evs /\ ~ In (Kill h b) evs.
Proof.
  intros HP Hr Hh.
  assert (Hrun : exists e threads,
    is_Exception e = true /\
    (threads = [StartThread h stdout (Raised e)] \/
     threads = [StartThread h stdout (Returned tt); StartThread h stderr (Raised e)]) /\
    calls (snd (run_command command name s)) =
      app (calls s) (Spawn command (Returned h) :: threads) /\
    log (snd (run_command command name s)) =
      app (log s)
        [(ERROR, "Failed to start " ++ name ++ ": " ++ str e);
         (ERROR, format_exception e)] /\
    processes (snd (run_command command name s)) = processes s).
  { revert Hr. destruct s as [reg flag sel hand lg cl wr w]. cbn [world] in HP.
    unfold run_command, try_except, bind, subprocess_Popen, start_relay, register,
      perform, logger, ret, lift, add_log, answered, set_processes.
    cbn. rewrite HP. cbn.
    destruct (Thread_start h stdout w1) as [[[]|e] w2]; cbn.
    2:{ destruct (is_Exception e) eqn:He; cbn; [ | discriminate].
        intros _. exists e, [StartThread h stdout (Raised e)].
        repeat split; auto; lists. }
    destruct (Thread_start h stderr w2) as [[[]|e] w3]; cbn; [discriminate | ].
    destruct (is_Exception e) eqn:He; cbn; [ | discriminate].
    intros _.
    exists e, [StartThread h stdout (Returned tt); StartThread h stderr (Raised e)].
    repeat split; auto; lists. }
  destruct Hrun as [e [threads [He [Hth [Hc [Hl Hp]]]]]].
  exists e, threads. repeat split; trivial.
  apply (@cleanup_leaves_unregistered W platform). now rewrite Hp.
Qed.

(** The session when there is no persona to draw from. *)
Lemma session_without_personas (fuel : nat) (args : Args) (url : string)
    (s : state W) (w1 : W) :
  truthy (arg_persona args) = false ->
  list_personas (world s) = (Returned [], w1) ->
  session fuel args url s =
    (Raise (Exception_ IndexError "Cannot choose from an empty sequence"),
     mk_state (processes s) (shutdown_event s) (selected_persona_name s)
       (signal_handlers s)
       (app (log s) [(INFO, "Starting bot with random persona selection...")])
       (calls s) (event_writes s) w1).
Proof.
  intros Ht Hl. destruct s as [reg flag sel hand lg cl wr w]. cbn [world] in Hl.
  unfold session, select_persona, call_list_personas, bind, logger, add_log.
  cbn. rewrite Hl. cbn. rewrite Ht. reflexivity.
Qed.

(** X12.  With a command line the parser accepts, with a meeting URL and
    no [--persona] on it, and an empty registry: when the persona
    collaborator lists no persona, [random.choice] raises [IndexError],
    which the session logs as an unexpected error.  Nothing is asked of
    the platform, no persona is selected, cleanup finds nothing to tear
    down, and [main] returns: the exit status is 0. *)
Theorem an_empty_persona_list_is_logged_not_fatal
    (fuel : nat) (inv : Invocation) (args : Args) (s : state W) (w1 : W) :
  command_line inv = Returned args ->
  truthy (arg_meeting_url args) = true ->
  truthy (arg_persona args) = false ->
  processes s = [] ->
  list_personas (world s) = (Returned [], w1) ->
  fst (main fuel inv s) = Ok tt /\
  exit_code (fst (main fuel inv s)) = Some 0%Z /\
  calls (snd (main fuel inv s)) = calls s /\
  selected_persona_name (snd (main fuel inv s)) = selected_persona_name s /\
  log (snd (main fuel inv s)) =
    app (log s)
      [(INFO, "Starting bot with random persona selection...");
       (ERROR, "Unexpected error: Cannot choose from an empty sequence");
       cleanup_completed; cleanup_completed].
Proof.
  intros Hparse Hu Ht Hreg Hl.
  rewrite (@main_with_url W platform fuel inv args s Hparse Hu).
  unfold async_main_with, bind.
  rewrite (@resolve_meeting_url_flag W platform fuel args (entered s) Hu).
  rewrite (@try_session_unfold W platform).
  assert (He : processes (entered s) = [] /\ world (entered s) = world s /\
               calls (entered s) = calls s /\ log (entered s) = log s /\
               selected_persona_name (entered s) = selected_persona_name s).
  { unfold entered. destruct win32; auto. }
  destruct He as [Hreg' [Hw [Hc [Hlg Hsel]]]]. rewrite <- Hw in Hl.
  rewrite (session_without_personas fuel args _ (entered s) w1 Ht Hl).
  cbn [is_KeyboardInterrupt is_Exception orb].
  rewrite (@session_finally_Ok W platform).
  rewrite (@session_finally_empty W platform);
    [ | cbn [processes add_log]; exact Hreg'].
  cbn. rewrite Hc, Hsel, Hlg. repeat split. unfold cleanup_completed. lists.
Qed.

End EdgesMore.

(** On the hostile platform: a cancellation during the sleep of the sweep
    ends the monitor quietly; one during the sleep of the error handler
    leaves it. *)
Lemma cancellation_breaks_the_monitor_loop_witness :
  @monitor_processes Harsh.os Harsh.platform 3 (BotManager (Harsh.init 0 0 []))
    = (Ok tt, snd (@sweep Harsh.os Harsh.platform (BotManager (Harsh.init 0 0 [])))) /\
  fst (@monitor_processes Harsh.os Harsh.platform 3 (Harsh.ghost (Harsh.init 0 0 [])))
    = Raise CancelledError.
Proof.
  split.
  - apply (@cancellation_breaks_the_monitor_loop Harsh.os Harsh.platform 2
             (BotManager (Harsh.init 0 0 []))
             (snd (@sweep Harsh.os Harsh.platform (BotManager (Harsh.init 0 0 []))))
             CancelledError); vm_compute; reflexivity.
  - rewrite (@cancellation_breaks_the_monitor_loop Harsh.os Harsh.platform 2
               (Harsh.ghost (Harsh.init 0 0 []))
               (snd (@sweep Harsh.os Harsh.platform (Harsh.ghost (Harsh.init 0 0 []))))
               Harsh.no_such_process
               ltac:(vm_compute; reflexivity) ltac:(vm_compute; reflexivity)
               CancelledError
               (snd (@sleep_1 Harsh.os Harsh.platform
                       (add_log (ERROR, "Error monitoring processes: " ++
                                        str Harsh.no_such_process)
                          (snd (@sweep Harsh.os Harsh.platform
                                  (Harsh.ghost (Harsh.init 0 0 []))))))));
      [reflexivity | vm_compute; reflexivity].
Defined.

(** On the hostile platform: the second relay thread of the bot cannot be
    started. *)
Lemma failed_relay_start_orphans_the_process_witness :
  exists e threads,
    is_Exception e = true /\
    (threads = [StartThread 0 stdout (Raised e)] \/
     threads = [StartThread 0 stdout (Returned tt); StartThread 0 stderr (Raised e)]) /\
    calls (snd (@run_command Harsh.os Harsh.platform ["poetry"; "run"; "bot"] "bot"
                  (BotManager (Harsh.init 0 1 [])))) =
      app [] (Spawn ["poetry"; "run"; "bot"] (Returned 0) :: threads).
Proof.
  destruct (@failed_relay_start_orphans_the_process Harsh.os Harsh.platform
              ["poetry"; "run"; "bot"] "bot" (BotManager (Harsh.init 0 1 [])) 0
              {| Harsh.sleeps := 0; Harsh.threads := 1; Harsh.spawned := 1;
                 Harsh.names := [] |})
    as [e [threads [He [Hth [Hc _]]]]].
  - vm_compute; reflexivity.
  - vm_compute; reflexivity.
  - intros H; exact H.
  - exists e, threads. split; [exact He | ]. split; [exact Hth | exact Hc].
Defined.

(** On the hostile platform, without a persona. *)
Lemma an_empty_persona_list_is_logged_not_fatal_witness :
  exit_code
    (fst (@main Harsh.os Harsh.platform 5
            (Sim.invocation None (Some "https://meet.example/abc"))
            (BotManager (Harsh.init 0 2 [])))) = Some 0%Z.
Proof.
  apply (@an_empty_persona_list_is_logged_not_fatal Harsh.os Harsh.platform 5
           (Sim.invocation None (Some "https://meet.example/abc"))
           (Sim.args None (Some "https://meet.example/abc"))
           (BotManager (Harsh.init 0 2 [])) (Harsh.init 0 2 []));
    vm_compute; reflexivity.
Defined.

(** Both processes start, SIGINT arrives: the run ends with the event set. *)
Lemma a_run_with_both_started_ends_with_the_event_set_witness :
  shutdown_event
    (snd (main 5 (Sim.invocation (Some "alpha") (Some "https://meet.example/abc"))
            (BotManager Sim.fresh))) = true.
Proof.
  apply (@a_run_with_both_started_ends_with_the_event_set Sim.os Sim.platform 5
           (Sim.invocation (Some "alpha") (Some "https://meet.example/abc"))
           (BotManager Sim.fresh)).
  - vm_compute; reflexivity.
  - vm_compute. discriminate.
  - vm_compute. discriminate.
Defined.

(** A session that ran to the end. *)
Lemma cleanup_is_reported_twice_witness :
  exists l,
    log (snd (try_session 5 (Sim.args (Some "alpha") None) "https://meet.example/abc"
                (set_signal_handlers true (BotManager Sim.fresh)))) =
      app l [cleanup_completed; cleanup_completed].
Proof.
  apply (@cleanup_is_reported_twice Sim.os Sim.platform 5 (Sim.args (Some "alpha") None)
           "https://meet.example/abc" (set_signal_handlers true (BotManager Sim.fresh))).
  vm_compute; reflexivity.
Defined.

(** ** The running phase *)

Section RunningMore.

Context {W : Type} {platform : Platform W}.

Local Arguments String.append : simpl never.

(** X13.  The running phase (lines 218-227).  With the shutdown event
    already set, as after a signal during startup, it returns at once: the
    monitor starts no iteration, the wait does not suspend, nothing is
    asked of the platform and nothing is logged.  And when the monitor has
    ended with the event still clear and the wait is cancelled, the
    cancellation is logged as a shutdown signal, the event is set, and the
    phase ends as the monitor task ended. *)
Theorem running_phase_returns_once_the_event_is_set (fuel : nat) (s : state W) :
  (shutdown_event s = true ->
   run_until_shutdown fuel s = (Ok tt, set_shutdown_event true s)) /\
  (forall r s1 w2,
     monitor_processes fuel s = (r, s1) ->
     r <> OutOfFuel ->
     shutdown_event s1 = false ->
     Event_wait (world s1) = (Raised CancelledError, w2) ->
     run_until_shutdown fuel s =
       (r, set_shutdown_event true
             (add_log (INFO, newline ++ "Received shutdown signal")
                (answered (Wait (Raised CancelledError)) w2 s1)))).
Proof.
  split.
  - intros H. unfold run_until_shutdown.
    rewrite (@monitor_processes_stops W platform fuel s H).
    unfold try_finally, try_except, shutdown_event_wait. now rewrite H.
  - intros r s1 w2 Hm Hr Hf Hw. unfold run_until_shutdown. rewrite Hm.
    unfold try_finally, try_except, shutdown_event_wait. rewrite Hf, Hw.
    destruct r as [[]|e|]; cbn; trivial. now destruct Hr.
Qed.

End RunningMore.

(** The event set before the phase; and on the hostile platform the
    monitor is cancelled in its first sleep, then the wait is. *)
Lemma running_phase_returns_once_the_event_is_set_witness :
  run_until_shutdown 0 (signal_handler (Sim.started Sim.fresh))
    = (Ok tt, set_shutdown_event true (signal_handler (Sim.started Sim.fresh))) /\
  log (snd (@run_until_shutdown Harsh.os Harsh.platform 3
              (BotManager (Harsh.init 0 0 [])))) =
    [(INFO, newline ++ "Received shutdown signal")].
Proof.
  split.
  - apply (@running_phase_returns_once_the_event_is_set Sim.os Sim.platform 0
             (signal_handler (Sim.started Sim.fresh))).
    vm_compute; reflexivity.
  - destruct (@running_phase_returns_once_the_event_is_set Harsh.os Harsh.platform 3
                (BotManager (Harsh.init 0 0 []))) as [_ H].
    rewrite (H (Ok tt)
               (snd (@monitor_processes Harsh.os Harsh.platform 3
                       (BotManager (Harsh.init 0 0 []))))
               (Harsh.init 0 0 []));
      [reflexivity | vm_compute; reflexivity | discriminate
      | vm_compute; reflexivity | vm_compute; reflexivity].
Defined.

(** An unknown persona is logged and cleaned up after; on the hostile
    platform the task is cancelled in the sleep after the bot's start and
    again in the sleep of cleanup, and [CancelledError] leaves the
    statement. *)
Lemma session_errors_are_logged_not_raised_witness :
  is_Exception CancelledError = false /\
  try_session 5 (Sim.args (Some "gamma") None) "https://meet.example/abc"
      (BotManager Sim.fresh) =
    (cleanup ;; logger SUCCESS "Cleanup completed successfully")
      (add_log
         (handled_entry
            (Exception_ ValueError "Persona 'gamma' not found in available personas"))
         (snd (session 5 (Sim.args (Some "gamma") None) "https://meet.example/abc"
                 (BotManager Sim.fresh)))).
Proof.
  split.
  - destruct (@session_errors_are_logged_not_raised Harsh.os Harsh.platform 5
                (Sim.args None None) "https://meet.example/abc"
                (BotManager (Harsh.init 0 2 ["alpha"]))) as [H _].
    apply H. vm_compute; reflexivity.
  - destruct (@session_errors_are_logged_not_raised Sim.os Sim.platform 5
                (Sim.args (Some "gamma") None) "https://meet.example/abc"
                (BotManager Sim.fresh)) as [_ H].
    apply H; vm_compute; reflexivity.
Defined.

(** Without a URL and with nothing to read, [EOFError] leaves
    [async_main] from the prompt; with a URL, [main] is [async_main]. *)
Lemma errors_are_fatal_only_before_the_try_witness :
  (command_line (Sim.invocation None None) =
     Raised (Exception_ EOFError "EOF when reading a line") \/
   exists args,
     command_line (Sim.invocation None None) = Returned args /\
     truthy (arg_meeting_url args) = false /\
     fst (resolve_meeting_url 3 args (BotManager Sim.fresh)) =
       Raise (Exception_ EOFError "EOF when reading a line")) /\
  main 5 (Sim.invocation (Some "alpha") (Some "https://meet.example/abc"))
      (BotManager Sim.fresh) =
    async_main 5 (Sim.invocation (Some "alpha") (Some "https://meet.example/abc"))
      (entered (BotManager Sim.fresh)).
Proof.
  split.
  - destruct (@errors_are_fatal_only_before_the_try Sim.os Sim.platform 3
                (Sim.invocation None None) (BotManager Sim.fresh)) as [H _].
    apply H; vm_compute; reflexivity.
  - destruct (@errors_are_fatal_only_before_the_try Sim.os Sim.platform 5
                (Sim.invocation (Some "alpha") (Some "https://meet.example/abc"))
                (BotManager Sim.fresh)) as [_ H].
    apply (H (Sim.args (Some "alpha") (Some "https://meet.example/abc")));
      vm_compute; reflexivity.
Defined.

(** ** The command line *)

Section CommandLineMore.

Context {W : Type} {platform : Platform W}.

Local Arguments String.append : simpl never.

(** X14.  The command line is parsed before anything else, outside the
    [try] statement of [async_main].  The default of [--port] comes first:
    with [PORT] set, [int] is applied to its value, and what [int] raises
    ends the parsing before the parser sees the command line; with [PORT]
    not set the parser runs with the default 8765.  When the parsing
    raises, nothing has been logged, asked of the platform or registered:
    an error is logged by [main] as fatal and the run ends through
    [sys.exit(1)]; any other exception, like the [SystemExit] of the
    parser, leaves [main] as it is. *)
Theorem a_refused_command_line_ends_the_run
    (fuel : nat) (inv : Invocation) (s : state W) :
  (forall v e,
     os_getenv inv "PORT" = Some v -> py_int v = Raised e ->
     command_line inv = Raised e) /\
  (os_getenv inv "PORT" = None ->
   command_line inv = parse_args 8765%Z (sys_argv inv)) /\
  (forall e,
     command_line inv = Raised e ->
     main fuel inv s =
       (if is_Exception e
        then (Raise (SystemExit 1),
              add_log (ERROR, "Fatal error in main program: " ++ str e) (entered s))
        else (Raise e, entered s))).
Proof.
  split; [ | split].
  - intros v e Hv He. unfold command_line. now rewrite Hv, He.
  - intros Hv. unfold command_line. rewrite Hv.
    destruct (parse_args 8765%Z (sys_argv inv)); reflexivity.
  - intros e He. rewrite (@main_unfold W platform fuel inv s).
    rewrite (@async_main_refused W platform fuel inv e (entered s) He).
    destruct (is_Exception e); reflexivity.
Qed.

End CommandLineMore.

(** On the concrete platform: with [PORT=abc] the run is fatal, with exit
    status 1, whatever the command line; and an option the parser does not
    know ends the run with the parser's exit status 2, unlogged. *)
Lemma a_refused_command_line_ends_the_run_witness :
  (exit_code
     (fst (main 5 {| sys_argv := ["--meeting-url"; "https://meet.example/abc"];
                     os_environ := [("PORT", "abc")] |}
             (BotManager Sim.fresh))) = Some 1%Z /\
   log (snd (main 5 {| sys_argv := ["--meeting-url"; "https://meet.example/abc"];
                       os_environ := [("PORT", "abc")] |}
               (BotManager Sim.fresh))) =
     [(ERROR,
       "Fatal error in main program: invalid literal for int() with base 10: 'abc'")]) /\
  exit_code
    (fst (main 5 {| sys_argv := ["--bogus"; "1"]; os_environ := [] |}
            (BotManager Sim.fresh))) = Some 2%Z.
Proof.
  split.
  - destruct (@a_refused_command_line_ends_the_run Sim.os Sim.platform 5
                {| sys_argv := ["--meeting-url"; "https://meet.example/abc"];
                   os_environ := [("PORT", "abc")] |}
                (BotManager Sim.fresh)) as [H1 [_ H3]].
    rewrite (H3 (Exception_ ValueError "invalid literal for int() with base 10: 'abc'")
               (H1 "abc" _ eq_refl eq_refl)).
    split; vm_compute; reflexivity.
  - destruct (@a_refused_command_line_ends_the_run Sim.os Sim.platform 5
                {| sys_argv := ["--bogus"; "1"]; os_environ := [] |}
                (BotManager Sim.fresh)) as [_ [H2 H3]].
    rewrite (H3 (SystemExit 2)); [reflexivity | ].
    rewrite (H2 eq_refl). vm_compute; reflexivity.
Defined.
